(** * OneNote knowledge base: vector stores, QA chain and OneNote loader

    A shallow embedding of
      - src/vectorstore/lancedb-store.ts  (classes LanceDBStore and HNSWLibStore),
      - src/chains/qa-chain.ts            (class QAChain),
      - src/loaders/onenote-loader.ts     (class OneNoteLoader),
      - src/config/settings.ts            (the settings object),
    followed by the properties the specification states about them.

    Methods of a class become computations in a small state-and-exception
    monad: the state is the object ([this]) together with the world the
    object talks to (LanceDB tables on disk, the file system, the embedding
    provider, the language model).  A [throw] keeps the state reached so
    far, as a JavaScript exception does.

    Conventions.  Batch sizes, result widths and indices are counts
    ([nat]); an omitted optional argument is [None].  A string is the UTF-8
    text of the JavaScript string; where the code measures or cuts a
    string, UTF-16 code units are counted ([utf16_length], [js_slice]), and
    white space is what JavaScript takes for white space.  Paths are joined
    as [path.join] does, and a directory is removed with all that is under
    it.  The [console.log] lines of the stores and of the chain are left
    out; those of the loader are events of its run, because the console is
    where it writes that a page failed.  Embedding vectors are carried,
    never computed with. *)

From stdpp Require Import base option list gmap strings pretty.
From Stdlib Require Import Ascii ZArith Lia.

(** ** Errors

    The TypeScript code throws plain [Error] objects that differ by their
    message only (and one subclass, [OneNoteAPIError]).  Each constructor
    stands for the throw sites with that meaning. *)

Inductive LanceFailure :=
  | TableNotFound (name : string)
  | TableAlreadyExists (name : string)
  | FieldNotInSchema (field : string).

Inductive Error :=
  | NotInitializedError       (* search / searchWithScores / asRetriever on a store with no table *)
  | NotConfiguredError        (* createLLM, createOpenAI: the API key is missing *)
  | UnsupportedLLMError       (* createLLM: 'ollama' or an unknown type *)
  | OneNoteAPIError (status : nat)   (* request / getPageContent: response not ok *)
  | MarkupError               (* cheerio could not load the markup *)
  | EmbeddingProviderError    (* embedDocuments / embedQuery rejected *)
  | LanguageModelError        (* the chat model rejected *)
  | LanceDBError (f : LanceFailure)  (* rejected by @lancedb/lancedb *)
  | HNSWLibError              (* rejected by langchain's HNSWLib *)
  | TypeError                 (* member access on null *)
  | TemplateError.            (* PromptTemplate.fromTemplate: malformed template *)

(** What a collaborator answers. *)
Inductive Result (A : Type) :=
  | Ok (a : A)
  | Err (e : Error).
Arguments Ok {A} a.
Arguments Err {A} e.

(** What a method call does: return, throw, or never come back (a loop that
    is still running when its fuel is used up). *)
Inductive Outcome (A : Type) :=
  | Return (a : A)
  | Throw (e : Error)
  | Diverge.
Arguments Return {A} a.
Arguments Throw {A} e.
Arguments Diverge {A}.

(** ** Data *)

(** [number[]]: the store only carries embeddings around. *)
Definition Vector := list Z.

(** [Record<string, any>], values rendered as text. *)
Definition Metadata := list (string * string).

(** langchain's [Document]; [metadata] may be absent. *)
Record Document := mkDocument {
  pageContent : string;
  metadata : option Metadata;
}.

Record VectorRecord := mkVectorRecord {
  id : string;
  text : string;
  vector : option Vector;      (* [vectors[j]], undefined past the end *)
  rmetadata : Metadata;
}.

Record CollectionStats := mkCollectionStats {
  collectionName : string;
  documentCount : Z;
  persistDirectory : string;
}.

(** The [Embeddings] interface.  The first argument is the number of calls
    the provider has already served: a provider may answer the same texts
    differently at different times.  [None] is a rejected promise. *)
Record Embeddings := mkEmbeddings {
  embedDocuments_of : nat -> list string -> option (list Vector);
  embedQuery_of : nat -> string -> option Vector;
}.

(** ** settings.ts (the fields the modelled classes read) *)

Record OpenAIConfig := mkOpenAIConfig {
  apiKey : string;
  modelName : string;
  embeddingModel : string;
}.

Record VectorStoreConfig := mkVectorStoreConfig {
  vs_persistDirectory : string;
  vs_collectionName : string;
}.

Record AppConfig := mkAppConfig {
  chunkSize : nat;
  chunkOverlap : nat;
  retrievalK : nat;
}.

Record Settings := mkSettings {
  openai : OpenAIConfig;
  vectorstore : VectorStoreConfig;
  app : AppConfig;
}.

Definition default_persistDirectory (st : Settings) : string :=
  vs_persistDirectory (vectorstore st).
Definition default_collectionName (st : Settings) : string :=
  vs_collectionName (vectorstore st).

Definition default_modelName (st : Settings) : string := modelName (openai st).

(** JavaScript [a || b] on strings and on counts: the empty string, an
    omitted argument and 0 are falsy. *)
Definition or_string (a : option string) (b : string) : string :=
  match a with
  | Some s => if decide (s = ""%string) then b else s
  | None => b
  end.

Definition or_number (a : option nat) (b : nat) : nat :=
  match a with
  | Some (S n) => S n
  | Some 0 | None => b
  end.

(** [arr.slice(from, to)] for indices that are counts. *)
Definition slice {A} (l : list A) (from to : nat) : list A :=
  take (to - from) (drop from l).

(** ** The world outside the objects *)

(** What langchain's HNSWLib keeps in memory: the documents with their
    vectors, and the provider it embeds with. *)
Record HNSWLib := mkHNSWLib {
  hnsw_embeddings : Embeddings;
  hnsw_entries : list (Document * Vector);
}.

(** A directory written by [HNSWLib.save]: whether args.json is there, and
    the index if it can be read back. *)
Record StoreDir := mkStoreDir {
  has_args_json : bool;
  saved_index : option HNSWLib;
}.

Record World := mkWorld {
  settings : Settings;
  (* LanceDB: the tables under each database directory, by (directory, name) *)
  tables : gmap (string * string) (list VectorRecord);
  (* LanceDB's nearest-neighbour ranking of the rows of a table *)
  rank : Vector -> list VectorRecord -> list (VectorRecord * Z);
  (* HNSWLib's ranking of its entries, with scores *)
  hnsw_rank : Vector -> list (Document * Vector) -> list (Document * Z);
  (* the file system: directories by path *)
  files : gmap string StoreDir;
  (* the texts of every embedDocuments call so far, oldest first *)
  embedCalls : list (list string);
  (* the text of every embedQuery call so far, oldest first *)
  queryCalls : list string;
  (* what Date.now() and Math.random() make of the n-th generated id *)
  idSupply : nat -> string;
  generated : nat;
  (* the chat model: its answer to a prompt ([None]: rejected), and the
     prompts it was sent *)
  complete : string -> option string;
  llmCalls : list string;
  (* langchain's question-answering prompt: context and question to prompt *)
  qa_prompt : string -> string -> string;
}.

Definition set_tables (f : gmap (string * string) (list VectorRecord) ->
                           gmap (string * string) (list VectorRecord)) (w : World) : World :=
  mkWorld (settings w) (f (tables w)) (rank w) (hnsw_rank w) (files w) (embedCalls w)
          (queryCalls w) (idSupply w) (generated w) (complete w) (llmCalls w) (qa_prompt w).

Definition set_files (f : gmap string StoreDir -> gmap string StoreDir) (w : World) : World :=
  mkWorld (settings w) (tables w) (rank w) (hnsw_rank w) (f (files w)) (embedCalls w)
          (queryCalls w) (idSupply w) (generated w) (complete w) (llmCalls w) (qa_prompt w).

Definition log_embedCall (texts : list string) (w : World) : World :=
  mkWorld (settings w) (tables w) (rank w) (hnsw_rank w) (files w) (embedCalls w ++ [texts])
          (queryCalls w) (idSupply w) (generated w) (complete w) (llmCalls w) (qa_prompt w).

Definition log_queryCall (q : string) (w : World) : World :=
  mkWorld (settings w) (tables w) (rank w) (hnsw_rank w) (files w) (embedCalls w)
          (queryCalls w ++ [q]) (idSupply w) (generated w) (complete w) (llmCalls w) (qa_prompt w).

Definition tick_generated (w : World) : World :=
  mkWorld (settings w) (tables w) (rank w) (hnsw_rank w) (files w) (embedCalls w)
          (queryCalls w) (idSupply w) (S (generated w)) (complete w) (llmCalls w) (qa_prompt w).

Definition log_llmCall (p : string) (w : World) : World :=
  mkWorld (settings w) (tables w) (rank w) (hnsw_rank w) (files w) (embedCalls w)
          (queryCalls w) (idSupply w) (generated w) (complete w) (llmCalls w ++ [p]) (qa_prompt w).

(** ** The monad of method bodies *)

Definition M (S A : Type) : Type := S -> World -> Outcome A * S * World.

Definition ret {S A} (a : A) : M S A := fun s w => (Return a, s, w).

Definition bind {S A B} (m : M S A) (k : A -> M S B) : M S B :=
  fun s w =>
    match m s w with
    | (Return a, s', w') => k a s' w'
    | (Throw e, s', w') => (Throw e, s', w')
    | (Diverge, s', w') => (Diverge, s', w')
    end.

Definition throw {S A} (e : Error) : M S A := fun s w => (Throw e, s, w).
Definition diverge {S A} : M S A := fun s w => (Diverge, s, w).

(** [try { m } catch (error) { h error }] *)
Definition try_catch {S A} (m : M S A) (h : Error -> M S A) : M S A :=
  fun s w =>
    match m s w with
    | (Throw e, s', w') => h e s' w'
    | r => r
    end.

Definition this {S} : M S S := fun s w => (Return s, s, w).
Definition assign {S} (f : S -> S) : M S unit := fun s w => (Return tt, f s, w).
Definition world {S} : M S World := fun s w => (Return w, s, w).
Definition effect {S} (f : World -> World) : M S unit := fun s w => (Return tt, s, f w).

(** An awaited promise of a collaborator; [e] is what a rejection throws. *)
Definition await {S A} (e : Error) (r : option A) : M S A :=
  match r with
  | Some a => ret a
  | None => throw e
  end.

#[export] Instance M_ret {S} : MRet (M S) := fun A a => ret a.
#[export] Instance M_bind {S} : MBind (M S) := fun A B k m => bind m k.

(** The two projections of a finished call. *)
Definition outcome {A S} (r : Outcome A * S * World) : Outcome A := r.1.1.
Definition object {A S} (r : Outcome A * S * World) : S := r.1.2.
Definition after {A S} (r : Outcome A * S * World) : World := r.2.

(** ** The embedding provider, as the stores call it *)

Definition embedDocuments {S} (e : Embeddings) (texts : list string) : M S (list Vector) :=
  w ← world;
  effect (log_embedCall texts) ;;
  await EmbeddingProviderError (embedDocuments_of e (length (embedCalls w)) texts).

Definition embedQuery {S} (e : Embeddings) (q : string) : M S Vector :=
  w ← world;
  effect (log_queryCall q) ;;
  await EmbeddingProviderError (embedQuery_of e (length (queryCalls w)) q).

(** ** @lancedb/lancedb, as far as the store uses it

    A connection is the directory it was opened on.  A table handle is the
    connection, the table's name and the number of rows of the version of
    the table the handle has seen last: [countRows] answers from that
    version without looking at the disk, so it cannot fail, and it is out
    of date when somebody else has written to or dropped the table since.
    [createTable] (default mode) rejects a name that is taken; [openTable],
    [add], the search and [dropTable] reject a name that is not there.

    A table has a schema, fixed when it is created from its first rows: the
    metadata fields of the table are those of its rows, and [add] rejects
    rows with a metadata field the table does not have, writing nothing. *)
Module lancedb.

Record Connection := mkConnection { uri : string }.
Record Table := mkTable { conn : Connection; name : string; seen : nat }.

Definition key (c : Connection) (n : string) : string * string := (uri c, n).

Definition connect {S} (dir : string) : M S Connection := ret (mkConnection dir).

Definition tableNames {S} (c : Connection) : M S (list string) :=
  w ← world;
  ret (omap (fun kv : (string * string) * list VectorRecord =>
               if decide (kv.1.1 = uri c) then Some kv.1.2 else None)
            (map_to_list (tables w))).

(** The rows on disk of the table [n]. *)
Definition rows_of {S} (c : Connection) (n : string) : M S (list VectorRecord) :=
  w ← world;
  match tables w !! key c n with
  | Some rs => ret rs
  | None => throw (LanceDBError (TableNotFound n))
  end.

Definition rows {S} (t : Table) : M S (list VectorRecord) := rows_of (conn t) (name t).

Definition openTable {S} (c : Connection) (n : string) : M S Table :=
  rs ← rows_of c n;
  ret (mkTable c n (length rs)).

Definition countRows {S} (t : Table) : M S nat := ret (seen t).

Definition createTable {S} (c : Connection) (n : string) (data : list VectorRecord) : M S Table :=
  w ← world;
  match tables w !! key c n with
  | Some _ => throw (LanceDBError (TableAlreadyExists n))
  | None =>
      effect (set_tables (insert (key c n) data)) ;;
      ret (mkTable c n (length data))
  end.

(** The metadata fields of rows. *)
Definition fields (rs : list VectorRecord) : list string :=
  concat (map (fun r => (rmetadata r).*1) rs).

(** The metadata fields of [data] that a table with rows [rs] does not have. *)
Definition unknown_fields (rs data : list VectorRecord) : list string :=
  filter (fun field => field ∉ fields rs) (fields data).

(** [table.add(data)]: the handle it was called on then is at the new
    version; it is returned here. *)
Definition add {S} (t : Table) (data : list VectorRecord) : M S Table :=
  rs ← rows t;
  match unknown_fields rs data with
  | field :: _ => throw (LanceDBError (FieldNotInSchema field))
  | [] =>
      effect (set_tables (insert (key (conn t) (name t)) (rs ++ data))) ;;
      ret (mkTable (conn t) (name t) (length (rs ++ data)))
  end.

Definition dropTable {S} (c : Connection) (n : string) : M S unit :=
  w ← world;
  match tables w !! key c n with
  | Some _ => effect (set_tables (delete (key c n)))
  | None => throw (LanceDBError (TableNotFound n))
  end.

(** [table.vectorSearch(q).limit(n).toArray()] *)
Definition vectorSearch_limit {S} (t : Table) (q : Vector) (n : nat)
  : M S (list (VectorRecord * Z)) :=
  rs ← rows t;
  w ← world;
  ret (take n (rank w q rs)).

End lancedb.

(** ** class LanceDBStore *)
Module LanceDBStore.

Record t := mk {
  db : option lancedb.Connection;
  table : option lancedb.Table;
  embeddings : Embeddings;
  persistDirectory : string;
  tableName : string;
}.

Definition set_db (c : option lancedb.Connection) (s : t) : t :=
  mk c (table s) (embeddings s) (persistDirectory s) (tableName s).
Definition set_table (tb : option lancedb.Table) (s : t) : t :=
  mk (db s) tb (embeddings s) (persistDirectory s) (tableName s).

(** [new LanceDBStore(persistDirectory?, tableName?, embeddings)], with the
    provider given.  Without one the constructor asks [getEmbeddings()],
    and it makes the directory when it is missing: both are written where a
    store is made without a provider ([getVectorStore]).  A database
    directory without tables is the same as none in [tables]. *)
Definition new (st : Settings) (dir name : option string) (e : Embeddings) : t :=
  mk None None e
     (or_string dir (default_persistDirectory st))
     (or_string name (default_collectionName st)).

Definition initialize : M t unit :=
  s ← this;
  c ← lancedb.connect (persistDirectory s);
  assign (set_db (Some c)) ;;
  tableNames ← lancedb.tableNames c;
  if bool_decide (tableName s ∈ tableNames) then
    tb ← lancedb.openTable c (tableName s);
    assign (set_table (Some tb)) ;;
    _count ← lancedb.countRows tb;
    ret tt
  else
    ret tt.

Definition generateId : M t string :=
  w ← world;
  effect tick_generated ;;
  ret (idSupply w (generated w)).

(** The inner loop: [for (let j = 0; j < batch.length; j++) records.push(..)].
    [rest] is [batch] from index [j] on. *)
Fixpoint pushRecords (rest : list Document) (j : nat) (vectors : list Vector)
         (records : list VectorRecord) : M t (list VectorRecord) :=
  match rest with
  | [] => ret records
  | d :: rest' =>
      i ← generateId;
      pushRecords rest' (S j) vectors
        (records ++ [mkVectorRecord i (pageContent d) (vectors !! j)
                                    (default [] (metadata d))])
  end.

(** The outer loop: [for (let i = 0; i < documents.length; i += batchSize)].
    One unit of fuel per iteration. *)
Fixpoint embedLoop (fuel : nat) (documents : list Document) (batchSize i : nat)
         (records : list VectorRecord) : M t (list VectorRecord) :=
  if decide (i < length documents) then
    match fuel with
    | 0 => diverge
    | S fuel' =>
        let batch := slice documents i (i + batchSize) in
        let texts := map pageContent batch in
        s ← this;
        vectors ← embedDocuments (embeddings s) texts;
        records' ← pushRecords batch 0 vectors records;
        embedLoop fuel' documents batchSize (i + batchSize) records'
    end
  else ret records.

(** [addDocuments(documents, batchSize = 50)].  With [batchSize >= 1] the
    loop runs at most [documents.length] times, so that much fuel is
    enough; with [batchSize = 0] it never ends. *)
Definition addDocuments (documents : list Document) (batchSize : nat) : M t unit :=
  if decide (length documents = 0) then ret tt
  else
    s ← this;
    (if db s is None then initialize else ret tt) ;;
    records ← embedLoop (length documents) documents batchSize 0 [];
    s ← this;
    match table s with
    | None =>
        match db s with
        | Some c =>
            tb ← lancedb.createTable c (tableName s) records;
            assign (set_table (Some tb))
        | None => throw TypeError
        end
    | Some tb =>
        tb' ← lancedb.add tb records;
        assign (set_table (Some tb'))
    end.

Definition toDocument (row : VectorRecord) : Document :=
  mkDocument (text row) (Some (rmetadata row)).

Definition search (query : string) (k : option nat) : M t (list Document) :=
  s ← this;
  match table s with
  | None => throw NotInitializedError
  | Some tb =>
      w ← world;
      let numResults := or_number k (retrievalK (app (settings w))) in
      queryVector ← embedQuery (embeddings s) query;
      results ← lancedb.vectorSearch_limit tb queryVector numResults;
      ret (map (fun r => toDocument r.1) results)
  end.

Definition searchWithScores (query : string) (k : option nat) : M t (list (Document * Z)) :=
  s ← this;
  match table s with
  | None => throw NotInitializedError
  | Some tb =>
      w ← world;
      let numResults := or_number k (retrievalK (app (settings w))) in
      queryVector ← embedQuery (embeddings s) query;
      results ← lancedb.vectorSearch_limit tb queryVector numResults;
      ret (map (fun r => (toDocument r.1, r.2)) results)
  end.

Definition getCollectionStats : M t CollectionStats :=
  s ← this;
  documentCount ← match table s with
                  | Some tb => lancedb.countRows tb
                  | None => ret 0
                  end;
  ret (mkCollectionStats (tableName s) (Z.of_nat documentCount) (persistDirectory s)).

Definition deleteCollection : M t unit :=
  s ← this;
  match db s with
  | Some c =>
      lancedb.dropTable c (tableName s) ;;
      assign (set_table None)
  | None => ret tt
  end.

Definition isReady (s : t) : bool :=
  if table s is None then false else true.

End LanceDBStore.

(** ** Paths and directories (node's [path] and [fs], POSIX)

    [files] records directories under the paths by which they were made.
    A path names the directory its segments lead to: [a/./b/], [a//b] and
    [a/c/../b] are [a/b]. *)

(** [p.split('/')] *)
Fixpoint split_path (p : string) : list string :=
  match p with
  | EmptyString => [EmptyString]
  | String c p' =>
      match split_path p' with
      | seg :: segs =>
          if decide (c = "/"%char) then EmptyString :: seg :: segs
          else String c seg :: segs
      | [] => [String c EmptyString]
      end
  end.

(** [normalizeString]: empty segments and [.] are dropped, [..] takes the
    segment before it away; at the start, [..] stays in a relative path
    ([allowAboveRoot]) and is dropped in an absolute one.  [stack] holds
    the segments kept so far, the last one first. *)
Fixpoint resolve (allowAboveRoot : bool) (stack segs : list string) : list string :=
  match segs with
  | [] => reverse stack
  | seg :: rest =>
      if decide (seg = ""%string ∨ seg = "."%string) then resolve allowAboveRoot stack rest
      else if decide (seg = ".."%string) then
        match stack with
        | top :: stack' =>
            if decide (top = ".."%string) then resolve allowAboveRoot (seg :: stack) rest
            else resolve allowAboveRoot stack' rest
        | [] =>
            if allowAboveRoot then resolve allowAboveRoot [seg] rest
            else resolve allowAboveRoot [] rest
        end
      else resolve allowAboveRoot (seg :: stack) rest
  end.

Definition isAbsolute (p : string) : bool :=
  if p is String c _ then bool_decide (c = "/"%char) else false.

Definition trailingSeparator (p : string) : bool :=
  if last (String.list_ascii_of_string p) is Some c then bool_decide (c = "/"%char) else false.

(** The segments a path leads through. *)
Definition segments (p : string) : list string :=
  resolve (negb (isAbsolute p)) [] (split_path p).

(** [path.normalize(p)] *)
Definition normalize (p : string) : string :=
  if decide (p = ""%string) then "."%string
  else
    let path := String.concat "/" (segments p) in
    if decide (path = ""%string) then
      if isAbsolute p then "/"%string
      else if trailingSeparator p then "./"%string else "."%string
    else
      ((if isAbsolute p then "/" else "") +:+ path
       +:+ (if trailingSeparator p then "/" else ""))%string.

(** [path.join(a, b)] *)
Definition path_join (a b : string) : string :=
  let joined :=
    if decide (a = ""%string) then b
    else if decide (b = ""%string) then a
    else (a +:+ "/" +:+ b)%string in
  if decide (joined = ""%string) then "."%string else normalize joined.

(** [p] is the directory [root] or lies under it. *)
Definition under (root p : string) : Prop :=
  isAbsolute root = isAbsolute p ∧ segments root `prefix_of` segments p.

#[export] Instance under_dec root p : Decision (under root p).
Proof. unfold under. apply _. Defined.

(** [fs.existsSync(p)]: a directory is there when it, or something under
    it, is recorded. *)
Definition existsSync (fs : gmap string StoreDir) (p : string) : bool :=
  bool_decide (filter (fun kv : string * StoreDir => under p kv.1) fs ≠ ∅).

(** [fs.mkdirSync(p, { recursive: true })]: an empty directory, unless
    there is one. *)
Definition mkdirSync (p : string) (fs : gmap string StoreDir) : gmap string StoreDir :=
  if existsSync fs p then fs else <[p := mkStoreDir false None]> fs.

(** [fs.rmSync(p, { recursive: true, force: true })]: the directory and
    everything under it. *)
Definition rmSync (p : string) (fs : gmap string StoreDir) : gmap string StoreDir :=
  filter (fun kv : string * StoreDir => ¬ under p kv.1) fs.

(** ** langchain's HNSWLib vector store, as far as the store uses it

    [addVectors] returns at once for no vectors, rejects vectors and
    documents of different lengths, and appends otherwise (the check of the
    dimension is left out: the model does not fix one).  An index without
    entries is one that was never initialised: [save] makes the directory
    and then throws for it, so a saved index has entries. *)
Module hnswlib.

Definition addVectors {S} (vectors : list Vector) (documents : list Document)
           (h : HNSWLib) : M S HNSWLib :=
  if decide (length vectors = 0) then ret h
  else if decide (length vectors = length documents) then
    ret (mkHNSWLib (hnsw_embeddings h) (hnsw_entries h ++ zip documents vectors))
  else throw HNSWLibError.

Definition addDocuments {S} (documents : list Document) (h : HNSWLib) : M S HNSWLib :=
  vectors ← embedDocuments (hnsw_embeddings h) (map pageContent documents);
  addVectors vectors documents h.

Definition fromDocuments {S} (documents : list Document) (e : Embeddings) : M S HNSWLib :=
  addDocuments documents (mkHNSWLib e []).

Definition save {S} (directory : string) (h : HNSWLib) : M S unit :=
  effect (set_files (mkdirSync directory)) ;;
  if decide (hnsw_entries h = []) then throw HNSWLibError
  else effect (set_files (insert directory (mkStoreDir true (Some h)))).

Definition load {S} (directory : string) (e : Embeddings) : M S HNSWLib :=
  w ← world;
  match files w !! directory with
  | Some (mkStoreDir _ (Some h)) => ret (mkHNSWLib e (hnsw_entries h))
  | _ => throw HNSWLibError
  end.

Definition similaritySearchWithScore {S} (h : HNSWLib) (query : string) (k : nat)
  : M S (list (Document * Z)) :=
  queryVector ← embedQuery (hnsw_embeddings h) query;
  w ← world;
  ret (take k (hnsw_rank w queryVector (hnsw_entries h))).

Definition similaritySearch {S} (h : HNSWLib) (query : string) (k : nat)
  : M S (list Document) :=
  results ← similaritySearchWithScore h query k;
  ret (results.*1).

(** [VectorStoreRetriever]: the index it was made from and its width. *)
Record Retriever := mkRetriever { r_index : HNSWLib; r_k : nat }.

Definition getRelevantDocuments {S} (r : Retriever) (query : string) : M S (list Document) :=
  similaritySearch (r_index r) query (r_k r).

End hnswlib.

(** ** class HNSWLibStore *)
Module HNSWLibStore.

Record t := mk {
  vectorstore : option HNSWLib;
  embeddings : Embeddings;
  persistDirectory : string;
  collectionName : string;
}.

Definition set_vectorstore (v : option HNSWLib) (s : t) : t :=
  mk v (embeddings s) (persistDirectory s) (collectionName s).

Definition new (st : Settings) (dir name : option string) (e : Embeddings) : t :=
  mk None e
     (or_string dir (default_persistDirectory st))
     (or_string name (default_collectionName st)).

Definition getStorePath (s : t) : string :=
  path_join (persistDirectory s) (collectionName s).

(** [fs.existsSync(storePath) && fs.existsSync(path.join(storePath, 'args.json'))] *)
Definition storeExists : M t bool :=
  s ← this;
  w ← world;
  ret (match files w !! getStorePath s with
       | Some d => has_args_json d
       | None => false
       end).

Definition initialize : M t unit :=
  s ← this;
  let storePath := getStorePath s in
  b ← storeExists;
  if (b : bool) then
    try_catch
      (h ← hnswlib.load storePath (embeddings s);
       assign (set_vectorstore (Some h)))
      (fun _error => assign (set_vectorstore None))
  else ret tt.

Definition save : M t unit :=
  s ← this;
  match vectorstore s with
  | Some h => hnswlib.save (getStorePath s) h
  | None => ret tt
  end.

(** [for (let i = 0; i < documents.length; i += batchSize)] over an
    existing index; each batch is added to the index in memory. *)
Fixpoint batchLoop (fuel : nat) (documents : list Document) (batchSize i : nat) : M t unit :=
  if decide (i < length documents) then
    match fuel with
    | 0 => diverge
    | S fuel' =>
        let batch := slice documents i (i + batchSize) in
        s ← this;
        match vectorstore s with
        | Some h =>
            h' ← hnswlib.addDocuments batch h;
            assign (set_vectorstore (Some h')) ;;
            batchLoop fuel' documents batchSize (i + batchSize)
        | None => throw TypeError
        end
    end
  else ret tt.

(** [addDocuments(documents, batchSize = 100)] *)
Definition addDocuments (documents : list Document) (batchSize : nat) : M t unit :=
  if decide (length documents = 0) then ret tt
  else
    s ← this;
    match vectorstore s with
    | None =>
        h ← hnswlib.fromDocuments documents (embeddings s);
        assign (set_vectorstore (Some h))
    | Some _ => batchLoop (length documents) documents batchSize 0
    end ;;
    save.

Definition search (query : string) (k : option nat) : M t (list Document) :=
  s ← this;
  match vectorstore s with
  | None => throw NotInitializedError
  | Some h =>
      w ← world;
      let numResults := or_number k (retrievalK (app (settings w))) in
      hnswlib.similaritySearch h query numResults
  end.

Definition searchWithScores (query : string) (k : option nat) : M t (list (Document * Z)) :=
  s ← this;
  match vectorstore s with
  | None => throw NotInitializedError
  | Some h =>
      w ← world;
      let numResults := or_number k (retrievalK (app (settings w))) in
      hnswlib.similaritySearchWithScore h query numResults
  end.

Definition asRetriever (k : option nat) : M t hnswlib.Retriever :=
  s ← this;
  match vectorstore s with
  | None => throw NotInitializedError
  | Some h =>
      w ← world;
      ret (hnswlib.mkRetriever h (or_number k (retrievalK (app (settings w)))))
  end.

(** Not async in the source: it cannot throw.  [-1] stands for an unknown
    count. *)
Definition getCollectionStats (s : t) : CollectionStats :=
  let documentCount := if vectorstore s is Some _ then (-1)%Z else 0%Z in
  mkCollectionStats (collectionName s) documentCount (persistDirectory s).

Definition deleteCollection : M t unit :=
  s ← this;
  let storePath := getStorePath s in
  w ← world;
  (if existsSync (files w) storePath
   then effect (set_files (rmSync storePath))
   else ret tt) ;;
  assign (set_vectorstore None).

Definition isReady (s : t) : bool :=
  if vectorstore s is None then false else true.

End HNSWLibStore.

(** ** JavaScript strings

    A string is held as the bytes of its UTF-8 text.  JavaScript counts
    and cuts UTF-16 code units: a character of one, two or three bytes is
    one unit, a character of four bytes is two (a surrogate pair), and a
    continuation byte belongs to the character before it. *)

Definition utf16_units (c : ascii) : nat :=
  let n := nat_of_ascii c in
  if decide (n < 128) then 1          (* 0xxxxxxx *)
  else if decide (n < 192) then 0     (* 10xxxxxx: a continuation byte *)
  else if decide (n < 240) then 1     (* 110xxxxx, 1110xxxx *)
  else 2.                             (* 11110xxx *)

(** [s.length] *)
Fixpoint utf16_length_of (l : list ascii) : nat :=
  match l with
  | [] => 0
  | c :: l' => utf16_units c + utf16_length_of l'
  end.

Definition utf16_length (s : string) : nat :=
  utf16_length_of (String.list_ascii_of_string s).

(** The first half of the surrogate pair of the four-byte character that
    begins with [c] and goes on with [rest], as the three bytes that
    stand for a lone surrogate. *)
Definition high_surrogate (c : ascii) (rest : list ascii) : list ascii :=
  let byte (i : nat) := default 128%N (N_of_ascii <$> rest !! i) in
  let point := ((N_of_ascii c mod 8) * 262144 + (byte 0%nat mod 64) * 4096
                + (byte 1%nat mod 64) * 64 + byte 2%nat mod 64)%N in
  let high := (55296 + ((point - 65536) / 1024) mod 1024)%N in
  [ascii_of_N 237; ascii_of_N (128 + (high / 64) mod 64); ascii_of_N (128 + high mod 64)].

(** [s.slice(0, n)]: the first [n] code units; a cut inside a surrogate
    pair leaves its first half. *)
Fixpoint utf16_take (n : nat) (l : list ascii) : list ascii :=
  match l with
  | [] => []
  | c :: l' =>
      match utf16_units c, n with
      | 0, _ => c :: utf16_take n l'
      | _, 0 => []
      | 1, S m => c :: utf16_take m l'
      | _, 1 => high_surrogate c l'
      | _, S (S m) => c :: utf16_take m l'
      end
  end.

Definition js_slice (s : string) (n : nat) : string :=
  String.string_of_list_ascii (utf16_take n (String.list_ascii_of_string s)).

(** ** langchain's f-string templates

    [{{] and [}}] stand for braces and [{name}] for a variable; an unclosed
    [{] and a single [}] are errors.  [in_variable] says that a [{] is
    open. *)
Fixpoint fstring_ok (in_variable : bool) (l : list ascii) : bool :=
  match l with
  | [] => negb in_variable
  | c :: l' =>
      if in_variable then
        if decide (c = "}"%char) then fstring_ok false l' else fstring_ok true l'
      else if decide (c = "{"%char) then
        match l' with
        | c' :: l'' => if decide (c' = "{"%char) then fstring_ok false l'' else fstring_ok true l'
        | [] => false
        end
      else if decide (c = "}"%char) then
        match l' with
        | c' :: l'' => if decide (c' = "}"%char) then fstring_ok false l'' else false
        | [] => false
        end
      else fstring_ok false l'
  end.

(** ** class QAChain (qa-chain.ts) *)
Module QAChain.

(** ['openai' | 'ollama'] by its type; the command line passes any text. *)
Inductive LLMType :=
  | openai_llm
  | ollama_llm
  | other_llm (name : string).

Record ChatOpenAI := mkChatOpenAI {
  openAIApiKey : string;
  chat_modelName : string;
  temperature : Z;          (* carried to the provider, never computed with *)
}.

(** langchain's [RetrievalQAChain.fromLLM(llm, retriever, ..)] *)
Record RetrievalQAChain := mkRetrievalQAChain {
  chain_llm : ChatOpenAI;
  chain_retriever : hnswlib.Retriever;
}.

Record QASource := mkQASource {
  content : string;
  source_metadata : option Metadata;
}.

Record QAResult := mkQAResult {
  question : string;
  answer : string;
  sources : option (list QASource);
}.

Record t := mk {
  vectorstore : HNSWLibStore.t;
  llm : ChatOpenAI;
  prompt : string;
  chain : option RetrievalQAChain;
}.

Definition set_vectorstore (v : HNSWLibStore.t) (s : t) : t :=
  mk v (llm s) (prompt s) (chain s).
Definition set_chain (c : option RetrievalQAChain) (s : t) : t :=
  mk (vectorstore s) (llm s) (prompt s) c.

(** [DEFAULT_QA_TEMPLATE] (the chain built by [initialize] does not read
    [prompt]). *)
Definition DEFAULT_QA_TEMPLATE : string :=
  "你是一个基于 OneNote 笔记的智能助手。请根据以下检索到的笔记内容回答用户的问题。

如果检索到的内容无法回答问题，请诚实地说"
  +:+ String (ascii_of_nat 34) "根据我的笔记，我无法找到相关信息"
  +:+ String (ascii_of_nat 34) "。

检索到的笔记内容：
{context}

用户问题：{question}

请用中文回答：".

Definition createLLM (st : Settings) (llmType : LLMType) (modelName : option string)
           (temperature : Z) : Result ChatOpenAI :=
  match llmType with
  | openai_llm =>
      let apiKey := apiKey (openai st) in
      if decide (apiKey = ""%string) then Err NotConfiguredError
      else Ok (mkChatOpenAI apiKey (or_string modelName (default_modelName st)) temperature)
  | ollama_llm => Err UnsupportedLLMError
  | other_llm _ => Err UnsupportedLLMError
  end.

(** [PromptTemplate.fromTemplate(template)]: the template, when it can be
    parsed. *)
Definition fromTemplate (template : string) : Result string :=
  if fstring_ok false (String.list_ascii_of_string template) then Ok template
  else Err TemplateError.

(** [new QAChain(vectorstore, llmType = 'openai', modelName?, temperature = 0,
    promptTemplate?)]: the constructor itself calls [createLLM], and then
    parses the template. *)
Definition new (st : Settings) (vectorstore : HNSWLibStore.t) (llmType : LLMType)
           (modelName : option string) (temperature : Z)
           (promptTemplate : option string) : Result t :=
  match createLLM st llmType modelName temperature with
  | Ok llm =>
      match fromTemplate (or_string promptTemplate DEFAULT_QA_TEMPLATE) with
      | Ok prompt => Ok (mk vectorstore llm prompt None)
      | Err e => Err e
      end
  | Err e => Err e
  end.

(** A method of the store, called through the field [vectorstore].  The
    source holds the store by reference; here the chain carries it. *)
Definition on_vectorstore {A} (m : M HNSWLibStore.t A) : M t A :=
  fun s w =>
    match m (vectorstore s) w with
    | (r, v', w') => (r, set_vectorstore v' s, w')
    end.

Definition initialize : M t unit :=
  retriever ← on_vectorstore (HNSWLibStore.asRetriever None);
  s ← this;
  assign (set_chain (Some (mkRetrievalQAChain (llm s) retriever))).

Definition ensureInitialized : M t RetrievalQAChain :=
  s ← this;
  (if chain s is None then initialize else ret tt) ;;
  s ← this;
  match chain s with
  | Some c => ret c
  | None => throw TypeError
  end.

(** langchain's [chain.invoke({ question })]: retrieve, fill the prompt
    with the retrieved texts, ask the model once. *)
Definition invoke (c : RetrievalQAChain) (question : string)
  : M t (string * list Document) :=
  docs ← hnswlib.getRelevantDocuments (chain_retriever c) question;
  w ← world;
  let p := qa_prompt w (String.concat (String "010"%char (String "010"%char EmptyString))
                                      (map pageContent docs)) question in
  effect (log_llmCall p) ;;
  text ← await LanguageModelError (complete w p);
  ret (text, docs).

Definition excerpt (doc : Document) : QASource :=
  mkQASource
    (if decide (200 < utf16_length (pageContent doc))
     then js_slice (pageContent doc) 200 +:+ "..."%string
     else pageContent doc)
    (metadata doc).

Definition ask (question : string) (returnSources : bool) : M t QAResult :=
  chain ← ensureInitialized;
  result ← invoke chain question;
  ret (mkQAResult question result.1
         (if returnSources then Some (map excerpt result.2) else None)).

Definition chat (question : string) : M t string :=
  result ← ask question false;
  ret (answer result).

End QAChain.

(** ** class OneNoteLoader (onenote-loader.ts) *)
Module OneNoteLoader.

Record Notebook := mkNotebook { nb_id : string; nb_displayName : string }.
Record Section := mkSection { sec_id : string; sec_displayName : string }.

Record PageInfo := mkPageInfo {
  pi_id : string;
  pi_title : string;                        (* empty when missing *)
  createdDateTime : option string;
  lastModifiedDateTime : option string;
  oneNoteWebUrl : option string;
}.

Record OneNotePage := mkOneNotePage {
  id : string;
  title : string;
  contentHtml : string;
  contentText : string;
  notebookName : string;
  sectionName : string;
  createdTime : option string;
  lastModifiedTime : option string;
  webUrl : option string;
}.

(** The Graph API behind [request] and [getPageContent] (authorization
    included), and cheerio's reading of a page: the text of the body
    without script, style, meta and link elements. *)
Record Graph := mkGraph {
  notebooks : Result (list Notebook);
  sections : string -> Result (list Section);
  pages : string -> Result (list PageInfo);
  content : string -> Result string;
  cheerio_text : string -> Result string;
}.

(** What a run of the generator shows, in order. *)
Inductive Event :=
  | Yield (page : OneNotePage)
  | LogNotebook (name : string)
  | LogSection (name : string)
  | LogPage (title : string)
  | LogPageFailed (title : string) (error : Error).   (* console.error *)

(** A generator body: the events so far and how the body ended. *)
Definition Gen (A : Type) : Type := list Event * Result A.

Definition gret {A} (a : A) : Gen A := ([], Ok a).
Definition gbind {A B} (m : Gen A) (k : A -> Gen B) : Gen B :=
  match m with
  | (tr, Ok a) => let (tr', r) := k a in (tr ++ tr', r)
  | (tr, Err e) => (tr, Err e)
  end.
#[export] Instance Gen_ret : MRet Gen := fun A a => gret a.
#[export] Instance Gen_bind : MBind Gen := fun A B k m => gbind m k.

Definition emit (e : Event) : Gen unit := ([e], Ok tt).
Definition gawait {A} (r : Result A) : Gen A := ([], r).

(** [try { m } catch (error) { h error }] *)
Definition gtry {A} (m : Gen A) (h : Error -> Gen A) : Gen A :=
  match m with
  | (tr, Err e) => let (tr', r) := h e in (tr ++ tr', r)
  | r => r
  end.

Definition listNotebooks (g : Graph) : Gen (list Notebook) := gawait (notebooks g).
Definition listSections (g : Graph) (notebookId : string) : Gen (list Section) :=
  gawait (sections g notebookId).
Definition listPages (g : Graph) (sectionId : string) : Gen (list PageInfo) :=
  gawait (pages g sectionId).
Definition getPageContent (g : Graph) (pageId : string) : Gen string :=
  gawait (content g pageId).

(** *** htmlToText: the whitespace clean-up after cheerio *)

Definition newline : ascii := "010"%char.

(** What [String.prototype.trim] removes: white space and line
    terminators, here by the bytes of their UTF-8 text.  Of one byte:
    tab, line feed, vertical tab, form feed, carriage return, space. *)
Definition is_white (c : ascii) : bool :=
  match nat_of_ascii c with
  | 9 | 10 | 11 | 12 | 13 | 32 => true
  | _ => false
  end.

(** Of two bytes: U+00A0 (no-break space). *)
Definition is_white2 (c1 c2 : ascii) : bool :=
  bool_decide (nat_of_ascii c1 = 194 ∧ nat_of_ascii c2 = 160).

(** Of three bytes: U+1680, U+2000 to U+200A, U+2028, U+2029, U+202F,
    U+205F, U+3000 and U+FEFF. *)
Definition is_white3 (c1 c2 c3 : ascii) : bool :=
  let '(b1, b2, b3) := (nat_of_ascii c1, nat_of_ascii c2, nat_of_ascii c3) in
  bool_decide
    ((b1 = 225 ∧ b2 = 154 ∧ b3 = 128)
     ∨ (b1 = 226 ∧ b2 = 128 ∧ (128 ≤ b3 ≤ 138 ∨ b3 = 168 ∨ b3 = 169 ∨ b3 = 175))
     ∨ (b1 = 226 ∧ b2 = 129 ∧ b3 = 159)
     ∨ (b1 = 227 ∧ b2 = 128 ∧ b3 = 128)
     ∨ (b1 = 239 ∧ b2 = 187 ∧ b3 = 191)).

(** The list without the white space it begins with; [w2] and [w3] say
    which two and three bytes are white space. *)
Fixpoint strip (w2 : ascii -> ascii -> bool) (w3 : ascii -> ascii -> ascii -> bool)
         (l : list ascii) : list ascii :=
  match l with
  | [] => []
  | c1 :: l1 =>
      if is_white c1 then strip w2 w3 l1
      else
        match l1 with
        | [] => l
        | c2 :: l2 =>
            if w2 c1 c2 then strip w2 w3 l2
            else
              match l2 with
              | [] => l
              | c3 :: l3 => if w3 c1 c2 c3 then strip w2 w3 l3 else l
              end
        end
  end.

(** [s.trimStart()] *)
Definition trim_start (l : list ascii) : list ascii := strip is_white2 is_white3 l.

(** [s.trimEnd()]: the same from the other end, where the bytes of a
    character come last byte first. *)
Definition trim_end (l : list ascii) : list ascii :=
  reverse (strip (fun c2 c1 => is_white2 c1 c2) (fun c3 c2 c1 => is_white3 c1 c2 c3)
                 (reverse l)).

(** [s.trim()] *)
Definition trim (l : list ascii) : list ascii := trim_end (trim_start l).

(** [text.split('\n')] *)
Fixpoint split_lines (l : list ascii) : list (list ascii) :=
  match l with
  | [] => [[]]
  | c :: l' =>
      match split_lines l' with
      | line :: lines =>
          if decide (c = newline) then [] :: line :: lines else (c :: line) :: lines
      | [] => [[c]]
      end
  end.

(** [lines.join('\n')] *)
Fixpoint join_lines (lines : list (list ascii)) : list ascii :=
  match lines with
  | [] => []
  | [line] => line
  | line :: rest => line ++ newline :: join_lines rest
  end.

(** [text.replace(/\n{3,}/g, '\n\n')]; [run] counts the newlines just read. *)
Fixpoint collapse_newlines (run : nat) (l : list ascii) : list ascii :=
  match l with
  | [] => []
  | c :: l' =>
      if decide (c = newline) then
        if decide (run < 2) then c :: collapse_newlines (S run) l'
        else collapse_newlines (S run) l'
      else c :: collapse_newlines 0 l'
  end.

Definition clean_text (text : string) : string :=
  let lines := split_lines (String.list_ascii_of_string text) in
  let kept := filter (fun line => line <> []) (map trim lines) in
  String.string_of_list_ascii (trim (collapse_newlines 0 (join_lines kept))).

Definition htmlToText (g : Graph) (htmlContent : string) : Gen string :=
  text ← gawait (cheerio_text g htmlContent);
  mret (clean_text text).

(** [new Date(s)] is kept as the text it was made from. *)
Definition parseDateTime (dtStr : option string) : option string :=
  match dtStr with
  | Some s => if decide (s = ""%string) then None else Some s
  | None => None
  end.

Definition untitled : string := "无标题".

Definition loadPage (g : Graph) (pageInfo : PageInfo) (notebookName sectionName : string)
  : Gen OneNotePage :=
  htmlContent ← getPageContent g (pi_id pageInfo);
  textContent ← htmlToText g htmlContent;
  mret (mkOneNotePage (pi_id pageInfo) (or_string (Some (pi_title pageInfo)) untitled)
          htmlContent textContent notebookName sectionName
          (parseDateTime (createdDateTime pageInfo))
          (parseDateTime (lastModifiedDateTime pageInfo))
          (oneNoteWebUrl pageInfo)).

(** [name && other !== name]: a filter that is given and does not match. *)
Definition filtered_out (filter : option string) (name : string) : bool :=
  match filter with
  | Some f => if decide (f = ""%string) then false else bool_decide (name <> f)
  | None => false
  end.

(** [for (const pageInfo of pages) { try { .. yield page } catch (error) { .. } }] *)
Fixpoint forPages (g : Graph) (nbName secName : string) (pages : list PageInfo) : Gen unit :=
  match pages with
  | [] => mret tt
  | pageInfo :: rest =>
      gtry
        (page ← loadPage g pageInfo nbName secName;
         emit (LogPage (title page)) ;;
         emit (Yield page))
        (fun error =>
           emit (LogPageFailed (or_string (Some (pi_title pageInfo)) "unknown") error)) ;;
      forPages g nbName secName rest
  end.

Fixpoint forSections (g : Graph) (sectionName : option string) (nbName : string)
         (sections : list Section) : Gen unit :=
  match sections with
  | [] => mret tt
  | section :: rest =>
      let secName := sec_displayName section in
      (if filtered_out sectionName secName then mret tt
       else
         emit (LogSection secName) ;;
         pages ← listPages g (sec_id section);
         forPages g nbName secName pages) ;;
      forSections g sectionName nbName rest
  end.

Fixpoint forNotebooks (g : Graph) (notebookName sectionName : option string)
         (notebooks : list Notebook) : Gen unit :=
  match notebooks with
  | [] => mret tt
  | notebook :: rest =>
      let nbName := nb_displayName notebook in
      (if filtered_out notebookName nbName then mret tt
       else
         emit (LogNotebook nbName) ;;
         sections ← listSections g (nb_id notebook);
         forSections g sectionName nbName sections) ;;
      forNotebooks g notebookName sectionName rest
  end.

(** [async *iterPages(notebookName?, sectionName?)], pulled to its end. *)
Definition iterPages (g : Graph) (notebookName sectionName : option string) : Gen unit :=
  notebooks ← listNotebooks g;
  forNotebooks g notebookName sectionName notebooks.

(** The pages a consumer receives. *)
Definition yielded (tr : list Event) : list OneNotePage :=
  omap (fun e => if e is Yield p then Some p else None) tr.

(** The failures written to the console. *)
Definition failures (tr : list Event) : list (string * Error) :=
  omap (fun e => if e is LogPageFailed t err then Some (t, err) else None) tr.

End OneNoteLoader.

(** * Specification-side definitions *)

(** ** Batches *)

(** ceil(n / b) *)
Definition ceil_div (n b : nat) : nat := (n + b - 1) / b.

(** The first [n] batches of at most [b] elements of [l]. *)
Fixpoint batches {A} (b n : nat) (l : list A) : list (list A) :=
  match n with
  | 0 => []
  | S n' => take b l :: batches b n' (drop b l)
  end.

(** The partition of [l] into batches of at most [b]. *)
Definition partition {A} (b : nat) (l : list A) : list (list A) :=
  batches b (ceil_div (length l) b) l.

(** ** The store and the disk agree

    What the operations of one LanceDBStore keep true when nothing else
    writes to its directory: a connection is to the store's directory, a
    table handle is to the store's table and that table is on disk, and a
    connected store without a handle has no table on disk. *)
Module Consistency.
Import LanceDBStore.

Definition connection (s : t) : lancedb.Connection :=
  lancedb.mkConnection (persistDirectory s).
Definition handle (s : t) (seen : nat) : lancedb.Table :=
  lancedb.mkTable (connection s) (tableName s) seen.
Definition table_key (s : t) : string * string :=
  (persistDirectory s, tableName s).

Definition consistent (s : t) (w : World) : Prop :=
  match db s, table s with
  | None, None => True
  | None, Some _ => False
  | Some c, None => c = connection s ∧ tables w !! table_key s = None
  | Some c, Some tb =>
      c = connection s ∧ tb = handle s (lancedb.seen tb)
      ∧ is_Some (tables w !! table_key s)
  end.

(** The calls a client can make, and the states they lead to. *)
Inductive Call :=
  | CallInitialize
  | CallAddDocuments (documents : list Document) (batchSize : nat)
  | CallSearch (query : string) (k : option nat)
  | CallSearchWithScores (query : string) (k : option nat)
  | CallGetCollectionStats
  | CallDeleteCollection.

Definition forget {A} (m : M t A) : M t unit := _ ← m; ret tt.

Definition run (c : Call) : M t unit :=
  match c with
  | CallInitialize => initialize
  | CallAddDocuments documents batchSize => addDocuments documents batchSize
  | CallSearch query k => forget (search query k)
  | CallSearchWithScores query k => forget (searchWithScores query k)
  | CallGetCollectionStats => forget getCollectionStats
  | CallDeleteCollection => deleteCollection
  end.

Inductive reachable : t -> World -> Prop :=
  | reach_new st dir name e w :
      reachable (new st dir name e) w
  | reach_call c s w :
      reachable s w ->
      reachable (object (run c s w)) (after (run c s w)).

End Consistency.

Import Consistency.

(** The store after initialize: connected, with the table opened when it
    is on disk. *)
Definition opened (s : LanceDBStore.t) (w : World) : LanceDBStore.t :=
  if tables w !! table_key s is Some rs
  then LanceDBStore.set_table (Some (handle s (length rs)))
         (LanceDBStore.set_db (Some (connection s)) s)
  else LanceDBStore.set_db (Some (connection s)) s.

(** The store after a successful addDocuments that left [n] rows. *)
Definition connected (s : LanceDBStore.t) (n : nat) : LanceDBStore.t :=
  LanceDBStore.set_table (Some (handle s n)) (LanceDBStore.set_db (Some (connection s)) s).

(** The handle of the store, if it has one, has seen the rows on disk. *)
Definition up_to_date (s : LanceDBStore.t) (w : World) : Prop :=
  match LanceDBStore.table s with
  | Some tb => length <$> tables w !! table_key s = Some (lancedb.seen tb)
  | None => True
  end.

(** ** Rows a table accepts *)

(** The metadata fields of a document. *)
Definition fields_of (d : Document) : list string := (default [] (metadata d)).*1.

(** The table of the store, when there is one, has every metadata field of
    the documents. *)
Definition accepted (s : LanceDBStore.t) (w : World) (documents : list Document) : Prop :=
  match tables w !! table_key s with
  | Some rs => Forall (fun d => fields_of d ⊆ lancedb.fields rs) documents
  | None => True
  end.

(** ** What embedding a list of batches leaves behind *)

(** The world after the provider has served [calls] more batch calls and
    [n] more ids have been generated. *)
Definition advance (calls : list (list string)) (n : nat) (w : World) : World :=
  mkWorld (settings w) (tables w) (rank w) (hnsw_rank w) (files w) (embedCalls w ++ calls)
          (queryCalls w) (idSupply w) (generated w + n) (complete w) (llmCalls w) (qa_prompt w).

(** Positional assignment inside one batch: the document at position
    [j + k] of the batch gets the vector at position [j + k] of the answer
    and the [g + k]-th id. *)
Fixpoint rows_from (ids : nat -> string) (g j : nat) (vectors : list Vector)
         (rest : list Document) : list VectorRecord :=
  match rest with
  | [] => []
  | d :: rest' =>
      mkVectorRecord (ids g) (pageContent d) (vectors !! j) (default [] (metadata d))
        :: rows_from ids (S g) (S j) vectors rest'
  end.

(** The rows expected from batches [bs], when the provider has served [c]
    calls before and [g] ids have been generated before. *)
Fixpoint expected_rows (e : Embeddings) (ids : nat -> string) (c g : nat)
         (bs : list (list Document)) : list VectorRecord :=
  match bs with
  | [] => []
  | b :: bs' =>
      rows_from ids g 0 (default [] (embedDocuments_of e c (map pageContent b))) b
        ++ expected_rows e ids (S c) (g + length b) bs'
  end.

(** ** The traversal, read off what the Graph API answers *)
Module Traversal.
Import OneNoteLoader.

(** What becomes of a listed page: the fetch of its content can fail, the
    conversion of the content can fail; otherwise the page is there. *)
Definition page_result (g : Graph) (nbName secName : string) (pageInfo : PageInfo)
  : Result OneNotePage :=
  match content g (pi_id pageInfo) with
  | Err e => Err e
  | Ok html =>
      match cheerio_text g html with
      | Err e => Err e
      | Ok text =>
          Ok (mkOneNotePage (pi_id pageInfo) (or_string (Some (pi_title pageInfo)) untitled)
                html (clean_text text) nbName secName
                (parseDateTime (createdDateTime pageInfo))
                (parseDateTime (lastModifiedDateTime pageInfo))
                (oneNoteWebUrl pageInfo))
      end
  end.

(** A page as the traversal comes to it. *)
Record Listed := mkListed {
  in_notebook : string;
  in_section : string;
  info : PageInfo;
}.

(** The pages of the selected sections, in order, when every listing on
    the way succeeds. *)
Fixpoint listed_in_sections (g : Graph) (sectionName : option string) (nbName : string)
         (sections : list Section) : Result (list Listed) :=
  match sections with
  | [] => Ok []
  | section :: rest =>
      if filtered_out sectionName (sec_displayName section)
      then listed_in_sections g sectionName nbName rest
      else
        match pages g (sec_id section), listed_in_sections g sectionName nbName rest with
        | Ok ps, Ok l => Ok (map (mkListed nbName (sec_displayName section)) ps ++ l)
        | Err e, _ => Err e
        | _, Err e => Err e
        end
  end.

Fixpoint listed_in_notebooks (g : Graph) (notebookName sectionName : option string)
         (notebooks : list Notebook) : Result (list Listed) :=
  match notebooks with
  | [] => Ok []
  | notebook :: rest =>
      if filtered_out notebookName (nb_displayName notebook)
      then listed_in_notebooks g notebookName sectionName rest
      else
        match sections g (nb_id notebook) with
        | Ok secs =>
            match listed_in_sections g sectionName (nb_displayName notebook) secs,
                  listed_in_notebooks g notebookName sectionName rest with
            | Ok l1, Ok l2 => Ok (l1 ++ l2)
            | Err e, _ => Err e
            | _, Err e => Err e
            end
        | Err e => Err e
        end
  end.

Definition listed (g : Graph) (notebookName sectionName : option string)
  : Result (list Listed) :=
  match notebooks g with
  | Ok nbs => listed_in_notebooks g notebookName sectionName nbs
  | Err e => Err e
  end.

(** The pages among [l] that load, and the failures of those that do not,
    each with the title the console line shows. *)
Definition loaded (g : Graph) (l : list Listed) : list OneNotePage :=
  omap (fun p => match page_result g (in_notebook p) (in_section p) (info p) with
                 | Ok page => Some page
                 | Err _ => None
                 end) l.

Definition failed (g : Graph) (l : list Listed) : list (string * Error) :=
  omap (fun p => match page_result g (in_notebook p) (in_section p) (info p) with
                 | Ok _ => None
                 | Err e => Some (or_string (Some (pi_title (info p))) "unknown", e)
                 end) l.

End Traversal.

(** ** Concrete collaborators for the end-to-end scenarios *)
Module Scenario.

Definition config : Settings :=
  mkSettings (mkOpenAIConfig "sk-test" "gpt-3.5-turbo" "text-embedding-ada-002")
             (mkVectorStoreConfig "./data/chroma_db" "onenote_collection")
             (mkAppConfig 1000 200 4).

(** A provider that embeds a text as its length. *)
Definition provider : Embeddings :=
  mkEmbeddings (fun _ texts => Some (map (fun t => [Z.of_nat (String.length t)]) texts))
               (fun _ q => Some [Z.of_nat (String.length q)]).

(** A provider that serves one batch call and rejects from the second on. *)
Definition failing_provider : Embeddings :=
  mkEmbeddings (fun n texts =>
                  if decide (n = 0)
                  then Some (map (fun t => [Z.of_nat (String.length t)]) texts)
                  else None)
               (fun _ q => Some [Z.of_nat (String.length q)]).

(** A provider that answers every batch with no vectors at all. *)
Definition silent_provider : Embeddings :=
  mkEmbeddings (fun _ _ => Some []) (fun _ _ => Some []).

(** An empty disk; rows and entries ranked in stored order. *)
Definition empty_world : World :=
  mkWorld config ∅
          (fun _ rows => map (fun r => (r, 0%Z)) rows)
          (fun _ entries => map (fun e => (e.1, 0%Z)) entries)
          ∅ [] [] (fun n => "doc_" +:+ pretty n) 0
          (fun p => Some p) []
          (fun context question => context +:+ question).

Definition chunk (i : nat) : Document :=
  mkDocument ("chunk " +:+ pretty i) None.

Definition chunks (n : nat) : list Document := map chunk (seq 0 n).


Definition lance_store : LanceDBStore.t := LanceDBStore.new config None None provider.
Definition failing_lance_store : LanceDBStore.t :=
  LanceDBStore.new config None None failing_provider.
Definition hnsw_store : HNSWLibStore.t := HNSWLibStore.new config None None provider.

(** The settings when OPENAI_API_KEY is not set. *)
Definition config_without_key : Settings :=
  mkSettings (mkOpenAIConfig "" "gpt-3.5-turbo" "text-embedding-ada-002")
             (vectorstore config) (app config).

(** One notebook with one section of three pages; the content of the
    second page cannot be fetched. *)
Definition graph : OneNoteLoader.Graph :=
  OneNoteLoader.mkGraph
    (Ok [OneNoteLoader.mkNotebook "nb-1" "Work"])
    (fun _ => Ok [OneNoteLoader.mkSection "sec-1" "Meetings"])
    (fun _ => Ok [OneNoteLoader.mkPageInfo "p1" "Monday" None None None;
                  OneNoteLoader.mkPageInfo "p2" "Tuesday" None None None;
                  OneNoteLoader.mkPageInfo "p3" "Wednesday" None None None])
    (fun pageId => if decide (pageId = "p2") then Err (OneNoteAPIError 500)
                   else Ok ("<html><body>" +:+ pageId +:+ "</body></html>"))
    (fun html => Ok html).

(** The same pages when the second is not listed at all. *)
Definition graph_without_second_page : OneNoteLoader.Graph :=
  OneNoteLoader.mkGraph
    (OneNoteLoader.notebooks graph) (OneNoteLoader.sections graph)
    (fun _ => Ok [OneNoteLoader.mkPageInfo "p1" "Monday" None None None;
                  OneNoteLoader.mkPageInfo "p3" "Wednesday" None None None])
    (OneNoteLoader.content graph) (OneNoteLoader.cheerio_text graph).

(** One notebook with two sections.  In the first, the content of the
    second page cannot be fetched; in the second, the markup of the first
    page cannot be converted. *)
Definition two_sections : OneNoteLoader.Graph :=
  OneNoteLoader.mkGraph
    (Ok [OneNoteLoader.mkNotebook "nb-1" "Work"])
    (fun _ => Ok [OneNoteLoader.mkSection "sec-1" "Meetings";
                  OneNoteLoader.mkSection "sec-2" "Plans"])
    (fun sectionId =>
       if decide (sectionId = "sec-1")
       then Ok [OneNoteLoader.mkPageInfo "p1" "Monday" None None None;
                OneNoteLoader.mkPageInfo "p2" "Tuesday" None None None;
                OneNoteLoader.mkPageInfo "p3" "Wednesday" None None None]
       else Ok [OneNoteLoader.mkPageInfo "p4" "Roadmap" None None None;
                OneNoteLoader.mkPageInfo "p5" "Budget" None None None])
    (fun pageId => if decide (pageId = "p2") then Err (OneNoteAPIError 500)
                   else Ok ("<html><body>" +:+ pageId +:+ "</body></html>"))
    (fun html => if decide (html = "<html><body>p4</body></html>") then Err MarkupError
                 else Ok html).

End Scenario.

(** * The rest of the modelled files *)

(** ** lancedb-store.ts: asRetriever and getVectorStore *)
Module LanceDBRetriever.

(** What [asRetriever] returns: an object that holds the store (here: the
    [this] of the monad) and the width fixed at its creation. *)
Record t := mk { numResults : nat }.

Definition asRetriever (k : option nat) : M LanceDBStore.t t :=
  w ← world;
  ret (mk (or_number k (retrievalK (app (settings w))))).

Definition getRelevantDocuments (r : t) (query : string) : M LanceDBStore.t (list Document) :=
  LanceDBStore.search query (Some (numResults r)).

Definition invoke (r : t) (query : string) : M LanceDBStore.t (list Document) :=
  LanceDBStore.search query (Some (numResults r)).

(** [getVectorStore(persistDirectory?, tableName?)]: a new store, made
    without a provider and initialized.  The constructor then takes the
    provider from [getEmbeddings()] of embeddings/index.js, which throws
    when no provider is configured: what that call gives is the first
    argument here.  The constructor makes the directory when it is missing.
    The store returned is the object of the result. *)
Definition getVectorStore (getEmbeddings : Result Embeddings) (dir name : option string)
           (w : World) : Result (Outcome unit * LanceDBStore.t * World) :=
  match getEmbeddings with
  | Ok embeddings =>
      let store := LanceDBStore.new (settings w) dir name embeddings in
      Ok (LanceDBStore.initialize store
            (set_files (mkdirSync (LanceDBStore.persistDirectory store)) w))
  | Err e => Err e
  end.

End LanceDBRetriever.

(** ** lancedb-store.ts, second part: getVectorStore of HNSWLibStore *)
Module HNSWLibStoreFile.

Definition getVectorStore (getEmbeddings : Result Embeddings) (dir name : option string)
           (w : World) : Result (Outcome unit * HNSWLibStore.t * World) :=
  match getEmbeddings with
  | Ok embeddings =>
      let store := HNSWLibStore.new (settings w) dir name embeddings in
      Ok (HNSWLibStore.initialize store
            (set_files (mkdirSync (HNSWLibStore.persistDirectory store)) w))
  | Err e => Err e
  end.

End HNSWLibStoreFile.

(** ** qa-chain.ts: searchSimilar and getQAChain *)
Module QAChainFile.

(** [searchSimilar(query, k = 5)] *)
Definition searchSimilar (query : string) (k : option nat) : M QAChain.t (list Document) :=
  QAChain.on_vectorstore (HNSWLibStore.search query (Some (default 5 k))).

(** [getQAChain(vectorstore, llmType = 'openai')]: the constructor may
    throw; then [initialize] runs on the new chain. *)
Definition getQAChain (vectorstore : HNSWLibStore.t) (llmType : QAChain.LLMType) (w : World)
  : Result (Outcome unit * QAChain.t * World) :=
  match QAChain.new (settings w) vectorstore llmType None 0 None with
  | Ok chain => Ok (QAChain.initialize chain w)
  | Err e => Err e
  end.

End QAChainFile.

(** The entries expected from batches [bs] added to an index, when the
    provider has served [c] calls before: each document with the vector at
    its position in the answer to its batch. *)
Fixpoint expected_entries (e : Embeddings) (c : nat) (bs : list (list Document))
  : list (Document * Vector) :=
  match bs with
  | [] => []
  | b :: bs' =>
      zip b (default [] (embedDocuments_of e c (map pageContent b)))
        ++ expected_entries e (S c) bs'
  end.

(** ** More concrete values *)
Module Examples.

(** The chain the constructor returns for the scenario's settings and its
    store without an index. *)
Definition unbuilt_chain : QAChain.t :=
  QAChain.mk Scenario.hnsw_store
    (QAChain.mkChatOpenAI "sk-test" "gpt-3.5-turbo" 0)
    QAChain.DEFAULT_QA_TEMPLATE None.

(** The world after three chunks were added to the scenario's HNSWLib
    store, the store then, and a chain over it. *)
Definition world_with_index : World :=
  after (HNSWLibStore.addDocuments (Scenario.chunks 3) 100
           Scenario.hnsw_store Scenario.empty_world).

Definition store_with_index : HNSWLibStore.t :=
  object (HNSWLibStore.addDocuments (Scenario.chunks 3) 100
            Scenario.hnsw_store Scenario.empty_world).

Definition qa_chain : QAChain.t :=
  QAChain.mk store_with_index
    (QAChain.mkChatOpenAI "sk-test" "gpt-3.5-turbo" 0)
    QAChain.DEFAULT_QA_TEMPLATE None.

End Examples.
(** ** Lines of normalized text *)

(** Whether a text begins with a white-space character of one, two or
    three bytes; [w2] and [w3] as for [strip]. *)
Definition starts_white (w2 : ascii -> ascii -> bool) (w3 : ascii -> ascii -> ascii -> bool)
           (l : list ascii) : bool :=
  match l with
  | [] => false
  | c1 :: l1 =>
      OneNoteLoader.is_white c1
      || match l1 with
         | [] => false
         | c2 :: l2 =>
             w2 c1 c2
             || match l2 with
                | [] => false
                | c3 :: _ => w3 c1 c2 c3
                end
         end
  end.

Definition begins_with_space (l : list ascii) : bool :=
  starts_white OneNoteLoader.is_white2 OneNoteLoader.is_white3 l.

Definition ends_with_space (l : list ascii) : bool :=
  starts_white (fun c2 c1 => OneNoteLoader.is_white2 c1 c2)
               (fun c3 c2 c1 => OneNoteLoader.is_white3 c1 c2 c3) (reverse l).

(** A line as [htmlToText] leaves it: not empty, without a line break, and
    with no white-space character at its beginning or at its end. *)
Definition clean_line (l : list ascii) : Prop :=
  (OneNoteLoader.newline ∉ l)
  ∧ l <> []
  ∧ begins_with_space l = false
  ∧ ends_with_space l = false.

(** The lines [htmlToText] keeps of a text: trimmed, the empty ones dropped. *)
Definition kept_lines (text : string) : list (list ascii) :=
  filter (fun line => line <> [])
         (map OneNoteLoader.trim (OneNoteLoader.split_lines (String.list_ascii_of_string text))).

(** ** embedding-factory.ts *)

Definition default_apiKey (st : Settings) : string := apiKey (openai st).
Definition default_embeddingModel (st : Settings) : string := embeddingModel (openai st).

(** The factory that knows OpenAI and a local model.  [useLocalModel] is
    [settings.app.useLocalModel]; what [console.warn] printed comes first in
    the result. *)
Module EmbeddingFactory.

Record OpenAIEmbeddings := mkOpenAIEmbeddings {
  openAIApiKey : string;
  emb_modelName : string;
}.

(** [createOpenAI(apiKey?, model?)] *)
Definition createOpenAI (st : Settings) (apiKey model : option string)
  : Result OpenAIEmbeddings :=
  let key := or_string apiKey (default_apiKey st) in
  let modelName := or_string model (default_embeddingModel st) in
  if decide (key = ""%string) then Err NotConfiguredError
  else Ok (mkOpenAIEmbeddings key modelName).

Definition local_warnings : list string :=
  [ "⚠️ LangChain.js 的本地 Embedding 支持有限，将使用 OpenAI Embedding";
    "   如需真正的本地 Embedding，可以考虑：";
    "   1. 使用 @xenova/transformers 库";
    "   2. 调用本地 Ollama 的 Embedding API" ]%string.

(** [createLocal()] *)
Definition createLocal (st : Settings) : list string * Result OpenAIEmbeddings :=
  (local_warnings, createOpenAI st None None).

(** [create(useLocal?)]: [useLocal ?? settings.app.useLocalModel] *)
Definition create (st : Settings) (useLocalModel : bool) (useLocal : option bool)
  : list string * Result OpenAIEmbeddings :=
  let shouldUseLocal := default useLocalModel useLocal in
  if shouldUseLocal then createLocal st
  else ([], createOpenAI st None None).

Definition getEmbeddings (st : Settings) (useLocalModel : bool) (useLocal : option bool)
  : list string * Result OpenAIEmbeddings :=
  create st useLocalModel useLocal.

End EmbeddingFactory.

(** The factory that knows Gemini and OpenAI.  What [console.log] printed
    comes first in the result. *)
Module ProviderEmbeddingFactory.

Inductive EmbeddingProvider := gemini | openai_provider.

(** [settings.gemini], as far as the factory reads it. *)
Record GeminiConfig := mkGeminiConfig {
  gemini_apiKey : string;
  gemini_embeddingModel : string;
}.

Inductive Embeddings :=
  | GoogleGenerativeAIEmbeddings (apiKey modelName : string)
  | OpenAIEmbeddings (openAIApiKey modelName : string).

(** [detectProvider()] *)
Definition detectProvider (st : Settings) (g : GeminiConfig) : Result EmbeddingProvider :=
  if decide (gemini_apiKey g <> ""%string) then Ok gemini
  else if decide (default_apiKey st <> ""%string) then Ok openai_provider
  else Err NotConfiguredError.

(** [createGemini(apiKey?, model?)] *)
Definition createGemini (g : GeminiConfig) (apiKey model : option string)
  : list string * Result Embeddings :=
  let key := or_string apiKey (gemini_apiKey g) in
  let modelName := or_string model (gemini_embeddingModel g) in
  if decide (key = ""%string) then ([], Err NotConfiguredError)
  else (["🔄 使用 Gemini Embedding: " +:+ modelName],
        Ok (GoogleGenerativeAIEmbeddings key modelName)).

(** [createOpenAI(apiKey?, model?)] *)
Definition createOpenAI (st : Settings) (apiKey model : option string)
  : list string * Result Embeddings :=
  let key := or_string apiKey (default_apiKey st) in
  let modelName := or_string model (default_embeddingModel st) in
  if decide (key = ""%string) then ([], Err NotConfiguredError)
  else (["🔄 使用 OpenAI Embedding: " +:+ modelName],
        Ok (OpenAIEmbeddings key modelName)).

(** [create(provider?)]: [provider || detectProvider()] *)
Definition create (st : Settings) (g : GeminiConfig) (provider : option EmbeddingProvider)
  : list string * Result Embeddings :=
  let selected :=
    match provider with
    | Some p => Ok p
    | None => detectProvider st g
    end in
  match selected with
  | Ok gemini => createGemini g None None
  | Ok openai_provider => createOpenAI st None None
  | Err e => ([], Err e)
  end.

Definition getEmbeddings (st : Settings) (g : GeminiConfig) (provider : option EmbeddingProvider)
  : list string * Result Embeddings :=
  create st g provider.

(** The key an [Embeddings] object was made with. *)
Definition key_of (e : Embeddings) : string :=
  match e with
  | GoogleGenerativeAIEmbeddings k _ => k
  | OpenAIEmbeddings k _ => k
  end.

End ProviderEmbeddingFactory.

(** ** The Microsoft Graph authentication module: GraphAuthenticator *)

(** The MSAL client, the file system and [fetch] are collaborators: their
    answers are given.  A call to MSAL may touch the files (MSAL runs the
    cache plug-in around its cache accesses).  [new PublicClientApplication]
    is taken to succeed. *)
Module GraphAuthenticator.

(** What was thrown: an [Error] with its message, or another value. *)
Inductive Thrown :=
  | JsError (message : string)
  | NotAnError.

Inductive Try (A : Type) :=
  | Returned (a : A)
  | Threw (e : Thrown).
Arguments Returned {A} a.
Arguments Threw {A} e.

(** [settings.azure], as far as the class reads it. *)
Record AzureConfig := mkAzureConfig {
  clientId : string;
  tenantId : string;
  graphEndpoint : string;
  scopes : list string;
}.

Definition default_clientId (az : AzureConfig) : string := clientId az.
Definition default_tenantId (az : AzureConfig) : string := tenantId az.

Record AccountInfo := mkAccountInfo { username : string }.
Record AuthenticationResult := mkAuthenticationResult { accessToken : string }.
Record DeviceCodeResponse := mkDeviceCodeResponse {
  verificationUri : string;
  userCode : string;
}.

(** @azure/msal-node.  [acquireTokenByDeviceCode] also tells the device code
    it passed to [deviceCodeCallback], if it came that far.  [deserialize]
    takes the cache and the data to merge into it. *)
Record Msal := mkMsal {
  getAllAccounts :
    gmap string string -> Try (list AccountInfo) * gmap string string;
  acquireTokenSilent :
    AccountInfo -> list string -> gmap string string ->
    Try (option AuthenticationResult) * gmap string string;
  acquireTokenByDeviceCode :
    list string -> gmap string string ->
    option DeviceCodeResponse * Try (option AuthenticationResult) * gmap string string;
  deserialize : string -> string -> Try string;
}.

(** [fetch(url, { headers })]: [response.ok], or a rejection. *)
Definition Fetch : Type := string -> list (string * string) -> Try bool.

(** The files, the error with which the file system refuses to write or
    unlink (if it does), and what was printed. *)
Record Env := mkEnv {
  files : gmap string string;
  write_error : option string;
  console : list string;
}.

Definition set_files (f : gmap string string) (env : Env) : Env :=
  mkEnv f (write_error env) (console env).
Definition log (line : string) (env : Env) : Env :=
  mkEnv (files env) (write_error env) (console env ++ [line]).

Definition TOKEN_CACHE_FILE : string := ".token_cache.json".

(** [msal.TokenCacheContext]; the cache stands for its serialization. *)
Record TokenCacheContext := mkTokenCacheContext {
  cacheHasChanged : bool;
  tokenCache : string;
}.

Record CachePlugin := mkCachePlugin {
  beforeCacheAccess : Msal -> TokenCacheContext -> Env -> TokenCacheContext * Env;
  afterCacheAccess : TokenCacheContext -> Env -> Env;
}.

(** [createCachePlugin()]; [this_cacheFilePath] is the field [cacheFilePath]
    at the time of the call. *)
Definition createCachePlugin (this_cacheFilePath : option string) : CachePlugin :=
  let cacheFile := or_string this_cacheFilePath TOKEN_CACHE_FILE in
  mkCachePlugin
    (fun m cacheContext env =>
       match files env !! cacheFile with
       | Some cacheData =>
           match deserialize m (tokenCache cacheContext) cacheData with
           | Returned cache =>
               (mkTokenCacheContext (cacheHasChanged cacheContext) cache, env)
           | Threw _ =>
               (cacheContext, log "⚠️ 读取 Token 缓存失败，将重新认证" env)
           end
       | None => (cacheContext, env)
       end)
    (fun cacheContext env =>
       if cacheHasChanged cacheContext then
         match write_error env with
         | None => set_files (<[cacheFile := tokenCache cacheContext]> (files env)) env
         | Some _ => log "⚠️ 保存 Token 缓存失败" env
         end
       else env).

(** [msal.Configuration] *)
Record Configuration := mkConfiguration {
  auth_clientId : string;
  auth_authority : string;
  cache_cachePlugin : CachePlugin;
}.

(** The fields of the class; [tokenCache] is the cache of [msalClient]. *)
Record t := mk {
  msalClient : Configuration;
  cacheFilePath : string;
}.

(** [new GraphAuthenticator(clientId?, tenantId?, cacheFile?)]: the
    configuration, with the plug-in, is built first, when no field of the
    object is assigned yet. *)
Definition new (az : AzureConfig) (clientId tenantId cacheFile : option string) : Try t :=
  let config :=
    mkConfiguration
      (or_string clientId (default_clientId az))
      ("https://login.microsoftonline.com/" +:+ or_string tenantId (default_tenantId az))
      (createCachePlugin None) in
  if decide (auth_clientId config = ""%string) then
    Threw (JsError "缺少 AZURE_CLIENT_ID 配置")
  else Returned (mk config (or_string cacheFile TOKEN_CACHE_FILE)).

(** [getGraphClient()] *)
Definition getGraphClient (az : AzureConfig) : Try t := new az None None None.

(** [response?.accessToken], when it is truthy. *)
Definition token_of (response : option AuthenticationResult) : option string :=
  match response with
  | Some r => if decide (accessToken r = ""%string) then None else Some (accessToken r)
  | None => None
  end.

Fixpoint repeat_string (s : string) (n : nat) : string :=
  match n with
  | 0 => ""%string
  | S n' => (s +:+ repeat_string s n')%string
  end.

Definition nl : string := String "010"%char EmptyString.

(** What [deviceCodeCallback] prints. *)
Definition deviceCodeCallback (response : DeviceCodeResponse) : list string :=
  [ nl +:+ repeat_string "=" 60;
    "📱 请完成 Microsoft 登录:";
    "   1. 打开浏览器访问: " +:+ verificationUri response;
    "   2. 输入代码: " +:+ userCode response;
    repeat_string "=" 60 +:+ nl ]%string.

Definition message_of (error : Thrown) : string :=
  match error with
  | JsError message => message
  | NotAnError => "未知错误"
  end.

(** [deviceCodeFlow(scopes)]: its own [Error] is caught by its own [catch]. *)
Definition deviceCodeFlow (m : Msal) (scopes : list string) (env : Env) : Try string * Env :=
  let '(shown, answer, files1) := acquireTokenByDeviceCode m scopes (files env) in
  let env1 := set_files files1 env in
  let env2 :=
    match shown with
    | Some response => foldl (fun e line => log line e) env1 (deviceCodeCallback response)
    | None => env1
    end in
  let tried :=
    match answer with
    | Returned response =>
        match token_of response with
        | Some token => (Returned token, log ("✅ 登录成功！" +:+ nl) env2)
        | None => (Threw (JsError "未获取到 Access Token"), env2)
        end
    | Threw e => (Threw e, env2)
    end in
  match tried with
  | (Returned token, env3) => (Returned token, env3)
  | (Threw error, env3) => (Threw (JsError ("认证失败: " +:+ message_of error)), env3)
  end.

(** [getAccessToken()] *)
Definition getAccessToken (az : AzureConfig) (m : Msal) (a : t) (env : Env)
  : Try string * Env :=
  let scopes := scopes az in
  match getAllAccounts m (files env) with
  | (Threw e, files1) => (Threw e, set_files files1 env)
  | (Returned accounts, files1) =>
      let env1 := set_files files1 env in
      match accounts with
      | account :: _ =>
          match acquireTokenSilent m account scopes files1 with
          | (Returned response, files2) =>
              match token_of response with
              | Some token => (Returned token, set_files files2 env1)
              | None => deviceCodeFlow m scopes (set_files files2 env1)
              end
          | (Threw _, files2) => deviceCodeFlow m scopes (set_files files2 env1)
          end
      | [] => deviceCodeFlow m scopes env1
      end
  end.

(** [getHeaders()] *)
Definition getHeaders (az : AzureConfig) (m : Msal) (a : t) (env : Env)
  : Try (list (string * string)) * Env :=
  match getAccessToken az m a env with
  | (Returned token, env1) =>
      (Returned [ ("Authorization", "Bearer " +:+ token);
                  ("Content-Type", "application/json") ]%string, env1)
  | (Threw e, env1) => (Threw e, env1)
  end.

(** [testConnection()] *)
Definition testConnection (az : AzureConfig) (m : Msal) (fetch : Fetch) (a : t) (env : Env)
  : Try bool * Env :=
  match getHeaders az m a env with
  | (Returned headers, env1) =>
      match fetch (graphEndpoint az +:+ "/me")%string headers with
      | Returned ok => (Returned ok, env1)
      | Threw _ => (Returned false, env1)
      end
  | (Threw _, env1) => (Returned false, env1)
  end.

(** [clearCache()] *)
Definition clearCache (a : t) (env : Env) : Try unit * Env :=
  match files env !! cacheFilePath a with
  | Some _ =>
      match write_error env with
      | None =>
          (Returned tt,
           log "🗑️ Token 缓存已清除"
             (set_files (delete (cacheFilePath a) (files env)) env))
      | Some message => (Threw (JsError message), env)
      end
  | None => (Returned tt, env)
  end.

End GraphAuthenticator.

(** ** Authentication scenarios *)
Module AuthScenario.
Import GraphAuthenticator.

Definition azure : AzureConfig :=
  mkAzureConfig "11111111-2222-3333-4444-555555555555" "common"
    "https://graph.microsoft.com/v1.0"
    [ "https://graph.microsoft.com/Notes.Read";
      "https://graph.microsoft.com/Notes.Read.All";
      "https://graph.microsoft.com/User.Read" ]%string.

(** An account is cached and its token can be renewed silently. *)
Definition signed_in : Msal :=
  mkMsal
    (fun fs => (Returned [mkAccountInfo "ada@example.org"], fs))
    (fun _ _ fs => (Returned (Some (mkAuthenticationResult "eyJ0eXAi")), fs))
    (fun _ fs => (None, Threw (JsError "device code flow was not expected"), fs))
    (fun _ data => Returned data).

(** Nobody is signed in and the device code expires before the login. *)
Definition login_expired : Msal :=
  mkMsal
    (fun fs => (Returned [], fs))
    (fun _ _ fs => (Threw (JsError "no_account_in_silent_request"), fs))
    (fun _ fs =>
       (Some (mkDeviceCodeResponse "https://microsoft.com/devicelogin" "C4XK9PQ2"),
        Threw (JsError "device_code_expired"), fs))
    (fun _ data => Returned data).

Definition empty_env : Env := mkEnv ∅ None [].

Definition graph_up : Fetch := fun _ _ => Returned true.

Definition authenticator : t :=
  mk (mkConfiguration (clientId azure)
        "https://login.microsoftonline.com/common" (createCachePlugin None))
     TOKEN_CACHE_FILE.

(** The same, made with a cache file of its own. *)
Definition authenticator_with_cache_file : t :=
  mk (msalClient authenticator) "onenote_tokens.json".

Definition changed_cache : TokenCacheContext :=
  mkTokenCacheContext true "{ Account: {}, AccessToken: {} }".

End AuthScenario.

(** ** Embedding scenarios *)
Module EmbeddingScenario.

Definition gemini_only : ProviderEmbeddingFactory.GeminiConfig :=
  ProviderEmbeddingFactory.mkGeminiConfig "AIzaSy-example" "text-embedding-004".

End EmbeddingScenario.

(** * Proofs *)

Ltac munfold :=
  unfold mbind, mret, M_bind, M_ret, bind, ret, throw, diverge, this, assign, world, effect,
    await in *.



Lemma elem_of_tableNames {S} (c : lancedb.Connection) (s : S) (w : World) :
  ∃ names, lancedb.tableNames c s w = (Return names, s, w)
           ∧ ∀ n, n ∈ names ↔ is_Some (tables w !! lancedb.key c n).
Proof.
  eexists. split; [reflexivity|].
  intros n. rewrite list_elem_of_omap. split.
  - intros [[[d m] rs] [Hin Hf]]. simpl in Hf.
    case_decide; simplify_eq. apply elem_of_map_to_list in Hin.
    unfold lancedb.key. simpl in *. subst. eauto.
  - intros [rs Hrs]. exists (lancedb.key c n, rs). split.
    + by apply elem_of_map_to_list.
    + simpl. by rewrite decide_True.
Qed.

Lemma initialize_run (s : LanceDBStore.t) (w : World) :
  LanceDBStore.initialize s w = (Return tt, opened s w, w).
Proof.
  unfold LanceDBStore.initialize, opened.
  destruct (elem_of_tableNames (lancedb.mkConnection (LanceDBStore.persistDirectory s))
              (LanceDBStore.set_db (Some (connection s)) s) w) as (names & Hrun & Hin).
  munfold. unfold lancedb.connect. munfold. fold (connection s). 
  unfold connection in *. rewrite Hrun. 
  specialize (Hin (LanceDBStore.tableName s)). unfold lancedb.key in Hin. simpl in Hin.
  unfold table_key.
  destruct (tables w !! (LanceDBStore.persistDirectory s, LanceDBStore.tableName s)) as [rs|] eqn:E.
  - rewrite bool_decide_eq_true_2 by (apply Hin; eauto).
    unfold lancedb.openTable, lancedb.countRows, lancedb.rows_of. munfold. simpl.
    unfold lancedb.key. simpl. rewrite E. reflexivity.
  - rewrite bool_decide_eq_false_2; [reflexivity|].
    intros H%Hin. by destruct H.
Qed.

Lemma advance_0 w : advance [] 0 w = w.
Proof. destruct w. unfold advance. simpl. by rewrite app_nil_r, Nat.add_0_r. Qed.

Lemma advance_advance c1 n1 c2 n2 w :
  advance c2 n2 (advance c1 n1 w) = advance (c1 ++ c2) (n1 + n2) w.
Proof. unfold advance. simpl. by rewrite <- app_assoc, Nat.add_assoc. Qed.

Lemma pushRecords_run rest : ∀ j vectors records s w,
  LanceDBStore.pushRecords rest j vectors records s w
  = (Return (records ++ rows_from (idSupply w) (generated w) j vectors rest), s,
     advance [] (length rest) w).
Proof.
  induction rest as [|d rest IH]; intros j vectors records s w; simpl.
  - by rewrite app_nil_r, advance_0.
  - unfold LanceDBStore.generateId. munfold. rewrite IH. simpl.
    rewrite <- app_assoc. simpl. f_equal.
    unfold advance, tick_generated. simpl. f_equal. lia.
Qed.

Lemma ceil_div_0 b : 0 < b → ceil_div 0 b = 0.
Proof. intros. unfold ceil_div. apply Nat.div_small. lia. Qed.

Lemma ceil_div_step n b : 0 < b → 0 < n → ceil_div n b = S (ceil_div (n - b) b).
Proof.
  intros Hb Hn. unfold ceil_div.
  destruct (decide (b ≤ n)).
  - replace (n + b - 1) with ((n - b + b - 1) + 1 * b) by lia.
    rewrite Nat.div_add by lia. lia.
  - replace (n - b) with 0 by lia. simpl.
    rewrite (Nat.div_small (b - 1) b) by lia.
    symmetry. apply (Nat.div_unique _ _ 1 (n - 1)); lia.
Qed.

Lemma partition_nil {A} b : 0 < b → partition b (@nil A) = [].
Proof. intros. unfold partition. simpl. by rewrite ceil_div_0. Qed.

Lemma partition_cons {A} b (l : list A) :
  0 < b → l ≠ [] → partition b l = take b l :: partition b (drop b l).
Proof.
  intros Hb Hl. unfold partition.
  rewrite (ceil_div_step (length l) b); [|done|destruct l; simpl; [done|lia]].
  simpl. by rewrite length_drop.
Qed.

Lemma slice_from {A} (l : list A) i b : slice l i (i + b) = take b (drop i l).
Proof. unfold slice. f_equal. lia. Qed.

Lemma embedLoop_run documents b : 0 < b → ∀ fuel i records s w,
  (∀ n texts, is_Some (embedDocuments_of (LanceDBStore.embeddings s) n texts)) →
  length documents - i ≤ fuel →
  LanceDBStore.embedLoop fuel documents b i records s w
  = (Return (records ++ expected_rows (LanceDBStore.embeddings s) (idSupply w)
                         (length (embedCalls w)) (generated w)
                         (partition b (drop i documents))),
     s,
     advance (map (map pageContent) (partition b (drop i documents)))
             (length documents - i) w).
Proof.
  intros Hb fuel. induction fuel as [|fuel IH]; intros i records s w Hok Hfuel.
  - simpl. rewrite decide_False by lia.
    rewrite drop_ge by lia. rewrite partition_nil by done. simpl.
    replace (length documents - i) with 0 by lia.
    by rewrite app_nil_r, advance_0.
  - simpl. destruct (decide (i < length documents)) as [Hi|Hi].
    + rewrite slice_from.
      assert (Hne : drop i documents ≠ []).
      { intros E. apply (f_equal length) in E. rewrite length_drop in E. simpl in E. lia. }
      rewrite (partition_cons b (drop i documents)) by done.
      set (batch := take b (drop i documents)).
      unfold embedDocuments. munfold.
      destruct (Hok (length (embedCalls w)) (map pageContent batch)) as [vs Hvs].
      rewrite Hvs. munfold. rewrite pushRecords_run. simpl.
      rewrite IH; [|done|lia]. rewrite <- app_assoc.
      rewrite drop_drop. rewrite Hvs. simpl.
      f_equal.
      * rewrite app_nil_r, length_app. simpl. by rewrite Nat.add_1_r.
      * unfold advance, log_embedCall. simpl. f_equal.
        -- by rewrite app_nil_r, <- app_assoc.
        -- subst batch. rewrite length_take, length_drop. lia.
    + rewrite drop_ge by lia. rewrite partition_nil by done. simpl.
      replace (length documents - i) with 0 by lia.
      by rewrite app_nil_r, advance_0.
Qed.

Section batches_facts.
Context {A : Type}.
Implicit Types (l : list A) (b n k : nat).

Lemma batches_length b n l : length (batches b n l) = n.
Proof. revert l. induction n as [|n IH]; intros l; simpl; [done|]. by rewrite IH. Qed.


Lemma batches_concat b n l : length l ≤ n * b → concat (batches b n l) = l.
Proof.
  revert l. induction n as [|n IH]; intros l Hl; simpl in *.
  - destruct l; [done|simpl in Hl; lia].
  - rewrite IH; [apply take_drop|]. rewrite length_drop. lia.
Qed.


End batches_facts.

Lemma batches_fmap {A B} (f : A → B) b n (l : list A) :
  map (map f) (batches b n l) = batches b n (map f l).
Proof.
  revert l. induction n as [|n IH]; intros l; simpl; [done|].
  by rewrite IH, <- fmap_take, <- fmap_drop.
Qed.

Lemma partition_fmap {A B} (f : A → B) b (l : list A) :
  map (map f) (partition b l) = partition b (map f l).
Proof. unfold partition. by rewrite batches_fmap, length_map. Qed.

Lemma ceil_div_lt k n b : 0 < b → k < ceil_div n b ↔ k * b < n.
Proof.
  intros Hb. unfold ceil_div. split.
  - intros Hk. destruct (decide (k * b < n)) as [|Hn]; [done|].
    assert ((n + b - 1) / b < S k); [|lia].
    apply Nat.Div0.div_lt_upper_bound; lia.
  - intros Hk. assert (S k ≤ (n + b - 1) / b); [|lia].
    apply Nat.div_le_lower_bound; lia.
Qed.

Lemma ceil_div_covers n b : 0 < b → n ≤ ceil_div n b * b.
Proof.
  intros Hb. destruct (decide (n ≤ ceil_div n b * b)) as [|Hn]; [done|].
  assert (ceil_div n b < ceil_div n b); [|lia].
  apply ceil_div_lt; lia.
Qed.

Lemma partition_concat {A} b (l : list A) : 0 < b → concat (partition b l) = l.
Proof. intros. apply batches_concat. by apply ceil_div_covers. Qed.

Lemma rows_from_length ids g j vectors rest :
  length (rows_from ids g j vectors rest) = length rest.
Proof.
  revert g j. induction rest as [|d rest IH]; intros g j; simpl; [done|]. by rewrite IH.
Qed.




Lemma opened_consistent s w :
  LanceDBStore.db s = None → LanceDBStore.table s = None → consistent (opened s w) w.
Proof.
  intros Hdb Htb. unfold consistent, opened, table_key, connection, handle.
  destruct s as [d t e dir name]. simpl in *. subst.
  destruct (tables w !! (dir, name)) eqn:E; simpl; rewrite ?E; eauto.
Qed.

Lemma consistent_cases s w :
  consistent s w →
  (LanceDBStore.db s = None ∧ LanceDBStore.table s = None)
  ∨ (LanceDBStore.db s = Some (connection s) ∧ LanceDBStore.table s = None
     ∧ tables w !! table_key s = None)
  ∨ (∃ n, LanceDBStore.db s = Some (connection s) ∧ LanceDBStore.table s = Some (handle s n)
          ∧ is_Some (tables w !! table_key s)).
Proof.
  unfold consistent.
  destruct (LanceDBStore.db s), (LanceDBStore.table s) as [tb|]; intros H.
  - destruct H as (-> & Htb & H). right; right. exists (lancedb.seen tb). by rewrite <- Htb.
  - destruct H as (-> & H). right; left. done.
  - done.
  - by left.
Qed.

Lemma opened_embeddings s w :
  LanceDBStore.embeddings (opened s w) = LanceDBStore.embeddings s.
Proof. unfold opened. by destruct (tables w !! table_key s). Qed.

Lemma fields_app rs1 rs2 : lancedb.fields (rs1 ++ rs2) = lancedb.fields rs1 ++ lancedb.fields rs2.
Proof. unfold lancedb.fields. by rewrite map_app, concat_app. Qed.

Lemma fields_rows_from ids vectors rest : ∀ g j,
  lancedb.fields (rows_from ids g j vectors rest) = concat (map fields_of rest).
Proof.
  induction rest as [|d rest IH]; intros g j; [done|].
  simpl. change (lancedb.fields (?r :: ?rs)) with ((rmetadata r).*1 ++ lancedb.fields rs).
  by rewrite IH.
Qed.

Lemma fields_expected_rows e ids bs : ∀ c g,
  lancedb.fields (expected_rows e ids c g bs) = concat (map fields_of (concat bs)).
Proof.
  induction bs as [|b bs IH]; intros c g; [done|].
  simpl. by rewrite fields_app, fields_rows_from, IH, map_app, concat_app.
Qed.

Lemma elem_of_concat {A} (x : A) (ls : list (list A)) :
  x ∈ concat ls ↔ ∃ l, x ∈ l ∧ l ∈ ls.
Proof.
  induction ls as [|l0 ls IH]; simpl.
  - split; [by intros ?%elem_of_nil|by intros (? & _ & ?%elem_of_nil)].
  - rewrite elem_of_app, IH. split.
    + intros [H|(l & Hx & Hl)]; [exists l0; split; [done|by left]|].
      exists l. split; [done|by right].
    + intros (l & Hx & [->|Hl]%elem_of_cons); [by left|right; by exists l].
Qed.

Lemma unknown_fields_nil rs data :
  lancedb.unknown_fields rs data = [] ↔ lancedb.fields data ⊆ lancedb.fields rs.
Proof.
  unfold lancedb.unknown_fields. generalize (lancedb.fields data) as l.
  induction l as [|f l IH].
  - split; [intros _ x Hx; by apply elem_of_nil in Hx|done].
  - destruct (decide (f ∈ lancedb.fields rs)) as [Hin|Hout].
    + rewrite filter_cons_False by (intros H; by apply H). rewrite IH. split.
      * intros Hsub x [->|Hx]%elem_of_cons; [done|by apply Hsub].
      * intros Hsub x Hx. apply Hsub. by right.
    + rewrite filter_cons_True by done. split; [done|].
      intros Hsub. destruct Hout. apply Hsub. by left.
Qed.

(** The documents fit the table exactly when LanceDB finds no unknown field
    in their records. *)
Lemma accepted_unknown_fields s w documents b rs :
  0 < b → tables w !! table_key s = Some rs →
  accepted s w documents
  ↔ lancedb.unknown_fields rs
      (expected_rows (LanceDBStore.embeddings s) (idSupply w) (length (embedCalls w))
         (generated w) (partition b documents)) = [].
Proof.
  intros Hb Hrs. unfold accepted. rewrite Hrs, unknown_fields_nil, fields_expected_rows.
  rewrite partition_concat by done. rewrite Forall_forall. split.
  - intros Hall f Hf. apply elem_of_concat in Hf as (l & Hf & Hl).
    apply list_elem_of_fmap in Hl as (d & -> & Hd). by apply (Hall d).
  - intros Hsub d Hd f Hf. apply Hsub. apply elem_of_concat.
    exists (fields_of d). split; [done|]. by apply list_elem_of_fmap_2.
Qed.

(** What addDocuments does when the provider answers: all the batches are
    embedded, then the one write is LanceDB's to accept. *)
Lemma addDocuments_run_cases s w documents b :
  documents ≠ [] → 0 < b → consistent s w →
  (∀ n texts, is_Some (embedDocuments_of (LanceDBStore.embeddings s) n texts)) →
  let rows := expected_rows (LanceDBStore.embeddings s) (idSupply w)
                (length (embedCalls w)) (generated w) (partition b documents) in
  let w1 := advance (map (map pageContent) (partition b documents)) (length documents) w in
  LanceDBStore.addDocuments documents b s w
  = match tables w !! table_key s with
    | None => (Return tt, connected s (length rows), set_tables (insert (table_key s) rows) w1)
    | Some old =>
        match lancedb.unknown_fields old rows with
        | [] => (Return tt, connected s (length (old ++ rows)),
                 set_tables (insert (table_key s) (old ++ rows)) w1)
        | field :: _ =>
            (Throw (LanceDBError (FieldNotInSchema field)),
             (if LanceDBStore.db s is None then opened s w else s), w1)
        end
    end.
Proof.
  intros Hne Hb Hc Hok rows w1. unfold LanceDBStore.addDocuments.
  rewrite decide_False by (destruct documents; simpl; [done|lia]).
  pose proof (embedLoop_run documents b Hb (length documents) 0 []) as Hloop.
  rewrite drop_0, Nat.sub_0_r in Hloop. simpl in Hloop.
  destruct (consistent_cases s w Hc) as [[Hdb Htb]|[(Hdb & Htb & Hw)|(n & Hdb & Htb & Hw)]].
  - munfold. rewrite Hdb. rewrite initialize_run.
    rewrite Hloop; [|intros; rewrite opened_embeddings; apply Hok|lia]. rewrite opened_embeddings.
    fold rows w1.
    unfold opened, connected. destruct s as [d t e dir name]. simpl in *. subst.
    unfold table_key, handle, connection in *. simpl in *.
    destruct (tables w !! (dir, name)) as [old|] eqn:E; simpl.
    + unfold lancedb.add, lancedb.rows, lancedb.rows_of, lancedb.key. munfold. simpl.
      subst w1. simpl. rewrite E. simpl.
      destruct (lancedb.unknown_fields old rows); reflexivity.
    + unfold lancedb.createTable, lancedb.key. munfold. simpl.
      subst w1. simpl. rewrite E. reflexivity.
  - munfold. rewrite Hdb. rewrite (Hloop s w Hok (le_n _)). fold rows w1. rewrite Htb, Hdb.
    unfold lancedb.createTable, lancedb.key. munfold. simpl.
    unfold table_key in *. subst w1. simpl. rewrite Hw. simpl.
    unfold connected, handle, connection, LanceDBStore.set_table, LanceDBStore.set_db in *.
    destruct s; simpl in *. by subst.
  - munfold. rewrite Hdb. rewrite (Hloop s w Hok (le_n _)). fold rows w1. rewrite Htb.
    unfold lancedb.add, lancedb.rows, lancedb.rows_of, lancedb.key. munfold. simpl.
    unfold table_key in *. destruct Hw as [old Hw]. subst w1. simpl. rewrite Hw. simpl.
    destruct (lancedb.unknown_fields old rows); [|reflexivity].
    unfold connected, handle, connection, LanceDBStore.set_table, LanceDBStore.set_db in *.
    destruct s; simpl in *. by subst.
Qed.

Lemma addDocuments_run s w documents b :
  documents ≠ [] → 0 < b → consistent s w → accepted s w documents →
  (∀ n texts, is_Some (embedDocuments_of (LanceDBStore.embeddings s) n texts)) →
  let rows := default [] (tables w !! table_key s)
              ++ expected_rows (LanceDBStore.embeddings s) (idSupply w)
                   (length (embedCalls w)) (generated w) (partition b documents) in
  LanceDBStore.addDocuments documents b s w
  = (Return tt, connected s (length rows),
     set_tables (insert (table_key s) rows)
       (advance (map (map pageContent) (partition b documents)) (length documents) w)).
Proof.
  intros Hne Hb Hc Hacc Hok. cbv zeta.
  rewrite (addDocuments_run_cases s w documents b Hne Hb Hc Hok).
  destruct (tables w !! table_key s) as [old|] eqn:E; [|done].
  apply (accepted_unknown_fields s w documents b old Hb E) in Hacc. simpl. by rewrite Hacc.
Qed.

Lemma getCollectionStats_run s w :
  LanceDBStore.getCollectionStats s w
  = (Return (mkCollectionStats (LanceDBStore.tableName s)
               (if LanceDBStore.table s is Some tb
                then Z.of_nat (lancedb.seen tb)
                else 0%Z)
               (LanceDBStore.persistDirectory s)), s, w).
Proof.
  unfold LanceDBStore.getCollectionStats. munfold.
  by destruct (LanceDBStore.table s).
Qed.




(** [C5] addDocuments with an empty list returns at once: no error, the
    store object and the world (provider calls, tables on disk) are
    untouched, and a store that was not ready is still not ready.  The same
    holds for HNSWLibStore. *)
Theorem addDocuments_empty_is_noop (w : World) (b : nat) :
  (∀ s : LanceDBStore.t,
      LanceDBStore.addDocuments [] b s w = (Return tt, s, w)
      ∧ embedCalls (after (LanceDBStore.addDocuments [] b s w)) = embedCalls w
      ∧ tables (after (LanceDBStore.addDocuments [] b s w)) = tables w
      ∧ LanceDBStore.isReady (object (LanceDBStore.addDocuments [] b s w))
        = LanceDBStore.isReady s)
  ∧ (∀ st dir name e,
        LanceDBStore.isReady
          (object (LanceDBStore.addDocuments [] b (LanceDBStore.new st dir name e) w))
        = false)
  ∧ (∀ s : HNSWLibStore.t,
        HNSWLibStore.addDocuments [] b s w = (Return tt, s, w)).
Proof. done. Qed.

Lemma search_not_ready s w query k :
  LanceDBStore.isReady s = false →
  LanceDBStore.search query k s w = (Throw NotInitializedError, s, w)
  ∧ LanceDBStore.searchWithScores query k s w = (Throw NotInitializedError, s, w).
Proof.
  unfold LanceDBStore.isReady, LanceDBStore.search, LanceDBStore.searchWithScores.
  munfold. by destruct (LanceDBStore.table s).
Qed.

(** [C3] On a store with no table opened or created, search and
    searchWithScores throw NotInitializedError for every query and every k;
    nothing is embedded and neither the store nor the world changes. *)
Theorem search_without_collection_throws
    (s : LanceDBStore.t) (w : World) (query : string) (k : option nat) :
  LanceDBStore.isReady s = false →
  LanceDBStore.search query k s w = (Throw NotInitializedError, s, w)
  ∧ LanceDBStore.searchWithScores query k s w = (Throw NotInitializedError, s, w).
Proof. apply search_not_ready. Qed.

(** Scenario D: a query against a store that has just been constructed. *)
Lemma search_scenario_D :
  LanceDBStore.isReady Scenario.lance_store = false
  ∧ outcome (LanceDBStore.search "what is in my notes" None
               Scenario.lance_store Scenario.empty_world)
    = Throw NotInitializedError
  ∧ outcome (LanceDBStore.searchWithScores "what is in my notes" (Some 3)
               Scenario.lance_store Scenario.empty_world)
    = Throw NotInitializedError.
Proof.
  assert (H : LanceDBStore.isReady Scenario.lance_store = false) by reflexivity.
  split; [exact H|].
  split.
  - destruct (search_without_collection_throws Scenario.lance_store Scenario.empty_world
                "what is in my notes" None H) as [-> _]. reflexivity.
  - destruct (search_without_collection_throws Scenario.lance_store Scenario.empty_world
                "what is in my notes" (Some 3) H) as [_ ->]. reflexivity.
Defined.

Lemma opened_opened s w : opened (opened s w) w = opened s w.
Proof.
  unfold opened, table_key, handle, connection.
  destruct s as [d t e dir name]. simpl.
  destruct (tables w !! (dir, name)) eqn:E; simpl; by rewrite E.
Qed.

(** [C9] initialize is idempotent: in every state, a second call returns
    as the first did and leaves the same store object and the same world,
    so getCollectionStats answers the same after two calls as after one. *)
Theorem initialize_idempotent (s : LanceDBStore.t) (w : World) :
  let once := LanceDBStore.initialize s w in
  let twice := LanceDBStore.initialize (object once) (after once) in
  outcome once = Return tt
  ∧ twice = once
  ∧ LanceDBStore.getCollectionStats (object twice) (after twice)
    = LanceDBStore.getCollectionStats (object once) (after once).
Proof.
  cbv zeta. rewrite initialize_run. unfold object, after. simpl.
  rewrite initialize_run, opened_opened. done.
Qed.

(** ** The embedding loop writes nothing *)

Lemma advance_tables calls n w : tables (advance calls n w) = tables w.
Proof. done. Qed.

Lemma consistent_advance s w calls n : consistent s w → consistent s (advance calls n w).
Proof. done. Qed.

(** Whatever the provider does and whatever the batch size is, the loop
    leaves the store object alone, changes the world only by provider
    calls and generated ids, and can only throw what the provider throws. *)
Lemma embedLoop_frame documents b fuel : ∀ i records s w,
  ∃ calls n,
    object (LanceDBStore.embedLoop fuel documents b i records s w) = s
    ∧ after (LanceDBStore.embedLoop fuel documents b i records s w) = advance calls n w
    ∧ (∀ e, outcome (LanceDBStore.embedLoop fuel documents b i records s w) = Throw e →
            e = EmbeddingProviderError)
    ∧ (∀ rows, outcome (LanceDBStore.embedLoop fuel documents b i records s w) = Return rows →
               length rows = length records + (length documents - i)).
Proof.
  induction fuel as [|fuel IH]; intros i records s w; simpl.
  - exists [], 0. rewrite advance_0. case_decide; [done|].
    unfold outcome; simpl. repeat split; [done|]. intros rows [= <-]. lia.
  - case_decide.
    2:{ exists [], 0. rewrite advance_0. unfold outcome; simpl.
        repeat split; [done|]. intros rows [= <-]. lia. }
    unfold embedDocuments. munfold.
    set (texts := map pageContent (slice documents i (i + b))).
    destruct (embedDocuments_of (LanceDBStore.embeddings s) (length (embedCalls w)) texts)
      as [vs|].
    + munfold. rewrite pushRecords_run.
      destruct (IH (i + b)
                  (records ++ rows_from (idSupply (log_embedCall texts w))
                                 (generated (log_embedCall texts w)) 0 vs
                                 (slice documents i (i + b)))
                  s (advance [] (length (slice documents i (i + b)))
                             (log_embedCall texts w)))
        as (calls & n & Hs & Hw & He & Hlen).
      exists (texts :: calls), (length (slice documents i (i + b)) + n).
      split; [done|]. split; [|split; [done|]].
      * rewrite Hw. unfold advance, log_embedCall. simpl. f_equal.
        -- by rewrite app_nil_r, <- app_assoc.
        -- lia.
      * intros rows Hrows. rewrite (Hlen rows Hrows).
        rewrite length_app, rows_from_length, slice_from, length_take, length_drop. lia.
    + exists [texts], 0. unfold object, after, outcome. simpl.
      split; [done|]. split; [|split; [by intros e [= <-]|done]].
      unfold advance, log_embedCall. simpl. f_equal. lia.
Qed.

(** What addDocuments can do on a non-empty list: the embedding loop does
    not finish (it throws EmbeddingProviderError or runs forever), or
    LanceDB rejects the rows for a metadata field the table does not have,
    and then no table has been touched; or every batch was embedded and all
    rows are written in one go. *)
Lemma addDocuments_cases s w documents b :
  documents ≠ [] → consistent s w →
  let r := LanceDBStore.addDocuments documents b s w in
  let s0 := if LanceDBStore.db s is None then opened s w else s in
  (∃ calls n,
      (outcome r = Throw EmbeddingProviderError ∨ outcome r = Diverge
       ∨ ∃ field, outcome r = Throw (LanceDBError (FieldNotInSchema field)))
      ∧ object r = s0 ∧ after r = advance calls n w)
  ∨ (∃ calls n rows,
        outcome r = Return tt
        ∧ object r = connected s (length (default [] (tables w !! table_key s) ++ rows))
        ∧ length rows = length documents
        ∧ after r = set_tables
                      (insert (table_key s) (default [] (tables w !! table_key s) ++ rows))
                      (advance calls n w)).
Proof.
  intros Hne Hc r s0.
  assert (Hc0 : consistent s0 w ∧ LanceDBStore.db s0 = Some (connection s)
                ∧ table_key s0 = table_key s ∧ (∀ m, connected s0 m = connected s m)
                ∧ LanceDBStore.tableName s0 = LanceDBStore.tableName s).
  { subst s0.
    destruct (consistent_cases s w Hc) as [[Hdb Htb]|[(Hdb & Htb & Hw)|(m & Hdb & Htb & Hw)]];
      rewrite Hdb; [|done|done].
    split; [by apply opened_consistent|].
    unfold opened, connected, table_key, handle, connection.
    destruct s as [d t e dir name]; simpl in *.
    subst. by destruct (tables w !! (dir, name)). }
  destruct Hc0 as (Hc0 & Hdb0 & Hkey & Hconn & Hname).
  assert (Hr : r = (rows ← LanceDBStore.embedLoop (length documents) documents b 0 [];
                    s' ← this;
                    match LanceDBStore.table s' with
                    | None =>
                        match LanceDBStore.db s' with
                        | Some c =>
                            tb ← lancedb.createTable c (LanceDBStore.tableName s') rows;
                            assign (LanceDBStore.set_table (Some tb))
                        | None => throw TypeError
                        end
                    | Some tb =>
                        tb' ← lancedb.add tb rows;
                        assign (LanceDBStore.set_table (Some tb'))
                    end) s0 w).
  { subst r s0. unfold LanceDBStore.addDocuments.
    rewrite decide_False by (destruct documents; simpl; [done|lia]).
    munfold. destruct (LanceDBStore.db s); [done|]. by rewrite initialize_run. }
  destruct (embedLoop_frame documents b (length documents) 0 [] s0 w)
    as (calls & n & Hs & Hw & He & Hlen).
  munfold.
  destruct (LanceDBStore.embedLoop (length documents) documents b 0 [] s0 w)
    as [[[rows|e|] s1] w1] eqn:Hloop; unfold outcome, object, after in *; simpl in *; subst s1 w1.
  - specialize (Hlen rows eq_refl). rewrite Nat.sub_0_r in Hlen.
    destruct (consistent_cases s0 w Hc0) as [[Hdb Htb]|[(_ & Htb & Hw)|(m & Hdb & Htb & [old Hw])]].
    + congruence.
    + right. exists calls, n, rows. rewrite Hr. clear Hr.
      rewrite Htb, Hdb0. unfold lancedb.createTable, lancedb.key. munfold. simpl.
      rewrite Hname. fold (table_key s). rewrite <- Hkey, Hw. simpl.
      rewrite Hkey. repeat split; [|done].
      rewrite <- Hconn. unfold connected, handle, connection.
      unfold table_key in *. destruct s0; simpl in *. by simplify_eq.
    + rewrite Hr. clear Hr.
      rewrite Htb. unfold lancedb.add, lancedb.rows, lancedb.rows_of, lancedb.key. munfold. simpl.
      fold (table_key s0). rewrite Hw. simpl. rewrite <- Hkey, Hw. simpl.
      destruct (lancedb.unknown_fields old rows) as [|field fs].
      * right. exists calls, n, rows. simpl. repeat split; [|done].
        rewrite <- Hconn. unfold connected, handle, connection in *.
        destruct s0; simpl in *. by rewrite Hdb.
      * left. exists calls, n. simpl. eauto 10.
  - left. exists calls, n. rewrite Hr. simpl. rewrite (He e eq_refl). eauto.
  - left. exists calls, n. rewrite Hr. simpl. eauto.
Qed.

Lemma addDocuments_consistent s w documents b :
  consistent s w →
  consistent (object (LanceDBStore.addDocuments documents b s w))
             (after (LanceDBStore.addDocuments documents b s w)).
Proof.
  intros Hc. destruct documents as [|d documents]; [done|].
  destruct (addDocuments_cases s w (d :: documents) b ltac:(done) Hc)
    as [(calls & n & _ & -> & ->)|(calls & n & rows & _ & -> & _ & ->)].
  - apply consistent_advance.
    destruct (consistent_cases s w Hc) as [[Hdb Htb]|[(Hdb & Htb & Hw)|(m & Hdb & Htb & Hw)]];
      rewrite Hdb; [by apply opened_consistent|done|done].
  - unfold consistent, connected. simpl. split; [done|]. split; [done|].
    unfold table_key. simpl. fold (table_key s). rewrite lookup_insert_eq. eauto.
Qed.

(** ** The invariant *)

Lemma consistent_tables s w w' : tables w' = tables w → consistent s w → consistent s w'.
Proof. unfold consistent. by intros ->. Qed.

Lemma initialize_consistent s w : consistent s w → consistent (opened s w) w.
Proof.
  intros Hc.
  destruct (consistent_cases s w Hc) as [[Hdb Htb]|[(Hdb & Htb & Hw)|(m & Hdb & Htb & [old Hw])]].
  - by apply opened_consistent.
  - unfold opened. rewrite Hw. unfold consistent in *. simpl. by rewrite Htb.
  - unfold opened. rewrite Hw. unfold consistent. simpl.
    unfold table_key in *. simpl. rewrite Hw. eauto.
Qed.

Lemma search_frame s w query k :
  object (LanceDBStore.search query k s w) = s
  ∧ tables (after (LanceDBStore.search query k s w)) = tables w.
Proof.
  unfold LanceDBStore.search, embedQuery, lancedb.vectorSearch_limit, lancedb.rows, lancedb.rows_of.
  munfold. destruct (LanceDBStore.table s) as [tb|]; [|done].
  destruct (embedQuery_of _ _ _); [|done]. munfold. simpl.
  by destruct (tables w !! lancedb.key (lancedb.conn tb) (lancedb.name tb)).
Qed.

Lemma searchWithScores_frame s w query k :
  object (LanceDBStore.searchWithScores query k s w) = s
  ∧ tables (after (LanceDBStore.searchWithScores query k s w)) = tables w.
Proof.
  unfold LanceDBStore.searchWithScores, embedQuery, lancedb.vectorSearch_limit, lancedb.rows, lancedb.rows_of.
  munfold. destruct (LanceDBStore.table s) as [tb|]; [|done].
  destruct (embedQuery_of _ _ _); [|done]. munfold. simpl.
  by destruct (tables w !! lancedb.key (lancedb.conn tb) (lancedb.name tb)).
Qed.

(** deleteCollection, case by case. *)
Lemma deleteCollection_run s w :
  consistent s w →
  LanceDBStore.deleteCollection s w
  = match LanceDBStore.db s, tables w !! table_key s with
    | None, _ => (Return tt, s, w)
    | Some _, Some _ =>
        (Return tt, LanceDBStore.set_table None s, set_tables (delete (table_key s)) w)
    | Some _, None =>
        (Throw (LanceDBError (TableNotFound (LanceDBStore.tableName s))), s, w)
    end.
Proof.
  intros Hc. unfold LanceDBStore.deleteCollection.
  destruct (consistent_cases s w Hc) as [[Hdb Htb]|[(Hdb & Htb & Hw)|(m & Hdb & Htb & [old Hw])]];
    munfold; rewrite Hdb; [done| |];
    unfold lancedb.dropTable, lancedb.key; munfold; simpl;
    fold (table_key s); by rewrite Hw.
Qed.

Lemma deleteCollection_consistent s w :
  consistent s w →
  consistent (object (LanceDBStore.deleteCollection s w))
             (after (LanceDBStore.deleteCollection s w)).
Proof.
  intros Hc. rewrite deleteCollection_run by done.
  destruct (consistent_cases s w Hc) as [[Hdb Htb]|[(Hdb & Htb & Hw)|(m & Hdb & Htb & [old Hw])]];
    rewrite Hdb, ?Hw; [done|done|].
  unfold consistent, object, after. simpl. rewrite Hdb.
  split; [done|]. unfold table_key. simpl. apply lookup_delete_eq.
Qed.

(** Every state that calls on one store reach is consistent. *)
Lemma reachable_consistent s w : reachable s w → consistent s w.
Proof.
  induction 1 as [st dir name e w|c s w _ IH]; [done|].
  destruct c as [|documents b|query k|query k| |]; simpl.
  - rewrite initialize_run. by apply initialize_consistent.
  - by apply addDocuments_consistent.
  - destruct (search_frame s w query k) as [Hs Hw].
    unfold forget. munfold.
    destruct (LanceDBStore.search query k s w) as [[[?|?|] s'] w'];
      unfold object, after in *; simpl in *; subst; by eapply consistent_tables.
  - destruct (searchWithScores_frame s w query k) as [Hs Hw].
    unfold forget. munfold.
    destruct (LanceDBStore.searchWithScores query k s w) as [[[?|?|] s'] w'];
      unfold object, after in *; simpl in *; subst; by eapply consistent_tables.
  - unfold forget. munfold. by rewrite getCollectionStats_run.
  - by apply deleteCollection_consistent.
Qed.

(** ** Directories *)

Lemma under_refl p : under p p.
Proof. by split. Qed.

Lemma rmSync_under root p fs : under root p → rmSync root fs !! p = None.
Proof.
  intros Hu. unfold rmSync. apply map_lookup_filter_None. right. intros d _ Hno. by apply Hno.
Qed.

Lemma rmSync_not_under root p fs : ¬ under root p → rmSync root fs !! p = fs !! p.
Proof.
  intros Hu. unfold rmSync. rewrite map_lookup_filter.
  destruct (fs !! p); [|done]. simpl. by rewrite option_guard_True.
Qed.

Lemma existsSync_false fs p k : existsSync fs p = false → under p k → fs !! k = None.
Proof.
  unfold existsSync. intros Hno Hu. apply bool_decide_eq_false in Hno.
  apply dec_stable in Hno.
  destruct (fs !! k) as [d|] eqn:E; [|done].
  by destruct (map_filter_empty_not_lookup _ fs k d Hno Hu).
Qed.

Lemma existsSync_lookup fs p d : fs !! p = Some d → existsSync fs p = true.
Proof.
  intros Hp. destruct (existsSync fs p) eqn:E; [done|].
  rewrite (existsSync_false fs p p E (under_refl p)) in Hp. done.
Qed.

Lemma rmSync_absent fs p : existsSync fs p = false → rmSync p fs = fs.
Proof.
  intros Hno. unfold rmSync. apply map_filter_id. intros k d Hk Hu.
  by rewrite (existsSync_false fs p k Hno Hu) in Hk.
Qed.

Lemma existsSync_rmSync fs p : existsSync (rmSync p fs) p = false.
Proof.
  unfold existsSync. apply bool_decide_eq_false. intros Hne. apply Hne.
  apply map_empty. intros k. apply map_lookup_filter_None.
  destruct (decide (under p k)) as [Hu|Hu]; [left; by apply rmSync_under|].
  right. by intros d _.
Qed.

(** [mkdirSync] changes nothing but the path it makes, and only when
    nothing was recorded there. *)
Lemma mkdirSync_lookup p fs k :
  mkdirSync p fs !! k = fs !! k
  ∨ (k = p ∧ fs !! p = None ∧ mkdirSync p fs !! p = Some (mkStoreDir false None)).
Proof.
  unfold mkdirSync. destruct (existsSync fs p) eqn:E; [by left|].
  destruct (decide (k = p)) as [->|Hk].
  - right. split; [done|]. split; [by apply (existsSync_false fs p p E), under_refl|].
    apply lookup_insert_eq.
  - left. by apply lookup_insert_ne.
Qed.

Lemma mkdirSync_present p fs d : fs !! p = Some d → mkdirSync p fs = fs.
Proof. intros Hp. unfold mkdirSync. by rewrite (existsSync_lookup fs p d Hp). Qed.

Lemma insert_mkdirSync p fs d : <[p := d]> (mkdirSync p fs) = <[p := d]> fs.
Proof. unfold mkdirSync. destruct (existsSync fs p); [done|]. apply insert_insert_eq. Qed.

(** [save] writes an index that has entries, and makes the directory and
    throws for one that has none. *)
Lemma hnswlib_save_run {S} directory h (s : S) w :
  hnsw_entries h ≠ [] →
  hnswlib.save directory h s w
  = (Return tt, s, set_files (insert directory (mkStoreDir true (Some h))) w).
Proof.
  intros Hne. unfold hnswlib.save. munfold. rewrite decide_False by done.
  unfold set_files. simpl. by rewrite insert_mkdirSync.
Qed.

Lemma hnswlib_save_empty {S} directory h (s : S) w :
  hnsw_entries h = [] →
  hnswlib.save directory h s w = (Throw HNSWLibError, s, set_files (mkdirSync directory) w).
Proof. intros He. unfold hnswlib.save. munfold. by rewrite decide_True by done. Qed.

Lemma zip_nil_inv {A B} (l : list A) (k : list B) :
  length k = length l → zip l k = [] → l = [].
Proof. by destruct l, k. Qed.

(** ** deleteCollection *)

(** [C4] (the code at the failing input) deleteCollection of LanceDBStore
    is not idempotent: on a connected store it calls dropTable without
    looking whether the table is there.  After three chunks were added, the
    first deleteCollection returns and the second throws TableNotFound; so
    does a deleteCollection right after initialize on an empty directory. *)
Theorem deleteCollection_twice_throws :
  let added := LanceDBStore.addDocuments (Scenario.chunks 3) 50
                 Scenario.lance_store Scenario.empty_world in
  let first := LanceDBStore.deleteCollection (object added) (after added) in
  let second := LanceDBStore.deleteCollection (object first) (after first) in
  let opened := LanceDBStore.initialize Scenario.lance_store Scenario.empty_world in
  outcome added = Return tt
  ∧ outcome first = Return tt
  ∧ outcome second = Throw (LanceDBError (TableNotFound "onenote_collection"))
  ∧ outcome opened = Return tt
  ∧ outcome (LanceDBStore.deleteCollection (object opened) (after opened))
    = Throw (LanceDBError (TableNotFound "onenote_collection")).
Proof. vm_compute. done. Qed.

(** On every consistent store, a deleteCollection that returns leaves a
    store that is not ready: getCollectionStats reports no rows and search
    throws NotInitializedError.  A second call throws when the store is
    connected, and does nothing when it never was. *)
Lemma deleteCollection_then_not_initialized s w query k :
  consistent s w →
  let r := LanceDBStore.deleteCollection s w in
  outcome r = Return tt →
  LanceDBStore.isReady (object r) = false
  ∧ outcome (LanceDBStore.getCollectionStats (object r) (after r))
    = Return (mkCollectionStats (LanceDBStore.tableName s) 0 (LanceDBStore.persistDirectory s))
  ∧ outcome (LanceDBStore.search query k (object r) (after r)) = Throw NotInitializedError
  ∧ outcome (LanceDBStore.deleteCollection (object r) (after r))
    = if LanceDBStore.db s is None then Return tt
      else Throw (LanceDBError (TableNotFound (LanceDBStore.tableName s))).
Proof.
  intros Hc r Hout.
  pose proof (deleteCollection_consistent s w Hc) as Hc'. fold r in Hc'.
  assert (Hready : LanceDBStore.isReady (object r) = false
                   ∧ LanceDBStore.tableName (object r) = LanceDBStore.tableName s
                   ∧ LanceDBStore.persistDirectory (object r) = LanceDBStore.persistDirectory s
                   ∧ LanceDBStore.db (object r) = LanceDBStore.db s
                   ∧ (LanceDBStore.db s ≠ None → tables (after r) !! table_key s = None)).
  { subst r. rewrite deleteCollection_run in * by done.
    destruct (consistent_cases s w Hc) as [[Hdb Htb]|[(Hdb & Htb & Hw)|(m & Hdb & Htb & [old Hw])]];
      rewrite Hdb, ?Hw in *; unfold object, after, LanceDBStore.isReady; simpl.
    - by rewrite Htb.
    - done.
    - repeat split; try done. intros _. apply lookup_delete_eq. }
  destruct Hready as (Hready & Hname & Hdir & Hdb & Hgone).
  split; [done|]. split.
  { rewrite getCollectionStats_run by done. unfold LanceDBStore.isReady in Hready.
    unfold outcome. simpl. rewrite Hname, Hdir.
    by destruct (LanceDBStore.table (object r)). }
  split.
  { by destruct (search_not_ready (object r) (after r) query k Hready)
      as [-> _]. }
  rewrite deleteCollection_run by done. rewrite Hdb.
  destruct (LanceDBStore.db s) eqn:E; [|done].
  unfold table_key in *. rewrite Hname, Hdir, Hgone by done. done.
Qed.

(** The sibling: deleteCollection of HNSWLibStore looks first.  It never
    throws, a second call changes nothing, and afterwards
    getCollectionStats reports no rows and search throws
    NotInitializedError. *)
Lemma HNSWLibStore_deleteCollection_idempotent (s : HNSWLibStore.t) (w : World) query k :
  let r := HNSWLibStore.deleteCollection s w in
  outcome r = Return tt
  ∧ HNSWLibStore.deleteCollection (object r) (after r) = r
  ∧ files (after r) !! HNSWLibStore.getStorePath s = None
  ∧ documentCount (HNSWLibStore.getCollectionStats (object r)) = 0%Z
  ∧ outcome (HNSWLibStore.search query k (object r) (after r)) = Throw NotInitializedError.
Proof.
  unfold HNSWLibStore.deleteCollection. munfold.
  destruct (existsSync (files w) (HNSWLibStore.getStorePath s)) eqn:E;
    unfold outcome, object, after; simpl.
  - change (HNSWLibStore.getStorePath (HNSWLibStore.set_vectorstore None s))
      with (HNSWLibStore.getStorePath s).
    rewrite existsSync_rmSync, (rmSync_under _ _ _ (under_refl _)). repeat split; done.
  - change (HNSWLibStore.getStorePath (HNSWLibStore.set_vectorstore None s))
      with (HNSWLibStore.getStorePath s).
    rewrite E, (existsSync_false _ _ _ E (under_refl _)). repeat split; done.
Qed.

(** ** getCollectionStats *)

(** [C6] (counterexample) HNSWLibStore does not report the number of
    persisted chunks: after one chunk was added and saved, one entry is on
    disk and getCollectionStats reports -1. *)
Lemma getCollectionStats_HNSWLib_counterexample :
  let r := HNSWLibStore.addDocuments [Scenario.chunk 0] 100
             Scenario.hnsw_store Scenario.empty_world in
  outcome r = Return tt
  ∧ (d ← files (after r) !! HNSWLibStore.getStorePath (object r);
     h ← saved_index d;
     Some (length (hnsw_entries h))) = Some 1
  ∧ documentCount (HNSWLibStore.getCollectionStats (object r)) = (-1)%Z
  ∧ documentCount (HNSWLibStore.getCollectionStats (object r)) ≠ 1%Z.
Proof. vm_compute. repeat split; done. Qed.

(** The handle of a store that only its own calls have written for has
    seen the rows on disk. *)
Lemma reachable_up_to_date s w : reachable s w → up_to_date s w.
Proof.
  induction 1 as [st dir name e w|c s w Hreach IH]; [done|].
  pose proof (reachable_consistent s w Hreach) as Hc.
  destruct c as [|documents b|query k|query k| |]; simpl.
  - rewrite initialize_run. unfold object, after, up_to_date, opened. simpl.
    destruct (tables w !! table_key s) as [rs|] eqn:E; simpl.
    + unfold table_key in *. simpl. by rewrite E.
    + unfold up_to_date in IH.
      destruct (consistent_cases s w Hc) as [[Hdb Htb]|[(Hdb & Htb & Hw)|(m & Hdb & Htb & [old Hw])]];
        [by rewrite Htb|by rewrite Htb|congruence].
  - destruct documents as [|d documents]; [done|].
    destruct (addDocuments_cases s w (d :: documents) b ltac:(done) Hc)
      as [(calls & n & _ & -> & ->)|(calls & n & rows & _ & -> & _ & ->)].
    + destruct (LanceDBStore.db s) eqn:Hdb; [done|].
      unfold up_to_date, opened. rewrite advance_tables.
      destruct (tables w !! table_key s) as [rs|] eqn:E; simpl.
      * unfold table_key in *. simpl. by rewrite E.
      * destruct (consistent_cases s w Hc) as [[_ Htb]|[(Hdb' & _)|(m & Hdb' & _)]];
          [by rewrite Htb|congruence|congruence].
    + unfold up_to_date, connected. simpl. unfold table_key. simpl. fold (table_key s).
      by rewrite lookup_insert_eq.
  - destruct (search_frame s w query k) as [Hs Hw].
    unfold forget. munfold.
    destruct (LanceDBStore.search query k s w) as [[[?|?|] s'] w'];
      unfold object, after, up_to_date in *; simpl in *; subst; by rewrite Hw.
  - destruct (searchWithScores_frame s w query k) as [Hs Hw].
    unfold forget. munfold.
    destruct (LanceDBStore.searchWithScores query k s w) as [[[?|?|] s'] w'];
      unfold object, after, up_to_date in *; simpl in *; subst; by rewrite Hw.
  - unfold forget. munfold. by rewrite getCollectionStats_run.
  - rewrite deleteCollection_run by done.
    destruct (LanceDBStore.db s); [|done].
    by destruct (tables w !! table_key s).
Qed.

(** [C6] (amended) getCollectionStats never fails, changes nothing and
    returns the collection name, the storage directory and a count.  For
    LanceDBStore, in every state of the store and of the disk, the count is
    0 when no table is open and otherwise the number of rows the table
    handle has seen last; in every state that the calls on one store reach
    from a new store, that is the number of rows of the table on disk.  For
    HNSWLibStore the count is 0 when no index is loaded and -1 (unknown)
    otherwise. *)
Theorem getCollectionStats_never_fails
    (s : LanceDBStore.t) (w : World) (h : HNSWLibStore.t) :
  (∃ count,
      LanceDBStore.getCollectionStats s w
      = (Return (mkCollectionStats (LanceDBStore.tableName s) count
                   (LanceDBStore.persistDirectory s)), s, w)
      ∧ (LanceDBStore.isReady s = false → count = 0%Z)
      ∧ (∀ tb, LanceDBStore.table s = Some tb → count = Z.of_nat (lancedb.seen tb))
      ∧ (reachable s w → LanceDBStore.isReady s = true →
         ∃ rows, tables w !! table_key s = Some rows ∧ count = Z.of_nat (length rows)))
  ∧ HNSWLibStore.getCollectionStats h
    = mkCollectionStats (HNSWLibStore.collectionName h)
        (if HNSWLibStore.isReady h then (-1)%Z else 0%Z)
        (HNSWLibStore.persistDirectory h).
Proof.
  split.
  - eexists. split; [apply getCollectionStats_run|]. unfold LanceDBStore.isReady.
    split; [by destruct (LanceDBStore.table s)|]. split; [by intros tb ->|].
    intros Hreach%reachable_up_to_date Hready. unfold up_to_date in Hreach.
    destruct (LanceDBStore.table s) as [tb|]; [|done].
    destruct (tables w !! table_key s) as [rows|]; [|done].
    exists rows. split; [done|]. simpl in Hreach. by injection Hreach as <-.
  - unfold HNSWLibStore.getCollectionStats, HNSWLibStore.isReady.
    by destruct (HNSWLibStore.vectorstore h).
Qed.

(** After five chunks were added to a new store: five rows are reported. *)
Lemma getCollectionStats_after_five_chunks :
  let r := LanceDBStore.addDocuments (Scenario.chunks 5) 2
             Scenario.lance_store Scenario.empty_world in
  reachable (object r) (after r)
  ∧ outcome (LanceDBStore.getCollectionStats (object r) (after r))
    = Return (mkCollectionStats "onenote_collection" 5 "./data/chroma_db")
  ∧ HNSWLibStore.getCollectionStats Scenario.hnsw_store
    = mkCollectionStats "onenote_collection" 0 "./data/chroma_db".
Proof.
  assert (Hreach : let r := LanceDBStore.addDocuments (Scenario.chunks 5) 2
                              Scenario.lance_store Scenario.empty_world in
                   reachable (object r) (after r)).
  { apply (reach_call (CallAddDocuments (Scenario.chunks 5) 2)). apply reach_new. }
  cbv zeta in *. split; [exact Hreach|].
  destruct (getCollectionStats_never_fails
              (object (LanceDBStore.addDocuments (Scenario.chunks 5) 2
                         Scenario.lance_store Scenario.empty_world))
              (after (LanceDBStore.addDocuments (Scenario.chunks 5) 2
                        Scenario.lance_store Scenario.empty_world))
              Scenario.hnsw_store)
    as [(count & -> & _ & _ & Hcount) ->].
  destruct (Hcount Hreach eq_refl) as (rows & Hrows & ->).
  vm_compute in Hrows. injection Hrows as <-. vm_compute. done.
Defined.

(** A handle outlives its table: when another store object has dropped the
    table, getCollectionStats still answers, with the count the handle has
    seen last. *)
Lemma getCollectionStats_after_foreign_drop :
  let added := LanceDBStore.addDocuments (Scenario.chunks 3) 50
                 Scenario.lance_store Scenario.empty_world in
  let other := LanceDBStore.initialize Scenario.lance_store (after added) in
  let dropped := LanceDBStore.deleteCollection (object other) (after other) in
  outcome dropped = Return tt
  ∧ tables (after dropped) !! table_key Scenario.lance_store = None
  ∧ outcome (LanceDBStore.getCollectionStats (object added) (after dropped))
    = Return (mkCollectionStats "onenote_collection" 3 "./data/chroma_db").
Proof. vm_compute. done. Qed.

(** ** search with a falsy k *)

Lemma search_run s w query k :
  consistent s w → LanceDBStore.isReady s = true →
  is_Some (embedQuery_of (LanceDBStore.embeddings s) (length (queryCalls w)) query) →
  let qv := default [] (embedQuery_of (LanceDBStore.embeddings s)
                          (length (queryCalls w)) query) in
  let ranked := rank w qv (default [] (tables w !! table_key s)) in
  let n := or_number k (retrievalK (app (settings w))) in
  LanceDBStore.search query k s w
  = (Return (map (λ r, LanceDBStore.toDocument r.1) (take n ranked)), s, log_queryCall query w)
  ∧ LanceDBStore.searchWithScores query k s w
    = (Return (map (λ r, (LanceDBStore.toDocument r.1, r.2)) (take n ranked)), s,
       log_queryCall query w).
Proof.
  intros Hc Hready [qv Hqv]. cbv zeta.
  unfold LanceDBStore.isReady in Hready.
  destruct (consistent_cases s w Hc) as [[Hdb Htb]|[(Hdb & Htb & Hw)|(m & Hdb & Htb & [rows Hw])]];
    try (rewrite Htb in Hready; discriminate).
  unfold LanceDBStore.search, LanceDBStore.searchWithScores, embedQuery,
    lancedb.vectorSearch_limit, lancedb.rows, lancedb.rows_of, lancedb.key.
  munfold. rewrite Htb, Hqv. munfold. simpl. fold (table_key s).
  by rewrite Hw.
Qed.

(** [C10] k = 0 is falsy: search and searchWithScores with k = 0 do what
    they do when k is omitted.  On a ready store the result is the first
    retrievalK ranked rows (all of them when there are fewer), not an empty
    list. *)
Theorem search_k_zero_uses_retrievalK (s : LanceDBStore.t) (w : World) (query : string) :
  consistent s w → LanceDBStore.isReady s = true →
  is_Some (embedQuery_of (LanceDBStore.embeddings s) (length (queryCalls w)) query) →
  let qv := default [] (embedQuery_of (LanceDBStore.embeddings s)
                          (length (queryCalls w)) query) in
  let ranked := rank w qv (default [] (tables w !! table_key s)) in
  let K := retrievalK (app (settings w)) in
  LanceDBStore.search query (Some 0) s w = LanceDBStore.search query None s w
  ∧ LanceDBStore.searchWithScores query (Some 0) s w
    = LanceDBStore.searchWithScores query None s w
  ∧ outcome (LanceDBStore.search query (Some 0) s w)
    = Return (map (λ r, LanceDBStore.toDocument r.1) (take K ranked))
  ∧ outcome (LanceDBStore.searchWithScores query (Some 0) s w)
    = Return (map (λ r, (LanceDBStore.toDocument r.1, r.2)) (take K ranked))
  ∧ length (take K ranked) = K `min` length ranked.
Proof.
  intros Hc Hready Hq. cbv zeta.
  destruct (search_run s w query (Some 0) Hc Hready Hq) as [H0 H0'].
  destruct (search_run s w query None Hc Hready Hq) as [HN HN'].
  rewrite H0, H0', HN, HN'. repeat split; try done. apply length_take.
Qed.

(** Five chunks in the store and retrievalK = 4: k = 0 returns four. *)
Lemma search_k_zero_returns_four :
  let r := LanceDBStore.addDocuments (Scenario.chunks 5) 2
             Scenario.lance_store Scenario.empty_world in
  (length <$> (if outcome (LanceDBStore.search "notes" (Some 0) (object r) (after r))
               is Return docs then Some docs else None)) = Some 4
  ∧ LanceDBStore.search "notes" (Some 0) (object r) (after r)
    = LanceDBStore.search "notes" None (object r) (after r).
Proof.
  set (r := LanceDBStore.addDocuments (Scenario.chunks 5) 2
              Scenario.lance_store Scenario.empty_world).
  assert (Hc : consistent (object r) (after r)).
  { vm_compute. repeat split. by eexists. }
  assert (Hready : LanceDBStore.isReady (object r) = true) by (vm_compute; reflexivity).
  assert (Hq : is_Some (embedQuery_of (LanceDBStore.embeddings (object r))
                          (length (queryCalls (after r))) "notes"))
    by (eexists; vm_compute; reflexivity).
  destruct (search_k_zero_uses_retrievalK (object r) (after r) "notes" Hc Hready Hq)
    as (Heq & _ & Hout & _ & _).
  cbv zeta. split; [|exact Heq].
  rewrite Hout. vm_compute. reflexivity.
Defined.

(** ** A rejected batch *)

Lemma batches_take {A} b n k (l : list A) : k ≤ n → take k (batches b n l) = batches b k l.
Proof.
  revert n l. induction k as [|k IH]; intros n l Hk; [done|].
  destruct n as [|n]; [lia|]. simpl. rewrite IH by lia. done.
Qed.

Lemma embedLoop_rejects documents b : 0 < b → ∀ k fuel i records s w,
  length documents - i ≤ fuel →
  i + k * b < length documents →
  (∀ j, j < k →
        is_Some (embedDocuments_of (LanceDBStore.embeddings s) (length (embedCalls w) + j)
                   (map pageContent (slice documents (i + j * b) (i + j * b + b))))) →
  embedDocuments_of (LanceDBStore.embeddings s) (length (embedCalls w) + k)
    (map pageContent (slice documents (i + k * b) (i + k * b + b))) = None →
  ∃ n, LanceDBStore.embedLoop fuel documents b i records s w
       = (Throw EmbeddingProviderError, s,
          advance (map (map pageContent) (batches b (S k) (drop i documents))) n w).
Proof.
  intros Hb k. induction k as [|k IH]; intros fuel i records s w Hfuel Hi Hok Hfail.
  - destruct fuel as [|fuel]; [lia|]. simpl.
    rewrite decide_True by lia. unfold embedDocuments. munfold.
    rewrite Nat.add_0_r in Hfail. simpl in Hfail. rewrite Nat.add_0_r in Hfail.
    rewrite Hfail. exists 0. rewrite slice_from.
    unfold advance, log_embedCall. simpl. do 2 f_equal. lia.
  - destruct fuel as [|fuel]; [lia|]. simpl.
    rewrite decide_True by lia. unfold embedDocuments. munfold.
    destruct (Hok 0 ltac:(lia)) as [vs Hvs].
    rewrite Nat.add_0_r in Hvs. simpl in Hvs. rewrite Nat.add_0_r in Hvs.
    rewrite Hvs. munfold. rewrite pushRecords_run.
    set (batch := slice documents i (i + b)).
    destruct (IH fuel (i + b)
                (records ++ rows_from (idSupply (log_embedCall (map pageContent batch) w))
                               (generated (log_embedCall (map pageContent batch) w)) 0 vs
                               batch)
                s (advance [] (length batch) (log_embedCall (map pageContent batch) w)))
      as [n Hn].
    + lia.
    + lia.
    + intros j Hj. destruct (Hok (S j) ltac:(lia)) as [vs' Hvs']. exists vs'.
      rewrite <- Hvs'. simpl. rewrite app_nil_r, length_app. simpl.
      f_equal; [lia|]. do 2 f_equal; lia.
    + rewrite <- Hfail. simpl. rewrite app_nil_r, length_app. simpl.
      f_equal; [lia|]. do 2 f_equal; lia.
    + exists (length batch + n). rewrite Hn. f_equal.
      unfold advance, log_embedCall. simpl. rewrite drop_drop. subst batch.
      rewrite slice_from, !drop_drop. f_equal.
      * by rewrite app_nil_r, <- app_assoc.
      * lia.
Qed.

(** [C2] (counterexample) Three chunks in batches of two, with a provider
    that serves the first batch and rejects the second: addDocuments throws
    EmbeddingProviderError after both calls, and the first batch is not in
    the store; no table exists at all. *)
Lemma addDocuments_completed_batch_not_committed :
  let r := LanceDBStore.addDocuments (Scenario.chunks 3) 2
             Scenario.failing_lance_store Scenario.empty_world in
  outcome r = Throw EmbeddingProviderError
  ∧ map length (embedCalls (after r)) = [2; 1]
  ∧ tables (after r) !! table_key Scenario.failing_lance_store = None
  ∧ LanceDBStore.isReady (object r) = false
  ∧ ¬ (∃ rows, tables (after r) !! table_key Scenario.failing_lance_store = Some rows
               ∧ 2 ≤ length rows).
Proof.
  vm_compute. repeat split; try done. intros (rows & H & _). discriminate.
Qed.

(** [C2] (amended) addDocuments embeds every batch before it writes
    anything.  When the provider serves the first k batches of a call and
    rejects the next one, addDocuments throws EmbeddingProviderError after
    k + 1 provider calls and the tables on disk are what they were before
    the call: none of the k embedded batches has been written. *)
Theorem addDocuments_writes_only_after_all_batches
    (s : LanceDBStore.t) (w : World) (documents : list Document) (b k : nat) :
  consistent s w → 0 < b →
  k * b < length documents →
  (∀ j, j < k →
        is_Some (embedDocuments_of (LanceDBStore.embeddings s) (length (embedCalls w) + j)
                   (map pageContent (slice documents (j * b) (j * b + b))))) →
  embedDocuments_of (LanceDBStore.embeddings s) (length (embedCalls w) + k)
    (map pageContent (slice documents (k * b) (k * b + b))) = None →
  let r := LanceDBStore.addDocuments documents b s w in
  outcome r = Throw EmbeddingProviderError
  ∧ embedCalls (after r)
    = embedCalls w ++ take (S k) (partition b (map pageContent documents))
  ∧ tables (after r) = tables w
  ∧ LanceDBStore.isReady (object r)
    = LanceDBStore.isReady (if LanceDBStore.db s is None then opened s w else s).
Proof.
  intros Hc Hb Hk Hok Hfail r.
  assert (Hne : documents ≠ []) by (intros ->; simpl in Hk; lia).
  set (s0 := if LanceDBStore.db s is None then opened s w else s).
  assert (He : LanceDBStore.embeddings s0 = LanceDBStore.embeddings s).
  { subst s0. destruct (LanceDBStore.db s); [done|apply opened_embeddings]. }
  destruct (embedLoop_rejects documents b Hb k (length documents) 0 [] s0 w) as [n Hn].
  - lia.
  - simpl. lia.
  - intros j Hj. rewrite He. by apply Hok.
  - by rewrite He.
  - assert (Hr : r = (Throw EmbeddingProviderError, s0,
                      advance (map (map pageContent) (batches b (S k) documents)) n w)).
    { subst r. unfold LanceDBStore.addDocuments.
      rewrite decide_False by (destruct documents; simpl; [done|lia]).
      munfold. subst s0.
      destruct (LanceDBStore.db s); [|rewrite initialize_run];
        rewrite drop_0 in Hn; by rewrite Hn. }
    rewrite Hr. unfold outcome, object, after. simpl.
    repeat split; try done.
    f_equal. rewrite <- partition_fmap. unfold partition.
    rewrite <- fmap_take, batches_take; [done|].
    apply ceil_div_lt; [done|]. lia.
Qed.

(** The counterexample's input, through the amended statement. *)
Lemma addDocuments_second_batch_rejected :
  let r := LanceDBStore.addDocuments (Scenario.chunks 3) 2
             Scenario.failing_lance_store Scenario.empty_world in
  outcome r = Throw EmbeddingProviderError
  ∧ tables (after r) = tables Scenario.empty_world.
Proof.
  assert (Hc : consistent Scenario.failing_lance_store Scenario.empty_world) by exact I.
  assert (Hb : 0 < 2) by lia.
  assert (Hk : 1 * 2 < length (Scenario.chunks 3)) by (vm_compute; lia).
  assert (Hok : ∀ j, j < 1 →
            is_Some (embedDocuments_of (LanceDBStore.embeddings Scenario.failing_lance_store)
                       (length (embedCalls Scenario.empty_world) + j)
                       (map pageContent
                          (slice (Scenario.chunks 3) (j * 2) (j * 2 + 2))))).
  { intros j Hj. assert (j = 0) as -> by lia. eexists. vm_compute. reflexivity. }
  assert (Hfail : embedDocuments_of (LanceDBStore.embeddings Scenario.failing_lance_store)
                    (length (embedCalls Scenario.empty_world) + 1)
                    (map pageContent (slice (Scenario.chunks 3) (1 * 2) (1 * 2 + 2)))
                  = None) by reflexivity.
  destruct (addDocuments_writes_only_after_all_batches
              Scenario.failing_lance_store Scenario.empty_world (Scenario.chunks 3) 2 1
              Hc Hb Hk Hok Hfail) as (Hout & _ & Htables & _).
  cbv zeta. split; [exact Hout|exact Htables].
Defined.

(** ** QAChain: where a missing API key shows *)

(** [C7] (counterexample) Without OPENAI_API_KEY the constructor of
    QAChain throws: there is no QAChain object whose ask could be called,
    so the error is not raised by ask. *)
Lemma QAChain_without_key_fails_in_constructor :
  QAChain.new Scenario.config_without_key Scenario.hnsw_store QAChain.openai_llm None 0 None
  = Err NotConfiguredError
  ∧ ¬ (∃ chain w,
          QAChain.new Scenario.config_without_key Scenario.hnsw_store QAChain.openai_llm
            None 0 None = Ok chain
          ∧ outcome (QAChain.ask "what did I write on Monday" false chain w)
            = Throw NotConfiguredError).
Proof.
  split; [reflexivity|]. intros (chain & w & Hnew & _). discriminate.
Qed.

Lemma ask_outcome (chain : QAChain.t) question returnSources w :
  (∃ result, outcome (QAChain.ask question returnSources chain w) = Return result)
  ∨ outcome (QAChain.ask question returnSources chain w) = Throw NotInitializedError
  ∨ outcome (QAChain.ask question returnSources chain w) = Throw EmbeddingProviderError
  ∨ outcome (QAChain.ask question returnSources chain w) = Throw LanguageModelError.
Proof.
  unfold QAChain.ask, QAChain.ensureInitialized, QAChain.initialize, QAChain.on_vectorstore,
    HNSWLibStore.asRetriever, QAChain.invoke, hnswlib.getRelevantDocuments,
    hnswlib.similaritySearch, hnswlib.similaritySearchWithScore, embedQuery.
  munfold. unfold outcome.
  repeat (case_match; munfold; simplify_eq; simpl in *); eauto 10.
Qed.

(** [C7] (amended) When the API key of the default provider is missing,
    constructing the QAChain fails with NotConfiguredError, whatever the
    other arguments are, and no QAChain can be constructed for any model
    type; the error is raised by the constructor.  ask, on any QAChain
    there is, never throws NotConfiguredError. *)
Theorem QAChain_not_configured_at_construction
    (st : Settings) (vs : HNSWLibStore.t) (modelName : option string) (temperature : Z)
    (promptTemplate : option string) :
  apiKey (openai st) = "" →
  QAChain.new st vs QAChain.openai_llm modelName temperature promptTemplate
  = Err NotConfiguredError
  ∧ (∀ llmType chain,
        QAChain.new st vs llmType modelName temperature promptTemplate ≠ Ok chain)
  ∧ (∀ (chain : QAChain.t) question returnSources w,
        outcome (QAChain.ask question returnSources chain w) ≠ Throw NotConfiguredError).
Proof.
  intros Hkey. unfold QAChain.new, QAChain.createLLM. rewrite Hkey. simpl.
  split; [done|]. split.
  - by intros [| |name] chain.
  - intros chain question returnSources w.
    destruct (ask_outcome chain question returnSources w) as [[r H]|[H|[H|H]]];
      by rewrite H.
Qed.

Lemma QAChain_without_key :
  apiKey (openai Scenario.config_without_key) = ""
  ∧ QAChain.new Scenario.config_without_key Scenario.hnsw_store QAChain.openai_llm
      None 0 None = Err NotConfiguredError.
Proof.
  assert (Hkey : apiKey (openai Scenario.config_without_key) = "") by reflexivity.
  split; [exact Hkey|].
  exact (proj1 (QAChain_not_configured_at_construction
                  Scenario.config_without_key Scenario.hnsw_store None 0 None Hkey)).
Defined.

(** ** OneNoteLoader: a page that cannot be loaded *)

Ltac gunfold :=
  unfold mbind, mret, OneNoteLoader.Gen_bind, OneNoteLoader.Gen_ret, OneNoteLoader.gbind,
    OneNoteLoader.gret, OneNoteLoader.emit, OneNoteLoader.gawait, OneNoteLoader.gtry in *.

Section loader.
Import OneNoteLoader.
Variable g : Graph.

(** loadPage writes nothing itself. *)
Lemma loadPage_silent pageInfo nbName secName : (loadPage g pageInfo nbName secName).1 = [].
Proof.
  unfold loadPage, getPageContent, htmlToText. gunfold.
  destruct (content g (pi_id pageInfo)); [|done]. simpl.
  by destruct (cheerio_text g _).
Qed.

(** One turn of the page loop. *)
Lemma forPages_cons nbName secName pageInfo rest :
  forPages g nbName secName (pageInfo :: rest)
  = (match (loadPage g pageInfo nbName secName).2 with
     | Ok page => [LogPage (title page); Yield page]
     | Err e => [LogPageFailed (or_string (Some (pi_title pageInfo)) "unknown") e]
     end ++ (forPages g nbName secName rest).1,
     (forPages g nbName secName rest).2).
Proof.
  simpl. pose proof (loadPage_silent pageInfo nbName secName) as Hsilent.
  gunfold. destruct (loadPage g pageInfo nbName secName) as [tr [page|e]];
    simpl in *; subst tr; by destruct (forPages g nbName secName rest).
Qed.

Lemma forPages_ok nbName secName pages : (forPages g nbName secName pages).2 = Ok tt.
Proof. induction pages as [|p pages IH]; [done|]. by rewrite forPages_cons. Qed.

Lemma forPages_app nbName secName pages1 pages2 :
  (forPages g nbName secName (pages1 ++ pages2)).1
  = (forPages g nbName secName pages1).1 ++ (forPages g nbName secName pages2).1.
Proof.
  induction pages1 as [|p pages1 IH]; [done|].
  rewrite <- app_comm_cons, !forPages_cons. simpl. by rewrite IH, app_assoc.
Qed.

Lemma yielded_app tr1 tr2 : yielded (tr1 ++ tr2) = yielded tr1 ++ yielded tr2.
Proof. apply omap_app. Qed.

Lemma forPages_yields nbName secName pages p page :
  p ∈ pages → (loadPage g p nbName secName).2 = Ok page →
  page ∈ yielded (forPages g nbName secName pages).1.
Proof.
  intros Hin Hload. induction pages as [|q pages IH]; [by apply elem_of_nil in Hin|].
  rewrite forPages_cons. cbn [fst]. rewrite yielded_app.
  apply elem_of_app. apply elem_of_cons in Hin as [<-|Hin].
  - left. rewrite Hload. simpl. constructor.
  - right. by apply IH.
Qed.
End loader.

Section loader_end.
Import OneNoteLoader.

Lemma forSections_cons_end g sectionName nbName sec rest :
  (forSections g sectionName nbName (sec :: rest)).2
  = if filtered_out sectionName (sec_displayName sec)
    then (forSections g sectionName nbName rest).2
    else match pages g (sec_id sec) with
         | Ok _ => (forSections g sectionName nbName rest).2
         | Err e => Err e
         end.
Proof.
  simpl. unfold listPages. gunfold.
  destruct (filtered_out sectionName (sec_displayName sec)).
  - by destruct (forSections g sectionName nbName rest).
  - destruct (pages g (sec_id sec)) as [ps|e]; [|done].
    pose proof (forPages_ok g nbName (sec_displayName sec) ps) as Hok.
    destruct (forPages g nbName (sec_displayName sec) ps) as [tr [[]|e]];
      simpl in *; [|done].
    by destruct (forSections g sectionName nbName rest).
Qed.

Lemma forNotebooks_cons_end g notebookName sectionName nb rest :
  (forNotebooks g notebookName sectionName (nb :: rest)).2
  = if filtered_out notebookName (nb_displayName nb)
    then (forNotebooks g notebookName sectionName rest).2
    else match sections g (nb_id nb) with
         | Ok secs =>
             match (forSections g sectionName (nb_displayName nb) secs).2 with
             | Ok _ => (forNotebooks g notebookName sectionName rest).2
             | Err e => Err e
             end
         | Err e => Err e
         end.
Proof.
  simpl. unfold listSections. gunfold.
  destruct (filtered_out notebookName (nb_displayName nb)).
  - by destruct (forNotebooks g notebookName sectionName rest).
  - destruct (sections g (nb_id nb)) as [secs|e]; [|done].
    destruct (forSections g sectionName (nb_displayName nb) secs) as [tr [[]|e]];
      simpl in *; [|done].
    by destruct (forNotebooks g notebookName sectionName rest).
Qed.

(** How a run ends is decided by the listings alone. *)
Variables g g' : Graph.
Hypothesis same_notebooks : notebooks g = notebooks g'.
Hypothesis same_sections : sections g = sections g'.
Hypothesis same_pages : pages g = pages g'.

Lemma forSections_end sectionName nbName secs :
  (forSections g sectionName nbName secs).2 = (forSections g' sectionName nbName secs).2.
Proof.
  induction secs as [|sec secs IH]; [done|].
  by rewrite !forSections_cons_end, IH, same_pages.
Qed.

Lemma forNotebooks_end notebookName sectionName nbs :
  (forNotebooks g notebookName sectionName nbs).2
  = (forNotebooks g' notebookName sectionName nbs).2.
Proof.
  induction nbs as [|nb nbs IH]; [done|].
  rewrite !forNotebooks_cons_end, IH, same_sections.
  destruct (filtered_out _ _); [done|]. destruct (sections g' _); [|done].
  by rewrite forSections_end.
Qed.

Lemma iterPages_end notebookName sectionName :
  (iterPages g notebookName sectionName).2 = (iterPages g' notebookName sectionName).2.
Proof.
  unfold iterPages, listNotebooks. gunfold. rewrite same_notebooks.
  destruct (notebooks g') as [nbs|e]; [|done].
  pose proof (forNotebooks_end notebookName sectionName nbs) as Hend.
  destruct (forNotebooks g notebookName sectionName nbs),
           (forNotebooks g' notebookName sectionName nbs). done.
Qed.
End loader_end.

(** * Further properties *)

(** ** LanceDBStore: the batch loop *)

Lemma embedLoop_zero documents : documents ≠ [] → ∀ fuel records s w,
  (∀ n, is_Some (embedDocuments_of (LanceDBStore.embeddings s) n [])) →
  LanceDBStore.embedLoop fuel documents 0 0 records s w
  = (Diverge, s, advance (replicate fuel []) 0 w).
Proof.
  intros Hne fuel. induction fuel as [|fuel IH]; intros records s w Hok.
  - simpl. rewrite decide_True by (destruct documents; simpl; [done|lia]).
    by rewrite advance_0.
  - simpl. rewrite decide_True by (destruct documents; simpl; [done|lia]).
    unfold slice. simpl.
    unfold embedDocuments. munfold.
    destruct (Hok (length (embedCalls w))) as [vs Hvs]. rewrite Hvs. munfold.
    rewrite IH by done. f_equal.
    unfold advance, log_embedCall. simpl. f_equal. by rewrite <- app_assoc.
Qed.

Lemma addDocuments_unfold s w documents b :
  documents ≠ [] →
  LanceDBStore.addDocuments documents b s w
  = (rows ← LanceDBStore.embedLoop (length documents) documents b 0 [];
     s' ← this;
     match LanceDBStore.table s' with
     | None =>
         match LanceDBStore.db s' with
         | Some c =>
             tb ← lancedb.createTable c (LanceDBStore.tableName s') rows;
             assign (LanceDBStore.set_table (Some tb))
         | None => throw TypeError
         end
     | Some tb =>
         tb' ← lancedb.add tb rows;
         assign (LanceDBStore.set_table (Some tb'))
     end) (if LanceDBStore.db s is None then opened s w else s) w.
Proof.
  intros Hne. unfold LanceDBStore.addDocuments.
  rewrite decide_False by (destruct documents; simpl; [done|lia]).
  munfold. destruct (LanceDBStore.db s); [done|]. by rewrite initialize_run.
Qed.

(** [X1] With batchSize = 0 and a non-empty list, addDocuments never
    returns: the loop index does not advance, every turn sends an empty
    batch to the provider, and nothing is written.  (When the provider
    answers empty batches; for every amount of fuel the loop is still
    running.) *)
Theorem addDocuments_batchSize_zero_never_returns
    (s : LanceDBStore.t) (w : World) (documents : list Document) :
  documents ≠ [] →
  (∀ n, is_Some (embedDocuments_of (LanceDBStore.embeddings s) n [])) →
  (∀ fuel records w',
      outcome (LanceDBStore.embedLoop fuel documents 0 0 records s w') = Diverge
      ∧ embedCalls (after (LanceDBStore.embedLoop fuel documents 0 0 records s w'))
        = embedCalls w' ++ replicate fuel [])
  ∧ outcome (LanceDBStore.addDocuments documents 0 s w) = Diverge
  ∧ tables (after (LanceDBStore.addDocuments documents 0 s w)) = tables w.
Proof.
  intros Hne Hok. split.
  - intros fuel records w'. by rewrite embedLoop_zero.
  - rewrite addDocuments_unfold by done. munfold.
    rewrite embedLoop_zero; [done|done|].
    destruct (LanceDBStore.db s); [done|]. by rewrite opened_embeddings.
Qed.

Lemma addDocuments_batchSize_zero_three_chunks :
  outcome (LanceDBStore.addDocuments (Scenario.chunks 3) 0
             Scenario.lance_store Scenario.empty_world) = Diverge
  ∧ tables (after (LanceDBStore.addDocuments (Scenario.chunks 3) 0
                     Scenario.lance_store Scenario.empty_world)) = ∅.
Proof.
  assert (Hne : Scenario.chunks 3 ≠ []) by discriminate.
  assert (Hok : ∀ n, is_Some (embedDocuments_of
                                (LanceDBStore.embeddings Scenario.lance_store) n []))
    by (intros; eexists; reflexivity).
  destruct (addDocuments_batchSize_zero_never_returns
              Scenario.lance_store Scenario.empty_world (Scenario.chunks 3) Hne Hok)
    as (_ & Hout & Htables).
  split; [exact Hout|exact Htables].
Defined.

(** With a batch size of at least 1 the loop ends with the fuel
    [addDocuments] gives it, whatever the provider does; what it has sent
    to the provider by then are the first batches of the partition, all of
    them when it returns. *)
Lemma embedLoop_calls documents b : 0 < b → ∀ fuel i records s w,
  length documents - i ≤ fuel →
  let r := LanceDBStore.embedLoop fuel documents b i records s w in
  let calls := map (map pageContent) (partition b (drop i documents)) in
  outcome r ≠ Diverge
  ∧ tables (after r) = tables w
  ∧ (∃ k, embedCalls (after r) = embedCalls w ++ take k calls)
  ∧ (∀ rows, outcome r = Return rows → embedCalls (after r) = embedCalls w ++ calls).
Proof.
  intros Hb fuel. induction fuel as [|fuel IH]; intros i records s w Hfuel; simpl.
  - rewrite decide_False by lia. unfold outcome, after. simpl.
    rewrite drop_ge by lia. rewrite partition_nil by done. simpl.
    split; [done|]. split; [done|]. split; [exists 0|]; by rewrite app_nil_r.
  - destruct (decide (i < length documents)) as [Hi|Hi].
    2:{ unfold outcome, after. simpl.
        rewrite drop_ge by lia. rewrite partition_nil by done. simpl.
        split; [done|]. split; [done|]. split; [exists 0|]; by rewrite app_nil_r. }
    rewrite slice_from.
    assert (Hne : drop i documents ≠ []).
    { intros E. apply (f_equal length) in E. rewrite length_drop in E. simpl in E. lia. }
    rewrite (partition_cons b (drop i documents)) by done.
    set (batch := take b (drop i documents)).
    unfold embedDocuments. munfold.
    destruct (embedDocuments_of _ _ _) as [vs|]; munfold.
    + rewrite pushRecords_run.
      set (w1 := advance [] (length batch) (log_embedCall (map pageContent batch) w)).
      destruct (IH (i + b)
                  (records ++ rows_from (idSupply (log_embedCall (map pageContent batch) w))
                                 (generated (log_embedCall (map pageContent batch) w)) 0 vs
                                 batch)
                  s w1 ltac:(lia)) as (Hout & Htab & [k Hk] & Hall).
      rewrite drop_drop. split; [done|]. split; [by rewrite Htab|].
      assert (Hw1 : embedCalls w1 = embedCalls w ++ [map pageContent batch])
        by (subst w1; simpl; by rewrite app_nil_r).
      split.
      * exists (S k). rewrite Hk, Hw1, <- app_assoc. done.
      * intros rows Hrows. rewrite (Hall rows Hrows), Hw1, <- app_assoc. done.
    + unfold outcome, after. simpl. split; [done|]. split; [done|].
      split; [by exists 1|done].
Qed.

(** [X2] With a batch size of at least 1, addDocuments always comes back,
    in every state of the store and whatever the provider and LanceDB
    answer.  By then it has sent to the provider the first batches of the
    partition of the texts, in order, and nothing else: at most ceil(N/b)
    calls; when it returns, all of them. *)
Theorem addDocuments_always_comes_back
    (s : LanceDBStore.t) (w : World) (documents : list Document) (b : nat) :
  0 < b →
  let r := LanceDBStore.addDocuments documents b s w in
  let calls := partition b (map pageContent documents) in
  outcome r ≠ Diverge
  ∧ length calls = ceil_div (length documents) b
  ∧ (∃ k, embedCalls (after r) = embedCalls w ++ take k calls)
  ∧ (outcome r = Return tt → embedCalls (after r) = embedCalls w ++ calls).
Proof.
  intros Hb r calls.
  assert (Hlen : length calls = ceil_div (length documents) b)
    by (unfold calls, partition; by rewrite batches_length, length_map).
  destruct documents as [|d documents].
  { subst r calls. change (map pageContent []) with (@nil string).
    rewrite partition_nil in * by done. unfold outcome, after. simpl.
    split; [done|]. split; [done|]. split; [exists 0|]; by rewrite app_nil_r. }
  assert (Hcalls : calls = map (map pageContent) (partition b (drop 0 (d :: documents))))
    by (symmetry; apply partition_fmap).
  subst r. rewrite addDocuments_unfold by done.
  set (s0 := if LanceDBStore.db s is None then opened s w else s).
  pose proof (embedLoop_calls (d :: documents) b Hb (length (d :: documents)) 0 [] s0 w
                ltac:(lia)) as (Hout & _ & Hsome & Hall).
  rewrite <- Hcalls in Hsome, Hall.
  munfold.
  destruct (LanceDBStore.embedLoop (length (d :: documents)) (d :: documents) b 0 [] s0 w)
    as [[[rows|e|] s1] w1]; unfold outcome, after in *; simpl in *; [|done|done].
  specialize (Hall rows eq_refl).
  assert (Hwrite : ∀ (m : M LanceDBStore.t unit),
            m = match LanceDBStore.table s1 with
                | Some tb =>
                    λ s' w', match lancedb.add (S:=LanceDBStore.t) tb rows s' w' with
                             | (Return tb', s'', w'') =>
                                 (Return tt, LanceDBStore.set_table (Some tb') s'', w'')
                             | (Throw e, s'', w'') => (Throw e, s'', w'')
                             | (Diverge, s'', w'') => (Diverge, s'', w'')
                             end
                | None =>
                    match LanceDBStore.db s1 with
                    | Some c =>
                        λ s' w',
                        match lancedb.createTable (S:=LanceDBStore.t) c
                                (LanceDBStore.tableName s1) rows s' w' with
                        | (Return tb, s'', w'') =>
                            (Return tt, LanceDBStore.set_table (Some tb) s'', w'')
                        | (Throw e, s'', w'') => (Throw e, s'', w'')
                        | (Diverge, s'', w'') => (Diverge, s'', w'')
                        end
                    | None => λ s' w', (Throw TypeError, s', w')
                    end
                end →
            (m s1 w1).1.1 ≠ Diverge ∧ embedCalls (m s1 w1).2 = embedCalls w1).
  { intros m ->. unfold lancedb.add, lancedb.createTable, lancedb.rows, lancedb.rows_of.
    munfold. repeat (case_match; simplify_eq/=); done. }
  edestruct Hwrite as [Hnd Hsame]; [reflexivity|].
  split; [exact Hnd|]. split; [done|]. rewrite Hsame. split; [done|by intros _].
Qed.

Lemma addDocuments_failing_provider_throws :
  let r := LanceDBStore.addDocuments (Scenario.chunks 3) 2
             Scenario.failing_lance_store Scenario.empty_world in
  0 < 2
  ∧ outcome r = Throw EmbeddingProviderError
  ∧ outcome r ≠ Diverge
  ∧ ∃ k, embedCalls (after r)
         = embedCalls Scenario.empty_world
           ++ take k (partition 2 (map pageContent (Scenario.chunks 3))).
Proof.
  assert (Hb : 0 < 2) by lia.
  destruct (addDocuments_always_comes_back
              Scenario.failing_lance_store Scenario.empty_world (Scenario.chunks 3) 2 Hb)
    as (Hout & _ & Hcalls & _).
  cbv zeta. split; [exact Hb|]. split; [vm_compute; reflexivity|].
  split; [exact Hout|exact Hcalls].
Defined.

(** ** LanceDBStore: adding twice, deleting, searching *)

Lemma rows_from_text ids g j vectors rest :
  map text (rows_from ids g j vectors rest) = map pageContent rest.
Proof.
  revert g j. induction rest as [|d rest IH]; intros g j; simpl; [done|]. by rewrite IH.
Qed.

Lemma expected_rows_text e ids bs : ∀ c g,
  map text (expected_rows e ids c g bs) = map pageContent (concat bs).
Proof.
  induction bs as [|b bs IH]; intros c g; simpl; [done|].
  by rewrite !map_app, rows_from_text, IH.
Qed.

Lemma connected_consistent s w n rows :
  consistent (connected s n) (set_tables (insert (table_key s) rows) w).
Proof.
  unfold consistent, connected. simpl. split; [done|]. split; [done|].
  unfold table_key. simpl. fold (table_key s). rewrite lookup_insert_eq. eauto.
Qed.

(** [X3] addDocuments appends and never deduplicates: two calls in a row,
    each with documents whose metadata fields the table has by then, leave
    the rows that were there, then the rows of the first call, then the
    rows of the second, with the texts of the documents in order.  Adding
    the same documents twice stores them twice. *)
Theorem addDocuments_twice_appends
    (s : LanceDBStore.t) (w : World) (docs1 docs2 : list Document) (b1 b2 : nat) :
  docs1 ≠ [] → docs2 ≠ [] → 0 < b1 → 0 < b2 → consistent s w →
  (∀ n texts, is_Some (embedDocuments_of (LanceDBStore.embeddings s) n texts)) →
  accepted s w docs1 →
  Forall (λ d, fields_of d ⊆ lancedb.fields (default [] (tables w !! table_key s))
                              ++ concat (map fields_of docs1)) docs2 →
  let r1 := LanceDBStore.addDocuments docs1 b1 s w in
  let r2 := LanceDBStore.addDocuments docs2 b2 (object r1) (after r1) in
  let old := default [] (tables w !! table_key s) in
  outcome r1 = Return tt ∧ outcome r2 = Return tt
  ∧ ∃ rows1 rows2,
      tables (after r1) !! table_key s = Some (old ++ rows1)
      ∧ tables (after r2) !! table_key s = Some (old ++ rows1 ++ rows2)
      ∧ map text rows1 = map pageContent docs1
      ∧ map text rows2 = map pageContent docs2.
Proof.
  intros Hne1 Hne2 Hb1 Hb2 Hc Hok Hacc1 Hacc2 r1 r2 old.
  pose proof (addDocuments_run s w docs1 b1 Hne1 Hb1 Hc Hacc1 Hok) as Hr1.
  cbv zeta in Hr1. fold r1 old in Hr1.
  set (rows1 := expected_rows (LanceDBStore.embeddings s) (idSupply w)
                  (length (embedCalls w)) (generated w) (partition b1 docs1)) in *.
  set (w1 := advance (map (map pageContent) (partition b1 docs1)) (length docs1) w) in *.
  set (s1 := connected s (length (old ++ rows1))) in *.
  set (w2 := set_tables (insert (table_key s) (old ++ rows1)) w1) in *.
  assert (Hkey : table_key s1 = table_key s) by done.
  assert (Hlook : tables w2 !! table_key s = Some (old ++ rows1))
    by (subst w2; simpl; apply lookup_insert_eq).
  assert (Hacc : accepted s1 w2 docs2).
  { unfold accepted. rewrite Hkey, Hlook. unfold rows1.
    by rewrite fields_app, fields_expected_rows, partition_concat. }
  pose proof (addDocuments_run s1 w2 docs2 b2 Hne2 Hb2
                (connected_consistent s w1 _ (old ++ rows1)) Hacc Hok) as Hr2.
  cbv zeta in Hr2. rewrite Hkey, Hlook in Hr2. simpl in Hr2.
  assert (Hr2' : r2 = LanceDBStore.addDocuments docs2 b2 s1 w2)
    by (subst r2; by rewrite Hr1).
  rewrite Hr2 in Hr2'. clear Hr2.
  split; [by rewrite Hr1|]. split; [by rewrite Hr2'|].
  eexists rows1, _. split; [by rewrite Hr1|].
  split.
  { rewrite Hr2'. unfold after. simpl. rewrite lookup_insert_eq. by rewrite <- app_assoc. }
  subst rows1. split; by rewrite expected_rows_text, partition_concat.
Qed.

Lemma addDocuments_same_chunks_twice :
  let r1 := LanceDBStore.addDocuments (Scenario.chunks 3) 2
              Scenario.lance_store Scenario.empty_world in
  let r2 := LanceDBStore.addDocuments (Scenario.chunks 3) 2 (object r1) (after r1) in
  outcome r2 = Return tt
  ∧ (map text <$> tables (after r2) !! table_key Scenario.lance_store)
    = Some ["chunk 0"; "chunk 1"; "chunk 2"; "chunk 0"; "chunk 1"; "chunk 2"].
Proof.
  assert (Hne : Scenario.chunks 3 ≠ []) by discriminate.
  assert (Hb : 0 < 2) by lia.
  assert (Hc : consistent Scenario.lance_store Scenario.empty_world) by exact I.
  assert (Hok : ∀ n texts,
             is_Some (embedDocuments_of (LanceDBStore.embeddings Scenario.lance_store) n texts))
    by (intros; eexists; reflexivity).
  assert (Hacc1 : accepted Scenario.lance_store Scenario.empty_world (Scenario.chunks 3))
    by exact I.
  assert (Hacc2 : Forall (λ d, fields_of d
                               ⊆ lancedb.fields
                                   (default [] (tables Scenario.empty_world
                                                !! table_key Scenario.lance_store))
                                 ++ concat (map fields_of (Scenario.chunks 3)))
                    (Scenario.chunks 3)).
  { repeat constructor; by intros x Hx%elem_of_nil. }
  destruct (addDocuments_twice_appends Scenario.lance_store Scenario.empty_world
              (Scenario.chunks 3) (Scenario.chunks 3) 2 2 Hne Hne Hb Hb Hc Hok Hacc1 Hacc2)
    as (_ & Hout & rows1 & rows2 & _ & Hrows & Ht1 & Ht2).
  cbv zeta. split; [exact Hout|].
  rewrite Hrows. unfold fmap, option_fmap, option_map.
  rewrite !map_app, Ht1, Ht2. reflexivity.
Defined.

(** [X4] deleteCollection removes the store's own table and nothing else:
    every other table of the directory, and every table of another
    directory, is as it was, whether the call returns or throws. *)
Theorem deleteCollection_leaves_other_tables
    (s : LanceDBStore.t) (w : World) (other : string * string) :
  consistent s w → other ≠ table_key s →
  tables (after (LanceDBStore.deleteCollection s w)) !! other = tables w !! other
  ∧ embedCalls (after (LanceDBStore.deleteCollection s w)) = embedCalls w.
Proof.
  intros Hc Hother. rewrite deleteCollection_run by done.
  destruct (LanceDBStore.db s); [|done].
  destruct (tables w !! table_key s); [|done].
  unfold after. simpl. by rewrite lookup_delete_ne.
Qed.

Lemma deleteCollection_keeps_archive :
  let w := set_tables (insert ("./data/chroma_db", "archive") [])
             (after (LanceDBStore.addDocuments (Scenario.chunks 3) 2
                       Scenario.lance_store Scenario.empty_world)) in
  let s := object (LanceDBStore.addDocuments (Scenario.chunks 3) 2
                     Scenario.lance_store Scenario.empty_world) in
  tables (after (LanceDBStore.deleteCollection s w)) !! ("./data/chroma_db", "archive")
  = Some []
  ∧ tables (after (LanceDBStore.deleteCollection s w)) !! table_key s = None.
Proof.
  set (w := set_tables (insert ("./data/chroma_db", "archive") [])
             (after (LanceDBStore.addDocuments (Scenario.chunks 3) 2
                       Scenario.lance_store Scenario.empty_world))).
  set (s := object (LanceDBStore.addDocuments (Scenario.chunks 3) 2
                     Scenario.lance_store Scenario.empty_world)).
  assert (Hc : consistent s w) by (vm_compute; repeat split; by eexists).
  assert (Hother : ("./data/chroma_db", "archive") ≠ table_key s)
    by (vm_compute; discriminate).
  destruct (deleteCollection_leaves_other_tables s w ("./data/chroma_db", "archive")
              Hc Hother) as [H _].
  cbv zeta. split.
  - rewrite H. vm_compute. reflexivity.
  - vm_compute. reflexivity.
Defined.

(** [X5] deleteCollection on a store that was never initialized does
    nothing at all, even when the collection is on disk: the rows stay.
    Only after initialize (or addDocuments) does the same call drop them. *)
Theorem deleteCollection_before_initialize_keeps_rows
    (st : Settings) (dir name : option string) (e : Embeddings) (w : World)
    (rows : list VectorRecord) :
  let s := LanceDBStore.new st dir name e in
  tables w !! table_key s = Some rows →
  LanceDBStore.deleteCollection s w = (Return tt, s, w)
  ∧ tables (after (LanceDBStore.deleteCollection s w)) !! table_key s = Some rows
  ∧ (let opened := LanceDBStore.initialize s w in
     outcome (LanceDBStore.deleteCollection (object opened) (after opened)) = Return tt
     ∧ tables (after (LanceDBStore.deleteCollection (object opened) (after opened)))
       !! table_key s = None).
Proof.
  intros s Hrows. split; [done|]. split; [done|].
  cbv zeta. rewrite initialize_run. unfold object, after. simpl.
  rewrite deleteCollection_run by (by apply initialize_consistent).
  unfold opened. rewrite Hrows. simpl.
  unfold table_key in *. simpl in *. rewrite Hrows. simpl.
  split; [done|]. apply lookup_delete_eq.
Qed.

Lemma deleteCollection_new_store_over_rows :
  let w := after (LanceDBStore.addDocuments (Scenario.chunks 3) 2
                    Scenario.lance_store Scenario.empty_world) in
  (length <$> tables (after (LanceDBStore.deleteCollection Scenario.lance_store w))
              !! table_key Scenario.lance_store) = Some 3.
Proof.
  set (w := after (LanceDBStore.addDocuments (Scenario.chunks 3) 2
                    Scenario.lance_store Scenario.empty_world)).
  assert (Hrows : ∃ rows, tables w !! table_key Scenario.lance_store = Some rows
                          ∧ length rows = 3).
  { eexists. split; vm_compute; reflexivity. }
  destruct Hrows as (rows & Hrows & Hlen).
  destruct (deleteCollection_before_initialize_keeps_rows
              Scenario.config None None Scenario.provider w rows Hrows) as (_ & H & _).
  cbv zeta. unfold Scenario.lance_store. rewrite H. simpl. by rewrite Hlen.
Defined.

(** [X6] After a deleteCollection that returns, addDocuments starts a new
    collection: the table holds exactly the rows of the new documents, and
    the store is ready again. *)
Theorem addDocuments_after_deleteCollection
    (s : LanceDBStore.t) (w : World) (documents : list Document) (b : nat) :
  consistent s w → LanceDBStore.db s ≠ None → is_Some (tables w !! table_key s) →
  documents ≠ [] → 0 < b →
  (∀ n texts, is_Some (embedDocuments_of (LanceDBStore.embeddings s) n texts)) →
  let deleted := LanceDBStore.deleteCollection s w in
  let r := LanceDBStore.addDocuments documents b (object deleted) (after deleted) in
  outcome deleted = Return tt ∧ outcome r = Return tt
  ∧ LanceDBStore.isReady (object r) = true
  ∧ ∃ rows, tables (after r) !! table_key s = Some rows
            ∧ map text rows = map pageContent documents.
Proof.
  intros Hc Hdb [old Hold] Hne Hb Hok deleted r.
  pose proof (deleteCollection_consistent s w Hc) as Hc'. fold deleted in Hc'.
  assert (Hdel : deleted = (Return tt, LanceDBStore.set_table None s,
                            set_tables (delete (table_key s)) w)).
  { subst deleted. rewrite deleteCollection_run by done. rewrite Hold.
    by destruct (LanceDBStore.db s). }
  assert (Hc1 : consistent (LanceDBStore.set_table None s)
                  (set_tables (delete (table_key s)) w))
    by (by rewrite Hdel in Hc').
  assert (Hacc : accepted (LanceDBStore.set_table None s)
                   (set_tables (delete (table_key s)) w) documents).
  { unfold accepted. simpl. unfold table_key. simpl. fold (table_key s).
    by rewrite lookup_delete_eq. }
  pose proof (addDocuments_run (LanceDBStore.set_table None s)
                (set_tables (delete (table_key s)) w) documents b Hne Hb Hc1 Hacc Hok) as Hr.
  cbv zeta in Hr.
  assert (Hr' : r = LanceDBStore.addDocuments documents b (LanceDBStore.set_table None s)
                      (set_tables (delete (table_key s)) w))
    by (subst r; by rewrite Hdel).
  rewrite Hr in Hr'. clear Hr. rename Hr' into Hr.
  split; [by rewrite Hdel|]. split; [by rewrite Hr|]. split; [by rewrite Hr|].
  eexists. split.
  - rewrite Hr. unfold after. simpl. unfold table_key. simpl. fold (table_key s).
    rewrite lookup_insert_eq, lookup_delete_eq. simpl. reflexivity.
  - by rewrite expected_rows_text, partition_concat.
Qed.

Lemma addDocuments_after_deleteCollection_example :
  let r0 := LanceDBStore.addDocuments (Scenario.chunks 5) 2
              Scenario.lance_store Scenario.empty_world in
  let deleted := LanceDBStore.deleteCollection (object r0) (after r0) in
  let r := LanceDBStore.addDocuments (Scenario.chunks 2) 2 (object deleted) (after deleted) in
  (map text <$> tables (after r) !! table_key Scenario.lance_store)
  = Some ["chunk 0"; "chunk 1"].
Proof.
  set (r0 := LanceDBStore.addDocuments (Scenario.chunks 5) 2
               Scenario.lance_store Scenario.empty_world).
  assert (Hc : consistent (object r0) (after r0)) by (vm_compute; repeat split; by eexists).
  assert (Hdb : LanceDBStore.db (object r0) ≠ None) by (vm_compute; discriminate).
  assert (Hsome : is_Some (tables (after r0) !! table_key (object r0)))
    by (eexists; vm_compute; reflexivity).
  assert (Hne : Scenario.chunks 2 ≠ []) by discriminate.
  assert (Hb : 0 < 2) by lia.
  assert (Hok : ∀ n texts,
             is_Some (embedDocuments_of (LanceDBStore.embeddings (object r0)) n texts))
    by (intros; eexists; vm_compute; reflexivity).
  destruct (addDocuments_after_deleteCollection (object r0) (after r0) (Scenario.chunks 2) 2
              Hc Hdb Hsome Hne Hb Hok) as (_ & _ & _ & rows & Hrows & Htext).
  cbv zeta. change (table_key Scenario.lance_store) with (table_key (object r0)).
  rewrite Hrows. unfold fmap, option_fmap, option_map. rewrite Htext. reflexivity.
Defined.

(** ** LanceDBStore: searching and retrieving *)

(** [X7] A search only reads: the store object, the tables and the
    provider's batch log are untouched, at most one query is embedded, a
    result never has more entries than the width asked for, and the only
    errors are NotInitializedError, the provider's, and LanceDB's for a
    table that is gone. *)
Theorem search_reads_only (s : LanceDBStore.t) (w : World) (query : string) (k : option nat) :
  let r := LanceDBStore.search query k s w in
  object r = s
  ∧ tables (after r) = tables w
  ∧ embedCalls (after r) = embedCalls w
  ∧ (queryCalls (after r) = queryCalls w ∨ queryCalls (after r) = queryCalls w ++ [query])
  ∧ match outcome r with
    | Return docs => length docs ≤ or_number k (retrievalK (app (settings w)))
    | Throw e => e = NotInitializedError ∨ e = EmbeddingProviderError
                 ∨ ∃ n, e = LanceDBError (TableNotFound n)
    | Diverge => False
    end.
Proof.
  unfold LanceDBStore.search, embedQuery, lancedb.vectorSearch_limit, lancedb.rows, lancedb.rows_of.
  munfold. unfold object, after, outcome.
  destruct (LanceDBStore.table s) as [tb|]; simpl; [|by eauto 10].
  destruct (embedQuery_of (LanceDBStore.embeddings s) (length (queryCalls w)) query);
    munfold; simpl; [|by eauto 10].
  destruct (tables w !! lancedb.key (lancedb.conn tb) (lancedb.name tb)); simpl.
  - repeat split; eauto. rewrite length_map, length_take. lia.
  - repeat split; eauto 10.
Qed.

(** [X8] search is searchWithScores without the scores: same effects, same
    errors, and the same documents in the same order. *)
Theorem search_is_searchWithScores_without_scores
    (s : LanceDBStore.t) (w : World) (query : string) (k : option nat) :
  LanceDBStore.search query k s w
  = (scored ← LanceDBStore.searchWithScores query k; ret (scored.*1)) s w.
Proof.
  unfold LanceDBStore.search, LanceDBStore.searchWithScores, embedQuery,
    lancedb.vectorSearch_limit, lancedb.rows, lancedb.rows_of.
  munfold.
  destruct (LanceDBStore.table s) as [tb|]; simpl; [|done].
  destruct (embedQuery_of (LanceDBStore.embeddings s) (length (queryCalls w)) query);
    munfold; simpl; [|done].
  destruct (tables w !! lancedb.key (lancedb.conn tb) (lancedb.name tb)); simpl; [|done].
  by rewrite <- list_fmap_compose.
Qed.

Lemma or_number_idemp k d : or_number (Some (or_number k d)) d = or_number k d.
Proof. destruct k as [[|k]|]; simpl; by destruct d. Qed.

Lemma search_bound_width s w query k :
  LanceDBStore.search query (Some (or_number k (retrievalK (app (settings w))))) s w
  = LanceDBStore.search query k s w.
Proof.
  unfold LanceDBStore.search. munfold.
  destruct (LanceDBStore.table s); [|done]. by rewrite or_number_idemp.
Qed.

(** [X9] asRetriever never throws, even on a store that is not ready, and
    changes nothing; what the retriever returns for a query (through
    invoke or getRelevantDocuments) is what search returns for that query
    and the k the retriever was made with. *)
Theorem asRetriever_invoke_is_search
    (s : LanceDBStore.t) (w : World) (query : string) (k : option nat) :
  (∃ r, LanceDBRetriever.asRetriever k s w = (Return r, s, w))
  ∧ (r ← LanceDBRetriever.asRetriever k; LanceDBRetriever.invoke r query) s w
    = LanceDBStore.search query k s w
  ∧ (r ← LanceDBRetriever.asRetriever k; LanceDBRetriever.getRelevantDocuments r query) s w
    = LanceDBStore.search query k s w.
Proof.
  split; [by eexists|].
  split; apply search_bound_width.
Qed.

(** [X10] getVectorStore (of the LanceDB store) fails exactly when the
    embedding factory does, with the factory's error.  Otherwise it returns
    an initialized store: no table is touched, the only thing written is
    the store's directory when it was missing, the store is ready exactly
    when its table is on disk, and it is consistent with the disk. *)
Theorem getVectorStore_ready_iff_table_exists
    (getEmbeddings : Result Embeddings) (dir name : option string) (w : World) :
  match LanceDBRetriever.getVectorStore getEmbeddings dir name w with
  | Err e => getEmbeddings = Err e
  | Ok r =>
      (∃ embeddings, getEmbeddings = Ok embeddings
                     ∧ LanceDBStore.embeddings (object r) = embeddings)
      ∧ outcome r = Return tt
      ∧ tables (after r) = tables w
      ∧ files (after r) = mkdirSync (LanceDBStore.persistDirectory (object r)) (files w)
      ∧ (LanceDBStore.isReady (object r) = true
         ↔ is_Some (tables w !! table_key (object r)))
      ∧ consistent (object r) (after r)
  end.
Proof.
  unfold LanceDBRetriever.getVectorStore. destruct getEmbeddings as [e|err]; [|done].
  cbv zeta. rewrite initialize_run.
  set (s := LanceDBStore.new (settings w) dir name e).
  set (w1 := set_files (mkdirSync (LanceDBStore.persistDirectory s)) w).
  assert (Hkey : table_key (opened s w1) = table_key s).
  { unfold opened. by destruct (tables w1 !! table_key s). }
  assert (Hdir : LanceDBStore.persistDirectory (opened s w1) = LanceDBStore.persistDirectory s).
  { unfold opened. by destruct (tables w1 !! table_key s). }
  unfold object, after, outcome. simpl.
  split; [exists e; split; [done|apply opened_embeddings]|].
  split; [done|]. split; [done|]. split; [by rewrite Hdir|].
  split; [|by apply opened_consistent].
  rewrite Hkey. unfold opened, LanceDBStore.isReady.
  change (tables w1) with (tables w).
  destruct (tables w !! table_key s) eqn:E; simpl; split; try done; eauto.
Qed.

(** ** HNSWLibStore *)

(** [X11] The first addDocuments of a store without an index ignores the
    batch size: the provider is called once with all the texts, the index
    pairs each document with the vector at its position, and the index is
    saved under the store's path.  (The provider answering with one vector
    per text.) *)
Theorem HNSWLibStore_first_addDocuments_is_one_call
    (s : HNSWLibStore.t) (w : World) (documents : list Document) (b : nat)
    (vectors : list Vector) :
  HNSWLibStore.isReady s = false → documents ≠ [] →
  embedDocuments_of (HNSWLibStore.embeddings s) (length (embedCalls w))
    (map pageContent documents) = Some vectors →
  length vectors = length documents →
  let r := HNSWLibStore.addDocuments documents b s w in
  let index := mkHNSWLib (HNSWLibStore.embeddings s) (zip documents vectors) in
  outcome r = Return tt
  ∧ embedCalls (after r) = embedCalls w ++ [map pageContent documents]
  ∧ HNSWLibStore.vectorstore (object r) = Some index
  ∧ files (after r) !! HNSWLibStore.getStorePath s = Some (mkStoreDir true (Some index)).
Proof.
  intros Hready Hne Hvs Hlen. cbv zeta.
  unfold HNSWLibStore.isReady in Hready.
  destruct (HNSWLibStore.vectorstore s) eqn:Hvst; [done|].
  unfold HNSWLibStore.addDocuments.
  rewrite decide_False by (destruct documents; simpl; [done|lia]).
  unfold hnswlib.fromDocuments, hnswlib.addDocuments, hnswlib.addVectors,
    HNSWLibStore.save, embedDocuments.
  munfold. rewrite Hvst. simpl. rewrite Hvs. munfold.
  rewrite decide_False by (destruct documents; simpl in *; [done|lia]).
  rewrite decide_True by done. munfold. simpl.
  rewrite hnswlib_save_run by (simpl; by intros ?%zip_nil_inv).
  unfold outcome, object, after. simpl.
  repeat split; try done. apply lookup_insert_eq.
Qed.

Lemma HNSWLibStore_first_addDocuments_batchSize_zero :
  let r := HNSWLibStore.addDocuments (Scenario.chunks 3) 0
             Scenario.hnsw_store Scenario.empty_world in
  outcome r = Return tt ∧ map length (embedCalls (after r)) = [3].
Proof.
  assert (Hready : HNSWLibStore.isReady Scenario.hnsw_store = false) by reflexivity.
  assert (Hne : Scenario.chunks 3 ≠ []) by discriminate.
  assert (Hvs : embedDocuments_of (HNSWLibStore.embeddings Scenario.hnsw_store)
                  (length (embedCalls Scenario.empty_world))
                  (map pageContent (Scenario.chunks 3))
                = Some [[7%Z]; [7%Z]; [7%Z]]) by reflexivity.
  assert (Hlen : length [[7%Z]; [7%Z]; [7%Z]] = length (Scenario.chunks 3)) by reflexivity.
  destruct (HNSWLibStore_first_addDocuments_is_one_call
              Scenario.hnsw_store Scenario.empty_world (Scenario.chunks 3) 0 _
              Hready Hne Hvs Hlen) as (Hout & Hcalls & _).
  cbv zeta. split; [exact Hout|]. rewrite Hcalls. reflexivity.
Defined.

(** The batch loop keeps an index loaded and never touches the disk. *)
Lemma batchLoop_frame documents b fuel : ∀ i s w,
  is_Some (HNSWLibStore.vectorstore s) →
  is_Some (HNSWLibStore.vectorstore (object (HNSWLibStore.batchLoop fuel documents b i s w)))
  ∧ files (after (HNSWLibStore.batchLoop fuel documents b i s w)) = files w
  ∧ tables (after (HNSWLibStore.batchLoop fuel documents b i s w)) = tables w.
Proof.
  induction fuel as [|fuel IH]; intros i s w [h Hh]; simpl.
  - case_decide; unfold object, after; simpl; eauto.
  - case_decide; [|unfold object, after; simpl; eauto].
    unfold hnswlib.addDocuments, hnswlib.addVectors, embedDocuments.
    munfold. rewrite Hh.
    destruct (embedDocuments_of _ _ _) as [vs|]; munfold; simpl;
      [|unfold object, after; simpl; eauto].
    repeat case_decide; munfold; simpl;
      try (unfold object, after; simpl; by eauto);
      match goal with
      | |- context [HNSWLibStore.batchLoop fuel documents b ?i' ?s' ?w'] =>
          destruct (IH i' s' w') as (H1 & H2 & H3); [simpl; eauto|];
          rewrite H2, H3; eauto
      end.
Qed.

Lemma batchLoop_fields documents b fuel : ∀ i s w,
  HNSWLibStore.persistDirectory (object (HNSWLibStore.batchLoop fuel documents b i s w))
  = HNSWLibStore.persistDirectory s
  ∧ HNSWLibStore.collectionName (object (HNSWLibStore.batchLoop fuel documents b i s w))
    = HNSWLibStore.collectionName s.
Proof.
  induction fuel as [|fuel IH]; intros i s w; simpl.
  - case_decide; unfold object; simpl; eauto.
  - case_decide; [|unfold object; simpl; eauto].
    unfold hnswlib.addDocuments, hnswlib.addVectors, embedDocuments.
    munfold. destruct (HNSWLibStore.vectorstore s) as [h|]; [|by unfold object].
    destruct (embedDocuments_of _ _ _) as [vs|]; munfold; simpl; [|by unfold object].
    repeat case_decide; munfold; simpl; try (by unfold object);
      match goal with
      | |- context [HNSWLibStore.batchLoop fuel documents b ?i' ?s' ?w'] =>
          destruct (IH i' s' w') as (Hd & Hn); by rewrite Hd, Hn
      end.
Qed.

(** [X12] An addDocuments that does not return has saved no index: every
    directory on disk is what it was, except that the store's own directory
    may have been made, empty, where there was none ([save] makes it
    before it finds that the index was never initialised). *)
Theorem HNSWLibStore_failed_addDocuments_saves_nothing
    (s : HNSWLibStore.t) (w : World) (documents : list Document) (b : nat) :
  outcome (HNSWLibStore.addDocuments documents b s w) ≠ Return tt →
  ∀ p,
    files (after (HNSWLibStore.addDocuments documents b s w)) !! p = files w !! p
    ∨ (p = HNSWLibStore.getStorePath s
       ∧ files w !! p = None
       ∧ files (after (HNSWLibStore.addDocuments documents b s w)) !! p
         = Some (mkStoreDir false None)).
Proof.
  unfold HNSWLibStore.addDocuments. case_decide; [done|].
  munfold. destruct (HNSWLibStore.vectorstore s) as [h|] eqn:Hh.
  - pose proof (batchLoop_frame documents b (length documents) 0 s w ltac:(eauto))
      as (_ & Hfiles & _).
    pose proof (batchLoop_fields documents b (length documents) 0 s w) as (Hdir & Hname).
    destruct (HNSWLibStore.batchLoop (length documents) documents b 0 s w)
      as [[[[]|e|] s1] w1]; unfold outcome, object, after in *; simpl in *;
      [|intros _ p; left; by rewrite Hfiles..].
    assert (Hpath : HNSWLibStore.getStorePath s1 = HNSWLibStore.getStorePath s)
      by (unfold HNSWLibStore.getStorePath; by rewrite Hdir, Hname).
    unfold HNSWLibStore.save. munfold.
    destruct (HNSWLibStore.vectorstore s1) as [h1|]; simpl; [|done].
    destruct (decide (hnsw_entries h1 = [])) as [He|He].
    + rewrite hnswlib_save_empty by done. simpl. intros _ p. rewrite Hpath, Hfiles.
      destruct (mkdirSync_lookup (HNSWLibStore.getStorePath s) (files w) p)
        as [Hsame|(-> & Hnone & Hmade)]; [by left|by right].
    + by rewrite hnswlib_save_run by done.
  - unfold hnswlib.fromDocuments, hnswlib.addDocuments, hnswlib.addVectors, embedDocuments.
    munfold. simpl.
    destruct (embedDocuments_of _ _ _) as [vs|]; munfold; simpl; [|by left].
    destruct (decide (length vs = 0)) as [Hvs|Hvs]; munfold; simpl.
    + unfold HNSWLibStore.save. munfold. simpl.
      rewrite hnswlib_save_empty by done. simpl. intros _ p.
      change (HNSWLibStore.getStorePath (HNSWLibStore.set_vectorstore _ s))
        with (HNSWLibStore.getStorePath s).
      destruct (mkdirSync_lookup (HNSWLibStore.getStorePath s) (files w) p)
        as [Hsame|(-> & Hnone & Hmade)]; [by left|by right].
    + destruct (decide (length vs = length documents)) as [Hlen|Hlen]; munfold; simpl;
        [|by left].
      unfold HNSWLibStore.save. munfold. simpl.
      rewrite hnswlib_save_run; [done|]. simpl. intros Hz%zip_nil_inv; [|done].
      subst. simpl in *. lia.
Qed.

(** A provider that answers with no vectors: the index is never
    initialised, the store's directory is made and the save throws. *)
Lemma HNSWLibStore_rejected_addDocuments :
  let s := HNSWLibStore.new Scenario.config None None Scenario.silent_provider in
  let r := HNSWLibStore.addDocuments (Scenario.chunks 2) 100 s Scenario.empty_world in
  let p := HNSWLibStore.getStorePath s in
  outcome r = Throw HNSWLibError
  ∧ files Scenario.empty_world !! p = None
  ∧ files (after r) !! p = Some (mkStoreDir false None).
Proof.
  set (s := HNSWLibStore.new Scenario.config None None Scenario.silent_provider).
  assert (Hout : outcome (HNSWLibStore.addDocuments (Scenario.chunks 2) 100
                            s Scenario.empty_world) ≠ Return tt)
    by (vm_compute; discriminate).
  destruct (HNSWLibStore_failed_addDocuments_saves_nothing
              s Scenario.empty_world (Scenario.chunks 2) 100 Hout (HNSWLibStore.getStorePath s))
    as [Hsame|(_ & Hnone & Hmade)].
  - vm_compute in Hsame. discriminate.
  - cbv zeta. split; [vm_compute; reflexivity|]. split; [exact Hnone|exact Hmade].
Defined.

Lemma expected_entries_fst e bs : ∀ c,
  (∀ n texts, ∃ vs, embedDocuments_of e n texts = Some vs ∧ length vs = length texts) →
  (expected_entries e c bs).*1 = concat bs.
Proof.
  induction bs as [|b bs IH]; intros c Hok; simpl; [done|].
  rewrite fmap_app, IH by done. f_equal.
  destruct (Hok c (map pageContent b)) as (vs & -> & Hlen). simpl.
  apply fst_zip. rewrite Hlen, length_map. done.
Qed.

Lemma batchLoop_run documents b : 0 < b → ∀ fuel i s w h,
  HNSWLibStore.vectorstore s = Some h →
  (∀ n texts, ∃ vs, embedDocuments_of (hnsw_embeddings h) n texts = Some vs
                    ∧ length vs = length texts) →
  length documents - i ≤ fuel →
  HNSWLibStore.batchLoop fuel documents b i s w
  = (Return tt,
     HNSWLibStore.set_vectorstore
       (Some (mkHNSWLib (hnsw_embeddings h)
                (hnsw_entries h
                 ++ expected_entries (hnsw_embeddings h) (length (embedCalls w))
                      (partition b (drop i documents))))) s,
     advance (map (map pageContent) (partition b (drop i documents))) 0 w).
Proof.
  intros Hb fuel. induction fuel as [|fuel IH]; intros i s w h Hh Hok Hfuel.
  - simpl. rewrite decide_False by lia.
    rewrite drop_ge by lia. rewrite partition_nil by done. simpl.
    rewrite app_nil_r, advance_0. destruct s, h; simpl in *. by subst.
  - simpl. destruct (decide (i < length documents)) as [Hi|Hi].
    + rewrite slice_from.
      assert (Hne : drop i documents ≠ []).
      { intros E. apply (f_equal length) in E. rewrite length_drop in E. simpl in E. lia. }
      rewrite (partition_cons b (drop i documents)) by done.
      set (batch := take b (drop i documents)).
      assert (Hbatch : 0 < length batch).
      { subst batch. rewrite length_take, length_drop. lia. }
      unfold hnswlib.addDocuments, hnswlib.addVectors, embedDocuments. munfold.
      rewrite Hh.
      destruct (Hok (length (embedCalls w)) (map pageContent batch)) as (vs & Hvs & Hlen).
      rewrite Hvs. munfold. rewrite length_map in Hlen.
      rewrite decide_False by lia. rewrite decide_True by done. munfold. simpl.
      rewrite (IH _ _ _ (mkHNSWLib (hnsw_embeddings h) (hnsw_entries h ++ zip batch vs)));
        [|done|done|lia].
      simpl. rewrite drop_drop, Hvs. simpl. rewrite <- app_assoc.
      rewrite length_app. simpl. rewrite Nat.add_1_r. f_equal.
      unfold advance, log_embedCall. simpl. f_equal. by rewrite <- app_assoc.
    + rewrite drop_ge by lia. rewrite partition_nil by done. simpl.
      rewrite app_nil_r, advance_0. destruct s, h; simpl in *. by subst.
Qed.

(** [X13] addDocuments on a store that has an index adds in batches: the
    provider is called once per batch of at most b texts, in order; the
    new entries follow the old ones and are the documents in order; the
    grown index is saved under the store's path. *)
Theorem HNSWLibStore_addDocuments_to_index
    (s : HNSWLibStore.t) (w : World) (documents : list Document) (b : nat) (h : HNSWLib) :
  HNSWLibStore.vectorstore s = Some h → documents ≠ [] → 0 < b →
  (∀ n texts, ∃ vs, embedDocuments_of (hnsw_embeddings h) n texts = Some vs
                    ∧ length vs = length texts) →
  let r := HNSWLibStore.addDocuments documents b s w in
  outcome r = Return tt
  ∧ embedCalls (after r) = embedCalls w ++ partition b (map pageContent documents)
  ∧ ∃ entries,
      HNSWLibStore.vectorstore (object r)
      = Some (mkHNSWLib (hnsw_embeddings h) (hnsw_entries h ++ entries))
      ∧ entries.*1 = documents
      ∧ files (after r) !! HNSWLibStore.getStorePath s
        = Some (mkStoreDir true
                  (Some (mkHNSWLib (hnsw_embeddings h) (hnsw_entries h ++ entries)))).
Proof.
  intros Hh Hne Hb Hok. cbv zeta.
  unfold HNSWLibStore.addDocuments.
  rewrite decide_False by (destruct documents; simpl; [done|lia]).
  munfold. rewrite Hh.
  rewrite (batchLoop_run documents b Hb (length documents) 0 s w h Hh Hok) by lia.
  rewrite drop_0. unfold HNSWLibStore.save. munfold. simpl.
  assert (Hfst : (expected_entries (hnsw_embeddings h) (length (embedCalls w))
                    (partition b documents)).*1 = documents)
    by (by rewrite expected_entries_fst, partition_concat).
  rewrite hnswlib_save_run.
  2:{ simpl. intros [_ Hnil]%app_eq_nil. rewrite Hnil in Hfst. by destruct documents. }
  unfold outcome, object, after. simpl.
  split; [done|]. split; [by rewrite partition_fmap|].
  eexists. split; [done|]. split; [done|].
  unfold HNSWLibStore.getStorePath. simpl. apply lookup_insert_eq.
Qed.

Lemma HNSWLibStore_addDocuments_to_index_example :
  let r1 := HNSWLibStore.addDocuments (Scenario.chunks 2) 100
              Scenario.hnsw_store Scenario.empty_world in
  let r2 := HNSWLibStore.addDocuments (Scenario.chunks 5) 2 (object r1) (after r1) in
  outcome r2 = Return tt ∧ map length (embedCalls (after r2)) = [2; 2; 2; 1].
Proof.
  set (r1 := HNSWLibStore.addDocuments (Scenario.chunks 2) 100
               Scenario.hnsw_store Scenario.empty_world).
  assert (Hh : ∃ h, HNSWLibStore.vectorstore (object r1) = Some h
                    ∧ hnsw_embeddings h = Scenario.provider).
  { eexists. split; vm_compute; reflexivity. }
  destruct Hh as (h & Hh & He).
  assert (Hne : Scenario.chunks 5 ≠ []) by discriminate.
  assert (Hb : 0 < 2) by lia.
  assert (Hok : ∀ n texts, ∃ vs, embedDocuments_of (hnsw_embeddings h) n texts = Some vs
                                 ∧ length vs = length texts).
  { intros n texts. rewrite He. eexists. split; [reflexivity|]. by rewrite length_map. }
  destruct (HNSWLibStore_addDocuments_to_index (object r1) (after r1) (Scenario.chunks 5) 2 h
              Hh Hne Hb Hok) as (Hout & Hcalls & _).
  cbv zeta. split; [exact Hout|]. rewrite Hcalls. vm_compute. reflexivity.
Defined.

Lemma HNSWLibStore_addDocuments_saved s w documents b :
  documents ≠ [] → outcome (HNSWLibStore.addDocuments documents b s w) = Return tt →
  ∃ h, HNSWLibStore.vectorstore (object (HNSWLibStore.addDocuments documents b s w)) = Some h
       ∧ files (after (HNSWLibStore.addDocuments documents b s w))
         !! HNSWLibStore.getStorePath s = Some (mkStoreDir true (Some h)).
Proof.
  intros Hne. unfold HNSWLibStore.addDocuments.
  rewrite decide_False by (destruct documents; simpl; [done|lia]).
  munfold. destruct (HNSWLibStore.vectorstore s) as [h|] eqn:Hh.
  - pose proof (batchLoop_frame documents b (length documents) 0 s w ltac:(eauto))
      as ([h1 Hh1] & _).
    pose proof (batchLoop_fields documents b (length documents) 0 s w) as (Hdir & Hname).
    destruct (HNSWLibStore.batchLoop (length documents) documents b 0 s w)
      as [[[[]|e|] s1] w1]; unfold outcome, object, after in *; simpl in *; [|done|done].
    unfold HNSWLibStore.save. munfold. rewrite Hh1. simpl.
    destruct (decide (hnsw_entries h1 = [])) as [He|He];
      [by rewrite hnswlib_save_empty by done|].
    rewrite hnswlib_save_run by done. simpl.
    intros _. exists h1. split; [done|].
    unfold HNSWLibStore.getStorePath. rewrite Hdir, Hname. apply lookup_insert_eq.
  - unfold hnswlib.fromDocuments, hnswlib.addDocuments, hnswlib.addVectors, embedDocuments.
    munfold. simpl.
    destruct (embedDocuments_of _ _ _) as [vs|]; munfold; simpl; [|done].
    destruct (decide (length vs = 0)) as [Hvs|Hvs]; munfold; simpl.
    { unfold HNSWLibStore.save. munfold. simpl. by rewrite hnswlib_save_empty by done. }
    destruct (decide (length vs = length documents)) as [Hlen|Hlen]; munfold; simpl; [|done].
    unfold HNSWLibStore.save. munfold. simpl.
    rewrite hnswlib_save_run by (simpl; by intros ?%zip_nil_inv).
    simpl. intros _. eexists. split; [done|].
    unfold HNSWLibStore.getStorePath. simpl. apply lookup_insert_eq.
Qed.

(** [X14] What addDocuments saves can be loaded back: after a call that
    returns, a new store object on the same directory and collection name
    loads, with initialize, an index with exactly the entries of the index
    the first store holds in memory. *)
Theorem HNSWLibStore_save_then_load
    (s : HNSWLibStore.t) (w : World) (documents : list Document) (b : nat) (e : Embeddings) :
  documents ≠ [] → outcome (HNSWLibStore.addDocuments documents b s w) = Return tt →
  let r := HNSWLibStore.addDocuments documents b s w in
  let reopened :=
    HNSWLibStore.initialize
      (HNSWLibStore.mk None e (HNSWLibStore.persistDirectory s) (HNSWLibStore.collectionName s))
      (after r) in
  outcome reopened = Return tt
  ∧ ∃ h, HNSWLibStore.vectorstore (object r) = Some h
         ∧ HNSWLibStore.vectorstore (object reopened) = Some (mkHNSWLib e (hnsw_entries h)).
Proof.
  intros Hne Hout. cbv zeta.
  destruct (HNSWLibStore_addDocuments_saved s w documents b Hne Hout) as (h & Hh & Hfiles).
  unfold HNSWLibStore.initialize, HNSWLibStore.storeExists, hnswlib.load, try_catch.
  munfold. unfold HNSWLibStore.getStorePath in *. simpl. rewrite Hfiles. simpl.
  rewrite Hfiles. unfold outcome, object. simpl. eauto.
Qed.

Lemma HNSWLibStore_save_then_load_example :
  let r := HNSWLibStore.addDocuments (Scenario.chunks 3) 100
             Scenario.hnsw_store Scenario.empty_world in
  let reopened := HNSWLibStore.initialize Scenario.hnsw_store (after r) in
  (hnsw_entries <$> HNSWLibStore.vectorstore (object reopened))
  = (hnsw_entries <$> HNSWLibStore.vectorstore (object r)).
Proof.
  assert (Hne : Scenario.chunks 3 ≠ []) by discriminate.
  assert (Hout : outcome (HNSWLibStore.addDocuments (Scenario.chunks 3) 100
                            Scenario.hnsw_store Scenario.empty_world) = Return tt)
    by (vm_compute; reflexivity).
  destruct (HNSWLibStore_save_then_load Scenario.hnsw_store Scenario.empty_world
              (Scenario.chunks 3) 100 Scenario.provider Hne Hout) as (_ & h & Hh & Hre).
  cbv zeta. rewrite Hh.
  change Scenario.hnsw_store
    with (HNSWLibStore.mk None Scenario.provider
            (HNSWLibStore.persistDirectory Scenario.hnsw_store)
            (HNSWLibStore.collectionName Scenario.hnsw_store)) at 1.
  rewrite Hre. reflexivity.
Defined.

(** [X15] initialize of HNSWLibStore never throws and writes nothing.  When
    the store's directory has args.json and a readable index, the index is
    loaded; when it has args.json and the index cannot be read, the error
    is swallowed and the store is left without an index; when the
    directory or args.json is missing, the store keeps what it had. *)
Theorem HNSWLibStore_initialize_never_throws (s : HNSWLibStore.t) (w : World) :
  let r := HNSWLibStore.initialize s w in
  outcome r = Return tt
  ∧ after r = w
  ∧ HNSWLibStore.vectorstore (object r)
    = match files w !! HNSWLibStore.getStorePath s with
      | Some (mkStoreDir true (Some h)) =>
          Some (mkHNSWLib (HNSWLibStore.embeddings s) (hnsw_entries h))
      | Some (mkStoreDir true None) => None
      | _ => HNSWLibStore.vectorstore s
      end.
Proof.
  cbv zeta. unfold HNSWLibStore.initialize, HNSWLibStore.storeExists, hnswlib.load, try_catch.
  munfold.
  destruct (files w !! HNSWLibStore.getStorePath s) as [[[] [h|]]|] eqn:E; simpl;
    rewrite ?E; done.
Qed.

(** [X16] deleteCollection of HNSWLibStore removes the store's directory
    with everything under it, and nothing else: every path that is not the
    store's path or under it is as it was, nothing is left at or under the
    store's path, and a store initialized afterwards on the same path is
    not ready. *)
Theorem HNSWLibStore_deleteCollection_scope
    (s : HNSWLibStore.t) (w : World) (p : string) :
  let r := HNSWLibStore.deleteCollection s w in
  (¬ under (HNSWLibStore.getStorePath s) p → files (after r) !! p = files w !! p)
  ∧ (under (HNSWLibStore.getStorePath s) p → files (after r) !! p = None)
  ∧ HNSWLibStore.isReady (object (HNSWLibStore.initialize (object r) (after r))) = false.
Proof.
  cbv zeta. unfold HNSWLibStore.deleteCollection. munfold.
  destruct (existsSync (files w) (HNSWLibStore.getStorePath s)) eqn:E;
    unfold object, after; simpl.
  - split; [by apply rmSync_not_under|]. split; [by apply rmSync_under|].
    unfold HNSWLibStore.initialize, HNSWLibStore.storeExists. munfold.
    change (HNSWLibStore.getStorePath (HNSWLibStore.set_vectorstore None s))
      with (HNSWLibStore.getStorePath s).
    simpl. by rewrite (rmSync_under _ _ _ (under_refl _)).
  - split; [done|]. split; [by apply existsSync_false|].
    unfold HNSWLibStore.initialize, HNSWLibStore.storeExists. munfold.
    change (HNSWLibStore.getStorePath (HNSWLibStore.set_vectorstore None s))
      with (HNSWLibStore.getStorePath s).
    simpl. by rewrite (existsSync_false _ _ _ E (under_refl _)).
Qed.

(** The collection "notes" goes with its directory "2024"; the collection
    "notebook" next to it stays. *)
Lemma HNSWLibStore_deleteCollection_scope_example :
  let s := HNSWLibStore.new Scenario.config (Some "root") (Some "notes") Scenario.provider in
  let w := set_files (insert "root/notes/2024" (mkStoreDir true None))
             (set_files (insert "root/notebook" (mkStoreDir true None))
                (set_files (insert "root/notes" (mkStoreDir true None)) Scenario.empty_world)) in
  let r := HNSWLibStore.deleteCollection s w in
  (under "root/notes" "root/notes/2024" ∧ files (after r) !! "root/notes/2024" = None)
  ∧ (¬ under "root/notes" "root/notebook"
     ∧ files (after r) !! "root/notebook" = Some (mkStoreDir true None)).
Proof.
  intros s w r.
  assert (Hin : under (HNSWLibStore.getStorePath s) "root/notes/2024")
    by (apply (bool_decide_unpack _); vm_compute; exact I).
  assert (Hout : ¬ under (HNSWLibStore.getStorePath s) "root/notebook")
    by (apply (bool_decide_unpack _); vm_compute; exact I).
  split.
  - split; [exact Hin|].
    by destruct (HNSWLibStore_deleteCollection_scope s w "root/notes/2024") as (_ & H & _).
  - split; [exact Hout|].
    destruct (HNSWLibStore_deleteCollection_scope s w "root/notebook") as (H & _ & _).
    subst r. rewrite (H Hout). vm_compute. reflexivity.
Defined.

(** ** QAChain *)

Lemma list_ascii_of_string_app (a b : string) :
  String.list_ascii_of_string (a +:+ b)
  = String.list_ascii_of_string a ++ String.list_ascii_of_string b.
Proof. induction a as [|c a IH]; simpl; [done|]. by rewrite IH. Qed.

Lemma utf16_length_of_app l k :
  utf16_length_of (l ++ k) = utf16_length_of l + utf16_length_of k.
Proof. induction l as [|c l IH]; simpl; [done|]. rewrite IH. lia. Qed.

Lemma utf16_length_app (a b : string) :
  utf16_length (a +:+ b) = utf16_length a + utf16_length b.
Proof. unfold utf16_length. by rewrite list_ascii_of_string_app, utf16_length_of_app. Qed.

Lemma utf16_units_le c : utf16_units c ≤ 2.
Proof. unfold utf16_units. repeat case_decide; lia. Qed.

Lemma utf16_units_continuation n :
  (128 ≤ n < 192)%N → utf16_units (ascii_of_N n) = 0.
Proof.
  intros Hn. unfold utf16_units, nat_of_ascii. rewrite N_ascii_embedding by lia.
  rewrite decide_False by lia. rewrite decide_True by lia. done.
Qed.

Lemma utf16_units_continuation_mod x : utf16_units (ascii_of_N (128 + x mod 64)) = 0.
Proof.
  assert (Hx : (x mod 64 < 64)%N) by (apply N.mod_upper_bound; discriminate).
  revert Hx. generalize (x mod 64)%N. intros m Hm.
  apply utf16_units_continuation. lia.
Qed.

Lemma high_surrogate_length c rest : utf16_length_of (high_surrogate c rest) = 1.
Proof.
  unfold high_surrogate. cbv zeta. cbn [utf16_length_of].
  rewrite !utf16_units_continuation_mod. vm_compute. reflexivity.
Qed.

(** The first [n] code units are [n] code units, or all there are. *)
Lemma utf16_take_length l : ∀ n,
  utf16_length_of (utf16_take n l) = n `min` utf16_length_of l.
Proof.
  induction l as [|c l IH]; intros n; simpl; [lia|].
  pose proof (utf16_units_le c) as Hle.
  destruct (utf16_units c) as [|[|u]] eqn:E.
  - simpl. rewrite E, IH. done.
  - destruct n as [|n]; simpl; [done|]. rewrite E, IH. lia.
  - assert (u = 0) as -> by lia.
    destruct n as [|[|n]]; cbn -[high_surrogate]; [done| |].
    + rewrite high_surrogate_length. lia.
    + rewrite E, IH. lia.
Qed.

Lemma js_slice_length (s : string) n :
  utf16_length (js_slice s n) = n `min` utf16_length s.
Proof.
  unfold utf16_length, js_slice.
  by rewrite String.list_ascii_of_string_of_list_ascii, utf16_take_length.
Qed.


Lemma excerpt_facts (doc : Document) :
  let c := QAChain.content (QAChain.excerpt doc) in
  utf16_length c ≤ 203
  ∧ (utf16_length (pageContent doc) ≤ 200 → c = pageContent doc)
  ∧ (200 < utf16_length (pageContent doc) →
     c = js_slice (pageContent doc) 200 +:+ "..."
     ∧ utf16_length (js_slice (pageContent doc) 200) = 200
     ∧ utf16_length c = 203)
  ∧ QAChain.source_metadata (QAChain.excerpt doc) = metadata doc.
Proof.
  cbv zeta. unfold QAChain.excerpt. cbn [QAChain.content QAChain.source_metadata].
  case_decide as Hlen.
  - assert (Hcut : utf16_length (js_slice (pageContent doc) 200) = 200)
      by (rewrite js_slice_length; lia).
    assert (Hc : utf16_length (js_slice (pageContent doc) 200 +:+ "...") = 203)
      by (rewrite utf16_length_app, Hcut; done).
    split; [lia|]. split; [lia|]. done.
  - split; [lia|]. split; [done|]. split; [lia|]. done.
Qed.


(** What ask asks the retriever: the chain's retriever when the chain has
    been built, and otherwise a retriever over the index the store holds
    now, of the configured width. *)
Lemma ask_run (chain : QAChain.t) (question : string) (returnSources : bool) (w : World) :
  match match QAChain.chain chain with
        | Some c => Some c
        | None =>
            match HNSWLibStore.vectorstore (QAChain.vectorstore chain) with
            | Some h =>
                Some (QAChain.mkRetrievalQAChain (QAChain.llm chain)
                        (hnswlib.mkRetriever h (retrievalK (app (settings w)))))
            | None => None
            end
        end with
  | None => QAChain.ask question returnSources chain w = (Throw NotInitializedError, chain, w)
  | Some c =>
      let built := QAChain.set_chain (Some c) chain in
      let index := hnswlib.r_index (QAChain.chain_retriever c) in
      let w1 := log_queryCall question w in
      match embedQuery_of (hnsw_embeddings index) (length (queryCalls w)) question with
      | None =>
          QAChain.ask question returnSources chain w = (Throw EmbeddingProviderError, built, w1)
      | Some qv =>
          let docs := (take (hnswlib.r_k (QAChain.chain_retriever c))
                            (hnsw_rank w qv (hnsw_entries index))).*1 in
          let p := qa_prompt w (String.concat (String "010"%char (String "010"%char EmptyString))
                                              (map pageContent docs)) question in
          match complete w p with
          | None =>
              QAChain.ask question returnSources chain w
              = (Throw LanguageModelError, built, log_llmCall p w1)
          | Some text =>
              QAChain.ask question returnSources chain w
              = (Return (QAChain.mkQAResult question text
                           (if returnSources then Some (map QAChain.excerpt docs) else None)),
                 built, log_llmCall p w1)
          end
      end
  end.
Proof.
  unfold QAChain.ask, QAChain.ensureInitialized, QAChain.initialize, QAChain.on_vectorstore,
    HNSWLibStore.asRetriever, QAChain.invoke, hnswlib.getRelevantDocuments,
    hnswlib.similaritySearch, hnswlib.similaritySearchWithScore, embedQuery.
  munfold.
  destruct chain as [vs llm prompt [c|]]; simpl.
  - destruct (embedQuery_of _ _ _); munfold; simpl; [|done].
    destruct (complete _ _); munfold; simpl; done.
  - destruct vs as [[h|] e dir name]; simpl; [|done].
    destruct (embedQuery_of _ _ _); munfold; simpl; [|done].
    destruct (complete _ _); munfold; simpl; done.
Qed.

(** [X18] An ask that returns has embedded the question once and asked
    the model exactly once; the answer is the model's reply to that
    prompt, the question is echoed, nothing is written to any store, and
    the chain is built afterwards.  Without returnSources there are no
    sources; with it there is one excerpt per retrieved document: at most
    the retriever's width, each of at most 203 UTF-16 code units. *)
Theorem ask_result_shape
    (chain : QAChain.t) (question : string) (returnSources : bool) (w : World)
    (result : QAChain.QAResult) :
  outcome (QAChain.ask question returnSources chain w) = Return result →
  let r := QAChain.ask question returnSources chain w in
  let width := match QAChain.chain chain with
               | Some c => hnswlib.r_k (QAChain.chain_retriever c)
               | None => retrievalK (app (settings w))
               end in
  QAChain.question result = question
  ∧ (∃ p, llmCalls (after r) = llmCalls w ++ [p] ∧ complete w p = Some (QAChain.answer result))
  ∧ queryCalls (after r) = queryCalls w ++ [question]
  ∧ embedCalls (after r) = embedCalls w
  ∧ files (after r) = files w
  ∧ tables (after r) = tables w
  ∧ is_Some (QAChain.chain (object r))
  ∧ (if returnSources
     then ∃ l, QAChain.sources result = Some l ∧ length l ≤ width
               ∧ Forall (λ x, utf16_length (QAChain.content x) ≤ 203) l
     else QAChain.sources result = None).
Proof.
  intros Hout. cbv zeta. pose proof (ask_run chain question returnSources w) as Hrun.
  destruct (QAChain.chain chain) as [c|] eqn:Hc.
  - cbv zeta in Hrun.
    destruct (embedQuery_of _ _ _) as [qv|]; [|rewrite Hrun in Hout; done].
    destruct (complete _ _) as [text|] eqn:Hp; [|rewrite Hrun in Hout; done].
    rewrite Hrun in *. unfold outcome, after, object in *. simpl in *.
    injection Hout as <-. simpl.
    repeat split; eauto.
    destruct returnSources; [|done]. eexists. split; [done|]. split.
    + rewrite !length_map, length_take. lia.
    + apply Forall_forall. intros x [d [-> _]]%list_elem_of_fmap.
      apply excerpt_facts.
  - destruct (HNSWLibStore.vectorstore (QAChain.vectorstore chain)) as [h|];
      [|rewrite Hrun in Hout; done].
    cbv zeta in Hrun. simpl in Hrun.
    destruct (embedQuery_of _ _ _) as [qv|]; [|rewrite Hrun in Hout; done].
    destruct (complete _ _) as [text|] eqn:Hp; [|rewrite Hrun in Hout; done].
    rewrite Hrun in *. unfold outcome, after, object in *. simpl in *.
    injection Hout as <-. simpl.
    repeat split; eauto.
    destruct returnSources; [|done]. eexists. split; [done|]. split.
    + rewrite !length_map, length_take. lia.
    + apply Forall_forall. intros x [d [-> _]]%list_elem_of_fmap.
      apply excerpt_facts.
Qed.

Lemma ask_result_shape_example :
  ∃ result,
    outcome (QAChain.ask "chunk" true Examples.qa_chain Examples.world_with_index)
    = Return result
    ∧ QAChain.question result = "chunk"
    ∧ (length <$> QAChain.sources result) = Some 3.
Proof.
  assert (Hout : ∃ result,
             outcome (QAChain.ask "chunk" true Examples.qa_chain Examples.world_with_index)
             = Return result
             ∧ (length <$> QAChain.sources result) = Some 3).
  { eexists. split; vm_compute; reflexivity. }
  destruct Hout as (result & Hout & Hlen).
  exists result. split; [exact Hout|]. split; [|exact Hlen].
  exact (proj1 (ask_result_shape Examples.qa_chain "chunk" true Examples.world_with_index
                  result Hout)).
Defined.

Lemma fromTemplate_Ok template prompt :
  QAChain.fromTemplate template = Ok prompt → prompt = template.
Proof. unfold QAChain.fromTemplate. case_match; by intros [= <-]. Qed.

(** [X19] A chain made over a store that has no index cannot answer:
    initialize and ask throw NotInitializedError before the provider or the
    model is called, nothing changes, and the chain stays unbuilt, so every
    later ask on this chain fails the same way. *)
Theorem ask_without_index_throws
    (st : Settings) (vs : HNSWLibStore.t) (llmType : QAChain.LLMType)
    (modelName promptTemplate : option string) (temperature : Z) (chain : QAChain.t)
    (question : string) (returnSources : bool) (w : World) :
  QAChain.new st vs llmType modelName temperature promptTemplate = Ok chain →
  HNSWLibStore.isReady vs = false →
  QAChain.initialize chain w = (Throw NotInitializedError, chain, w)
  ∧ QAChain.ask question returnSources chain w = (Throw NotInitializedError, chain, w)
  ∧ QAChain.chat question chain w = (Throw NotInitializedError, chain, w).
Proof.
  unfold QAChain.new. destruct (QAChain.createLLM _ _ _ _) as [llm|]; [|done].
  destruct (QAChain.fromTemplate _) as [prompt|] eqn:Hprompt; [|done].
  apply fromTemplate_Ok in Hprompt. subst prompt.
  intros [= <-] Hready. unfold HNSWLibStore.isReady in Hready.
  destruct vs as [[h|] e dir name]; [done|].
  pose proof (ask_run (QAChain.mk (HNSWLibStore.mk None e dir name) llm
                         (or_string promptTemplate QAChain.DEFAULT_QA_TEMPLATE) None)
                question returnSources w) as Hask.
  pose proof (ask_run (QAChain.mk (HNSWLibStore.mk None e dir name) llm
                         (or_string promptTemplate QAChain.DEFAULT_QA_TEMPLATE) None)
                question false w) as Hchat.
  simpl in Hask, Hchat. split; [done|]. split; [done|].
  unfold QAChain.chat. munfold. by rewrite Hchat.
Qed.

Lemma ask_without_index_example :
  outcome (QAChain.ask "what did I write" false Examples.unbuilt_chain Scenario.empty_world)
  = Throw NotInitializedError
  ∧ llmCalls (after (QAChain.ask "what did I write" false Examples.unbuilt_chain
                       Scenario.empty_world)) = [].
Proof.
  assert (Hnew : QAChain.new Scenario.config Scenario.hnsw_store QAChain.openai_llm
                   None 0 None = Ok Examples.unbuilt_chain) by reflexivity.
  assert (Hready : HNSWLibStore.isReady Scenario.hnsw_store = false) by reflexivity.
  destruct (ask_without_index_throws Scenario.config Scenario.hnsw_store QAChain.openai_llm
              None None 0 Examples.unbuilt_chain "what did I write" false
              Scenario.empty_world Hnew Hready) as (_ & -> & _).
  split; reflexivity.
Defined.

(** [X20] Every QAChain that the constructor returns was asked for as
    'openai': its model carries the configured API key, which is not
    empty, the given model name or else the configured one, and the given
    temperature; its prompt is the given template or else the default; it
    holds the store it was given and has no chain built yet.  For 'ollama'
    and any other type the constructor throws, whatever the key. *)
Theorem QAChain_new_invariants
    (st : Settings) (vs : HNSWLibStore.t) (llmType : QAChain.LLMType)
    (modelName promptTemplate : option string) (temperature : Z) (chain : QAChain.t) :
  QAChain.new st vs llmType modelName temperature promptTemplate = Ok chain →
  llmType = QAChain.openai_llm
  ∧ QAChain.openAIApiKey (QAChain.llm chain) = apiKey (openai st)
  ∧ QAChain.openAIApiKey (QAChain.llm chain) ≠ ""
  ∧ QAChain.chat_modelName (QAChain.llm chain) = or_string modelName (default_modelName st)
  ∧ QAChain.temperature (QAChain.llm chain) = temperature
  ∧ QAChain.prompt chain = or_string promptTemplate QAChain.DEFAULT_QA_TEMPLATE
  ∧ QAChain.vectorstore chain = vs
  ∧ QAChain.chain chain = None.
Proof.
  unfold QAChain.new, QAChain.createLLM.
  destruct llmType; [|done|done]. case_decide as Hkey; [done|].
  destruct (QAChain.fromTemplate _) as [prompt|] eqn:Hprompt; [|done].
  apply fromTemplate_Ok in Hprompt. subst prompt.
  intros [= <-]. simpl. done.
Qed.

Lemma QAChain_new_example :
  QAChain.new Scenario.config Scenario.hnsw_store QAChain.openai_llm None 0 None
  = Ok Examples.unbuilt_chain
  ∧ QAChain.chat_modelName (QAChain.llm Examples.unbuilt_chain) = "gpt-3.5-turbo".
Proof.
  assert (Hnew : QAChain.new Scenario.config Scenario.hnsw_store QAChain.openai_llm
                   None 0 None = Ok Examples.unbuilt_chain) by reflexivity.
  destruct (QAChain_new_invariants Scenario.config Scenario.hnsw_store QAChain.openai_llm
              None None 0 Examples.unbuilt_chain Hnew) as (_ & _ & _ & Hmodel & _).
  split; [exact Hnew|]. rewrite Hmodel. reflexivity.
Defined.

(** ** OneNoteLoader: the traversal *)

Section traversal.
Import OneNoteLoader.
Variable g : Graph.

Lemma gbind_trace {A B} (m : Gen A) (k : A → Gen B) :
  (m ≫= k).1 = m.1 ++ match m.2 with Ok a => (k a).1 | Err _ => [] end.
Proof.
  gunfold. destruct m as [tr [a|e]]; simpl; [|by rewrite app_nil_r]. by destruct (k a).
Qed.

Lemma failures_app tr1 tr2 : failures (tr1 ++ tr2) = failures tr1 ++ failures tr2.
Proof. apply omap_app. Qed.

Lemma forPages_yielded nbName secName pages :
  yielded (forPages g nbName secName pages).1
  = omap (λ pageInfo, match (loadPage g pageInfo nbName secName).2 with
                      | Ok page => Some page
                      | Err _ => None
                      end) pages.
Proof.
  induction pages as [|p pages IH]; [done|].
  rewrite forPages_cons. cbn [fst]. rewrite yielded_app, IH. simpl.
  by destruct (loadPage g p nbName secName).2.
Qed.

Lemma forPages_failures nbName secName pages :
  failures (forPages g nbName secName pages).1
  = omap (λ pageInfo, match (loadPage g pageInfo nbName secName).2 with
                      | Ok _ => None
                      | Err e => Some (or_string (Some (pi_title pageInfo)) "unknown", e)
                      end) pages.
Proof.
  induction pages as [|p pages IH]; [done|].
  rewrite forPages_cons. cbn [fst]. rewrite failures_app, IH. simpl.
  by destruct (loadPage g p nbName secName).2.
Qed.

Lemma loadPage_fields pageInfo nbName secName page :
  (loadPage g pageInfo nbName secName).2 = Ok page →
  id page = pi_id pageInfo ∧ notebookName page = nbName ∧ sectionName page = secName
  ∧ title page ≠ "".
Proof.
  unfold loadPage, getPageContent, htmlToText. gunfold.
  destruct (content g (pi_id pageInfo)); simpl; [|done].
  destruct (cheerio_text g _); simpl; [|done].
  intros [= <-]. simpl. repeat split; try done.
  unfold or_string. case_decide; [done|done].
Qed.

Lemma forPages_yielded_fields nbName secName pages page :
  page ∈ yielded (forPages g nbName secName pages).1 →
  notebookName page = nbName ∧ sectionName page = secName ∧ title page ≠ "".
Proof.
  rewrite forPages_yielded. intros (pageInfo & _ & Hload)%list_elem_of_omap.
  destruct (loadPage g pageInfo nbName secName).2 as [p|] eqn:E; [|done].
  injection Hload as ->. by destruct (loadPage_fields _ _ _ _ E) as (_ & ? & ? & ?).
Qed.

Lemma forSections_cons_trace sectionName nbName sec rest :
  ∃ tail,
    (forSections g sectionName nbName (sec :: rest)).1
    = (if filtered_out sectionName (sec_displayName sec) then []
       else LogSection (sec_displayName sec)
            :: match pages g (sec_id sec) with
               | Ok ps => (forPages g nbName (sec_displayName sec) ps).1
               | Err _ => []
               end) ++ tail
    ∧ (tail = [] ∨ tail = (forSections g sectionName nbName rest).1).
Proof.
  simpl. unfold listPages. gunfold.
  destruct (filtered_out sectionName (sec_displayName sec)).
  - destruct (forSections g sectionName nbName rest); simpl; eauto.
  - destruct (pages g (sec_id sec)) as [ps|e]; simpl; [|exists []; eauto].
    destruct (forPages g nbName (sec_displayName sec) ps) as [tr [[]|e]]; simpl;
      [|exists []; rewrite !app_nil_r; eauto].
    destruct (forSections g sectionName nbName rest); simpl. eauto.
Qed.

Lemma forNotebooks_cons_trace notebookName sectionName nb rest :
  ∃ tail,
    (forNotebooks g notebookName sectionName (nb :: rest)).1
    = (if filtered_out notebookName (nb_displayName nb) then []
       else LogNotebook (nb_displayName nb)
            :: match sections g (nb_id nb) with
               | Ok secs => (forSections g sectionName (nb_displayName nb) secs).1
               | Err _ => []
               end) ++ tail
    ∧ (tail = [] ∨ tail = (forNotebooks g notebookName sectionName rest).1).
Proof.
  simpl. unfold listSections. gunfold.
  destruct (filtered_out notebookName (nb_displayName nb)).
  - destruct (forNotebooks g notebookName sectionName rest); simpl; eauto.
  - destruct (sections g (nb_id nb)) as [secs|e]; simpl; [|exists []; eauto].
    destruct (forSections g sectionName (nb_displayName nb) secs) as [tr [[]|e]]; simpl;
      [|exists []; rewrite !app_nil_r; eauto].
    destruct (forNotebooks g notebookName sectionName rest); simpl. eauto.
Qed.

Lemma forSections_yielded_fields sectionName nbName secs page :
  page ∈ yielded (forSections g sectionName nbName secs).1 →
  notebookName page = nbName
  ∧ filtered_out sectionName (OneNoteLoader.sectionName page) = false
  ∧ title page ≠ "".
Proof.
  induction secs as [|sec secs IH]; [by intros ?%elem_of_nil|].
  destruct (forSections_cons_trace sectionName nbName sec secs) as (tail & -> & Htail).
  rewrite yielded_app. intros [Hin|Hin]%elem_of_app.
  - destruct (filtered_out sectionName (sec_displayName sec)) eqn:Hf;
      [by apply elem_of_nil in Hin|].
    simpl in Hin. destruct (pages g (sec_id sec)); [|by apply elem_of_nil in Hin].
    apply forPages_yielded_fields in Hin as (? & -> & ?). done.
  - destruct Htail as [->| ->]; [by apply elem_of_nil in Hin|by apply IH].
Qed.

Lemma forNotebooks_yielded_fields notebookName sectionName nbs page :
  page ∈ yielded (forNotebooks g notebookName sectionName nbs).1 →
  filtered_out notebookName (OneNoteLoader.notebookName page) = false
  ∧ filtered_out sectionName (OneNoteLoader.sectionName page) = false
  ∧ title page ≠ "".
Proof.
  induction nbs as [|nb nbs IH]; [by intros ?%elem_of_nil|].
  destruct (forNotebooks_cons_trace notebookName sectionName nb nbs) as (tail & -> & Htail).
  rewrite yielded_app. intros [Hin|Hin]%elem_of_app.
  - destruct (filtered_out notebookName (nb_displayName nb)) eqn:Hf;
      [by apply elem_of_nil in Hin|].
    simpl in Hin. destruct (sections g (nb_id nb)); [|by apply elem_of_nil in Hin].
    apply forSections_yielded_fields in Hin as (-> & ? & ?). done.
  - destruct Htail as [->| ->]; [by apply elem_of_nil in Hin|by apply IH].
Qed.

Lemma filtered_out_false filter name f :
  filtered_out filter name = false → filter = Some f → f ≠ "" → name = f.
Proof.
  intros Hf -> Hne. unfold filtered_out in Hf. rewrite decide_False in Hf by done.
  apply bool_decide_eq_false in Hf. by destruct (decide (name = f)).
Qed.

End traversal.

(** [X21] The page loop accounts for every listed page exactly once: the
    pages it yields are the pages that load, in listing order; the
    failures it reports are the pages that do not, in listing order, each
    with its title (or "unknown") and its error; so yields and failures
    together are as many as the pages listed. *)
Theorem forPages_accounts_for_every_page
    (g : OneNoteLoader.Graph) (nbName secName : string) (pages : list OneNoteLoader.PageInfo) :
  let tr := (OneNoteLoader.forPages g nbName secName pages).1 in
  OneNoteLoader.yielded tr
  = omap (λ pageInfo, match (OneNoteLoader.loadPage g pageInfo nbName secName).2 with
                      | Ok page => Some page
                      | Err _ => None
                      end) pages
  ∧ OneNoteLoader.failures tr
    = omap (λ pageInfo,
              match (OneNoteLoader.loadPage g pageInfo nbName secName).2 with
              | Ok _ => None
              | Err e => Some (or_string (Some (OneNoteLoader.pi_title pageInfo)) "unknown", e)
              end) pages
  ∧ length (OneNoteLoader.yielded tr) + length (OneNoteLoader.failures tr) = length pages.
Proof.
  cbv zeta. split; [apply forPages_yielded|]. split; [apply forPages_failures|].
  induction pages as [|p pages IH]; [done|].
  rewrite forPages_cons. cbn [fst].
  rewrite yielded_app, failures_app, !length_app.
  destruct (OneNoteLoader.loadPage g p nbName secName).2; simpl; lia.
Qed.

(** [X22] The filters are exact: every page that iterPages yields comes
    from a notebook whose display name equals the notebook filter and a
    section whose display name equals the section filter, character for
    character, when that filter is given and not empty; and every yielded
    page has a title. *)
Theorem iterPages_yields_only_selected
    (g : OneNoteLoader.Graph) (notebookName sectionName : option string)
    (page : OneNoteLoader.OneNotePage) :
  page ∈ OneNoteLoader.yielded (OneNoteLoader.iterPages g notebookName sectionName).1 →
  (∀ f, notebookName = Some f → f ≠ "" → OneNoteLoader.notebookName page = f)
  ∧ (∀ f, sectionName = Some f → f ≠ "" → OneNoteLoader.sectionName page = f)
  ∧ OneNoteLoader.title page ≠ "".
Proof.
  unfold OneNoteLoader.iterPages, OneNoteLoader.listNotebooks. gunfold.
  destruct (OneNoteLoader.notebooks g) as [nbs|e]; [|by intros ?%elem_of_nil].
  destruct (OneNoteLoader.forNotebooks g notebookName sectionName nbs) as [tr res] eqn:E.
  simpl. intros Hin.
  assert (Hin' : page ∈ OneNoteLoader.yielded
                          (OneNoteLoader.forNotebooks g notebookName sectionName nbs).1)
    by (by rewrite E).
  apply forNotebooks_yielded_fields in Hin' as (Hnb & Hsec & Htitle).
  split; [|split; [|done]]; intros f Hf Hne; by eapply filtered_out_false.
Qed.

Lemma iterPages_filter_example :
  ∃ page,
    page ∈ OneNoteLoader.yielded
             (OneNoteLoader.iterPages Scenario.graph (Some "Work") (Some "Meetings")).1
    ∧ OneNoteLoader.notebookName page = "Work"
    ∧ OneNoteLoader.sectionName page = "Meetings".
Proof.
  assert (Hin : ∃ page,
             page ∈ OneNoteLoader.yielded
                      (OneNoteLoader.iterPages Scenario.graph (Some "Work")
                         (Some "Meetings")).1).
  { eexists. vm_compute. left. }
  destruct Hin as (page & Hin). exists page. split; [exact Hin|].
  destruct (iterPages_yields_only_selected Scenario.graph (Some "Work") (Some "Meetings")
              page Hin) as (Hnb & Hsec & _).
  split; [by apply Hnb|by apply Hsec].
Defined.


(** ** The traversal as a whole *)

Section whole_traversal.
Import OneNoteLoader Traversal.
Variable g : Graph.

Lemma loadPage_result pageInfo nbName secName :
  loadPage g pageInfo nbName secName = ([], page_result g nbName secName pageInfo).
Proof.
  unfold loadPage, page_result, getPageContent, htmlToText. gunfold.
  destruct (content g (pi_id pageInfo)) as [html|e]; simpl; [|done].
  by destruct (cheerio_text g html).
Qed.

Lemma omap_map {A B C} (f : B → option C) (h : A → B) (l : list A) :
  omap f (map h l) = omap (λ x, f (h x)) l.
Proof.
  induction l as [|x l IH]; [done|]. simpl.
  destruct (f (h x)); [f_equal|]; exact IH.
Qed.

Lemma omap_pointwise {A B} (f h : A → option B) (l : list A) :
  (∀ x, f x = h x) → omap f l = omap h l.
Proof.
  intros Hfh. induction l as [|x l IH]; [done|]. simpl. rewrite Hfh.
  destruct (h x); [f_equal|]; exact IH.
Qed.

Lemma loaded_app l1 l2 : loaded g (l1 ++ l2) = loaded g l1 ++ loaded g l2.
Proof. apply omap_app. Qed.

Lemma failed_app l1 l2 : failed g (l1 ++ l2) = failed g l1 ++ failed g l2.
Proof. apply omap_app. Qed.

Lemma loaded_failed_cons p l :
  match page_result g (in_notebook p) (in_section p) (info p) with
  | Ok page => loaded g (p :: l) = page :: loaded g l ∧ failed g (p :: l) = failed g l
  | Err e =>
      loaded g (p :: l) = loaded g l
      ∧ failed g (p :: l) = (or_string (Some (pi_title (info p))) "unknown", e) :: failed g l
  end.
Proof.
  unfold loaded, failed. simpl.
  by destruct (page_result g (in_notebook p) (in_section p) (info p)).
Qed.

Lemma loaded_failed_length l : length (loaded g l) + length (failed g l) = length l.
Proof.
  induction l as [|p l IH]; [done|]. pose proof (loaded_failed_cons p l) as H.
  destruct (page_result g (in_notebook p) (in_section p) (info p));
    destruct H as [-> ->]; simpl; lia.
Qed.

Lemma forPages_listed nbName secName ps :
  yielded (forPages g nbName secName ps).1 = loaded g (map (mkListed nbName secName) ps)
  ∧ failures (forPages g nbName secName ps).1 = failed g (map (mkListed nbName secName) ps).
Proof.
  unfold loaded, failed. rewrite forPages_yielded, forPages_failures, !omap_map.
  split; apply omap_pointwise; intros p; simpl; by rewrite loadPage_result.
Qed.

Lemma forSections_listed sectionName nbName secs : ∀ l,
  listed_in_sections g sectionName nbName secs = Ok l →
  (forSections g sectionName nbName secs).2 = Ok tt
  ∧ yielded (forSections g sectionName nbName secs).1 = loaded g l
  ∧ failures (forSections g sectionName nbName secs).1 = failed g l.
Proof.
  induction secs as [|sec secs IH]; intros l Hl; simpl in Hl.
  - by injection Hl as <-.
  - simpl. unfold listPages. gunfold.
    destruct (filtered_out sectionName (sec_displayName sec)).
    + destruct (IH l Hl) as (Hok & Hy & Hf).
      destruct (forSections g sectionName nbName secs) as [tr r]. simpl in *. by subst.
    + destruct (pages g (sec_id sec)) as [ps|e]; [|done].
      destruct (listed_in_sections g sectionName nbName secs) as [l'|e] eqn:E; [|done].
      injection Hl as <-. destruct (IH l' eq_refl) as (Hok & Hy & Hf).
      pose proof (forPages_ok g nbName (sec_displayName sec) ps) as Hps.
      destruct (forPages_listed nbName (sec_displayName sec) ps) as [Hpy Hpf].
      destruct (forPages g nbName (sec_displayName sec) ps) as [trp rp]. simpl in *. subst rp.
      destruct (forSections g sectionName nbName secs) as [tr r]. simpl in *. subst r.
      rewrite loaded_app, failed_app, <- Hy, <- Hf, <- Hpy, <- Hpf.
      split; [done|]. by rewrite ?app_nil_r, yielded_app, failures_app.
Qed.

Lemma forNotebooks_listed notebookName sectionName nbs : ∀ l,
  listed_in_notebooks g notebookName sectionName nbs = Ok l →
  (forNotebooks g notebookName sectionName nbs).2 = Ok tt
  ∧ yielded (forNotebooks g notebookName sectionName nbs).1 = loaded g l
  ∧ failures (forNotebooks g notebookName sectionName nbs).1 = failed g l.
Proof.
  induction nbs as [|nb nbs IH]; intros l Hl; simpl in Hl.
  - by injection Hl as <-.
  - simpl. unfold listSections. gunfold.
    destruct (filtered_out notebookName (nb_displayName nb)).
    + destruct (IH l Hl) as (Hok & Hy & Hf).
      destruct (forNotebooks g notebookName sectionName nbs) as [tr r]. simpl in *. by subst.
    + destruct (sections g (nb_id nb)) as [secs|e]; [|done].
      destruct (listed_in_sections g sectionName (nb_displayName nb) secs) as [l1|e] eqn:E1;
        [|done].
      destruct (listed_in_notebooks g notebookName sectionName nbs) as [l2|e] eqn:E2; [|done].
      injection Hl as <-. destruct (IH l2 eq_refl) as (Hok & Hy & Hf).
      destruct (forSections_listed sectionName (nb_displayName nb) secs l1 E1)
        as (Hsok & Hsy & Hsf).
      destruct (forSections g sectionName (nb_displayName nb) secs) as [trs rs].
      simpl in *. subst rs.
      destruct (forNotebooks g notebookName sectionName nbs) as [tr r]. simpl in *. subst r.
      rewrite loaded_app, failed_app, <- Hy, <- Hf, <- Hsy, <- Hsf.
      split; [done|]. by rewrite ?app_nil_r, yielded_app, failures_app.
Qed.

Lemma iterPages_listed notebookName sectionName l :
  listed g notebookName sectionName = Ok l →
  (iterPages g notebookName sectionName).2 = Ok tt
  ∧ yielded (iterPages g notebookName sectionName).1 = loaded g l
  ∧ failures (iterPages g notebookName sectionName).1 = failed g l.
Proof.
  unfold listed, iterPages, listNotebooks. gunfold.
  destruct (notebooks g) as [nbs|e]; [|done]. intros Hl.
  destruct (forNotebooks_listed notebookName sectionName nbs l Hl) as (Hok & Hy & Hf).
  by destruct (forNotebooks g notebookName sectionName nbs).
Qed.

End whole_traversal.

(** [C8] (counterexample) Nothing the caller of iterPages receives records
    a failure: the run over three pages of which the second cannot be
    fetched yields the same pages, and ends the same way, as the run over
    the first and the third page alone.  The failure is a line on the
    console, with the title of the page and the error. *)
Lemma iterPages_failure_not_returned :
  let run := OneNoteLoader.iterPages Scenario.graph None None in
  let run' := OneNoteLoader.iterPages Scenario.graph_without_second_page None None in
  OneNoteLoader.yielded run.1 = OneNoteLoader.yielded run'.1
  ∧ run.2 = run'.2
  ∧ OneNoteLoader.failures run.1 = [("Tuesday", OneNoteAPIError 500)]
  ∧ OneNoteLoader.failures run'.1 = [].
Proof. vm_compute. done. Qed.

(** [C8] (amended) When the notebooks, sections and pages on the way can
    be listed, a run of iterPages comes to its end whatever happens to the
    pages: it yields exactly the listed pages that load, in order, through
    all the selected sections and notebooks, and for every page whose
    content cannot be fetched or whose markup cannot be converted it
    yields nothing and writes one line to the console, with the title of
    the page and the error.  So a page that fails is skipped, and the
    pages before it and after it, the later sections and notebooks
    included, are yielded as if it had not been listed.  (The console line
    is the only record of the failure.) *)
Theorem iterPages_skips_failing_page
    (g : OneNoteLoader.Graph) (notebookName sectionName : option string)
    (pages : list Traversal.Listed) :
  Traversal.listed g notebookName sectionName = Ok pages →
  let run := OneNoteLoader.iterPages g notebookName sectionName in
  run.2 = Ok tt
  ∧ OneNoteLoader.yielded run.1 = Traversal.loaded g pages
  ∧ OneNoteLoader.failures run.1 = Traversal.failed g pages
  ∧ length (OneNoteLoader.yielded run.1) + length (OneNoteLoader.failures run.1)
    = length pages
  ∧ ∀ before bad later e,
      pages = before ++ bad :: later →
      (OneNoteLoader.content g (OneNoteLoader.pi_id (Traversal.info bad)) = Err e
       ∨ ∃ html,
           OneNoteLoader.content g (OneNoteLoader.pi_id (Traversal.info bad)) = Ok html
           ∧ OneNoteLoader.cheerio_text g html = Err e) →
      OneNoteLoader.yielded run.1 = Traversal.loaded g before ++ Traversal.loaded g later
      ∧ OneNoteLoader.failures run.1
        = Traversal.failed g before
          ++ (or_string (Some (OneNoteLoader.pi_title (Traversal.info bad))) "unknown", e)
             :: Traversal.failed g later.
Proof.
  intros Hl run. destruct (iterPages_listed g notebookName sectionName pages Hl)
    as (Hok & Hy & Hf).
  split; [done|]. split; [done|]. split; [done|]. split.
  - subst run. rewrite Hy, Hf. apply loaded_failed_length.
  - intros before bad later e -> Hbad.
    assert (Hres : Traversal.page_result g (Traversal.in_notebook bad)
                     (Traversal.in_section bad) (Traversal.info bad) = Err e).
    { unfold Traversal.page_result. destruct Hbad as [->|(html & -> & ->)]; done. }
    subst run. rewrite Hy, Hf, loaded_app, failed_app.
    pose proof (loaded_failed_cons g bad later) as Hcons. rewrite Hres in Hcons.
    by destruct Hcons as [-> ->].
Qed.

(** Two sections: in the first the second page cannot be fetched, in the
    second the first page cannot be converted; the three other pages are
    yielded, the last after both failures. *)
Lemma iterPages_second_page_fails :
  let run := OneNoteLoader.iterPages Scenario.two_sections None None in
  run.2 = Ok tt
  ∧ map OneNoteLoader.id (OneNoteLoader.yielded run.1) = ["p1"; "p3"; "p5"]
  ∧ OneNoteLoader.failures run.1
    = [("Tuesday", OneNoteAPIError 500); ("Roadmap", MarkupError)].
Proof.
  set (listing := λ section ids,
         map (λ '(i, t), Traversal.mkListed "Work" section
                           (OneNoteLoader.mkPageInfo i t None None None)) ids).
  assert (Hl : Traversal.listed Scenario.two_sections None None
               = Ok (listing "Meetings" [("p1", "Monday")]
                     ++ Traversal.mkListed "Work" "Meetings"
                          (OneNoteLoader.mkPageInfo "p2" "Tuesday" None None None)
                        :: listing "Meetings" [("p3", "Wednesday")]
                           ++ listing "Plans" [("p4", "Roadmap"); ("p5", "Budget")]))
    by reflexivity.
  destruct (iterPages_skips_failing_page Scenario.two_sections None None _ Hl)
    as (Hok & _ & _ & _ & Hskip).
  destruct (Hskip _ _ _ (OneNoteAPIError 500) eq_refl ltac:(by left)) as [Hy Hf].
  cbv zeta. split; [exact Hok|]. rewrite Hy, Hf. vm_compute. done.
Defined.

(** ** OneNoteLoader: the text clean-up *)

Section clean_up.
Import OneNoteLoader.
Implicit Types (l line : list ascii) (lines : list (list ascii)) (c : ascii).

(** *** White space at the beginning, for any reading of two and three bytes *)

Section strip_facts.
Variables (w2 : ascii → ascii → bool) (w3 : ascii → ascii → ascii → bool).

Lemma strip_unchanged l : starts_white w2 w3 l = false → strip w2 w3 l = l.
Proof.
  destruct l as [|c1 [|c2 [|c3 l3]]]; simpl; [done|..].
  - rewrite orb_false_r. by intros ->.
  - rewrite orb_false_r. intros [-> ->]%orb_false_elim. done.
  - intros [-> [-> ->]%orb_false_elim]%orb_false_elim. done.
Qed.

Lemma strip_suffix_clean n : ∀ l, length l ≤ n →
  starts_white w2 w3 (strip w2 w3 l) = false ∧ ∃ k, l = k ++ strip w2 w3 l.
Proof.
  induction n as [|n IH]; intros l Hn.
  { destruct l; [|simpl in Hn; lia]. split; [done|by exists []]. }
  destruct l as [|c1 l1]; [split; [done|by exists []]|].
  simpl in Hn. cbn [strip]. destruct (is_white c1) eqn:H1.
  { destruct (IH l1 ltac:(lia)) as [? [k Hk]]. split; [done|].
    exists (c1 :: k). simpl. by f_equal. }
  destruct l1 as [|c2 l2].
  { split; [simpl; by rewrite H1|by exists []]. }
  simpl in Hn. destruct (w2 c1 c2) eqn:H2.
  { destruct (IH l2 ltac:(lia)) as [? [k Hk]]. split; [done|].
    exists (c1 :: c2 :: k). simpl. by do 2 f_equal. }
  destruct l2 as [|c3 l3].
  { split; [simpl; by rewrite H1, H2|by exists []]. }
  simpl in Hn. destruct (w3 c1 c2 c3) eqn:H3.
  { destruct (IH l3 ltac:(lia)) as [? [k Hk]]. split; [done|].
    exists (c1 :: c2 :: c3 :: k). simpl. by do 3 f_equal. }
  split; [simpl; by rewrite H1, H2, H3|by exists []].
Qed.

Lemma strip_clean l : starts_white w2 w3 (strip w2 w3 l) = false.
Proof. by destruct (strip_suffix_clean (length l) l). Qed.

Lemma strip_suffix l : ∃ k, l = k ++ strip w2 w3 l.
Proof. by destruct (strip_suffix_clean (length l) l). Qed.

Lemma starts_white_app l r : starts_white w2 w3 (l ++ r) = false → starts_white w2 w3 l = false.
Proof.
  destruct l as [|c1 [|c2 [|c3 l3]]]; simpl; [done|..].
  - destruct r; simpl; [done|]. intros [-> _]%orb_false_elim. done.
  - destruct r; simpl; [done|]. intros [-> [-> _]%orb_false_elim]%orb_false_elim. done.
  - done.
Qed.

Hypothesis w2_newline : ∀ c1 c2, w2 c1 c2 = true → c2 ≠ newline.
Hypothesis w3_newline : ∀ c1 c2 c3, w3 c1 c2 c3 = true → c2 ≠ newline ∧ c3 ≠ newline.

Lemma starts_white_line l r :
  l ≠ [] → starts_white w2 w3 l = false → starts_white w2 w3 (l ++ newline :: r) = false.
Proof.
  assert (H2 : ∀ c1, w2 c1 newline = false).
  { intros c1. destruct (w2 c1 newline) eqn:E; [|done]. by destruct (w2_newline _ _ E). }
  assert (H3 : ∀ c1 c3, w3 c1 newline c3 = false).
  { intros c1 c3. destruct (w3 c1 newline c3) eqn:E; [|done].
    by destruct (w3_newline _ _ _ E) as [? _]. }
  assert (H3' : ∀ c1 c2, w3 c1 c2 newline = false).
  { intros c1 c2. destruct (w3 c1 c2 newline) eqn:E; [|done].
    by destruct (w3_newline _ _ _ E) as [_ ?]. }
  intros Hne. destruct l as [|c1 [|c2 [|c3 l3]]]; simpl; [done|..].
  - rewrite orb_false_r. intros ->. rewrite H2. simpl. destruct r; [done|apply H3].
  - rewrite orb_false_r. intros [-> ->]%orb_false_elim. simpl. apply H3'.
  - done.
Qed.

End strip_facts.

Lemma is_white2_newline c1 c2 :
  is_white2 c1 c2 = true → c1 ≠ newline ∧ c2 ≠ newline.
Proof.
  unfold is_white2. intros [H1 H2]%bool_decide_eq_true.
  split; intros ->; by vm_compute in H1, H2.
Qed.

Lemma is_white3_newline c1 c2 c3 :
  is_white3 c1 c2 c3 = true → c1 ≠ newline ∧ c2 ≠ newline ∧ c3 ≠ newline.
Proof.
  unfold is_white3. intros H%bool_decide_eq_true.
  repeat split; intros ->;
    change (nat_of_ascii newline) with 10 in H; lia.
Qed.

Lemma trim_start_suffix l : ∃ k, l = k ++ trim_start l.
Proof. apply strip_suffix. Qed.

Lemma trim_end_prefix l : ∃ k, l = trim_end l ++ k.
Proof.
  unfold trim_end. destruct (strip_suffix (λ c2 c1, is_white2 c1 c2)
    (λ c3 c2 c1, is_white3 c1 c2 c3) (reverse l)) as [k Hk].
  exists (reverse k). rewrite <- reverse_app, <- Hk. by rewrite reverse_involutive.
Qed.

Lemma trim_subseteq l c : c ∈ trim l → c ∈ l.
Proof.
  unfold trim. intros H.
  destruct (trim_start_suffix l) as [k1 Hk1].
  destruct (trim_end_prefix (trim_start l)) as [k2 Hk2].
  rewrite Hk1, Hk2. set_solver.
Qed.

(** A trimmed line has no white space at either end. *)
Lemma trim_ends l : begins_with_space (trim l) = false ∧ ends_with_space (trim l) = false.
Proof.
  unfold trim. split.
  - destruct (trim_end_prefix (trim_start l)) as [k Hk].
    unfold begins_with_space. apply (starts_white_app _ _ _ k). rewrite <- Hk.
    apply strip_clean.
  - unfold ends_with_space, trim_end. rewrite reverse_involutive. apply strip_clean.
Qed.

Lemma trim_unchanged l :
  begins_with_space l = false → ends_with_space l = false → trim l = l.
Proof.
  intros Hb He. unfold trim, trim_end, trim_start.
  rewrite (strip_unchanged _ _ l Hb), (strip_unchanged _ _ (reverse l) He).
  apply reverse_involutive.
Qed.

Lemma split_lines_cons c l :
  split_lines (c :: l)
  = match split_lines l with
    | line :: lines => if decide (c = newline) then [] :: line :: lines
                       else (c :: line) :: lines
    | [] => [[c]]
    end.
Proof. done. Qed.

Lemma split_lines_nonempty l : split_lines l ≠ [].
Proof.
  destruct l as [|c l]; [done|]. rewrite split_lines_cons.
  destruct (split_lines l); [done|]. by case_decide.
Qed.

Lemma split_lines_no_newline l : Forall (λ line, newline ∉ line) (split_lines l).
Proof.
  induction l as [|c l IH]; [repeat constructor; by intros ?%elem_of_nil|].
  rewrite split_lines_cons. destruct (split_lines l) as [|line lines] eqn:E.
  - by destruct (split_lines_nonempty l).
  - inversion IH as [|? ? Hline Hlines]; subst. case_decide as Hc.
    + repeat constructor; [by intros ?%elem_of_nil|done|done].
    + constructor; [|done]. intros [?|?]%elem_of_cons; [by subst|done].
Qed.

Lemma split_lines_line line : newline ∉ line → split_lines line = [line].
Proof.
  induction line as [|c line IH]; [done|]. intros Hnl.
  rewrite split_lines_cons, IH by (intros ?; apply Hnl; by right).
  rewrite decide_False; [done|]. intros ->. apply Hnl. by left.
Qed.

Lemma split_lines_app line l :
  newline ∉ line → split_lines (line ++ newline :: l) = line :: split_lines l.
Proof.
  induction line as [|c line IH]; intros Hnl.
  - rewrite app_nil_l, split_lines_cons.
    destruct (split_lines l) eqn:E; [|by rewrite decide_True].
    by destruct (split_lines_nonempty l).
  - rewrite <- app_comm_cons, split_lines_cons, IH by (intros ?; apply Hnl; by right).
    rewrite decide_False; [done|]. intros ->. apply Hnl. by left.
Qed.

Lemma join_lines_cons line line' lines :
  join_lines (line :: line' :: lines) = line ++ newline :: join_lines (line' :: lines).
Proof. done. Qed.

Lemma split_join lines :
  lines ≠ [] → Forall (λ line, newline ∉ line) lines → split_lines (join_lines lines) = lines.
Proof.
  induction lines as [|line lines IH]; [done|]. intros _ Hall.
  inversion Hall as [|? ? Hline Hlines]; subst.
  destruct lines as [|line' lines]; [by apply split_lines_line|].
  rewrite join_lines_cons, split_lines_app by done. by rewrite IH.
Qed.

Lemma collapse_line line : newline ∉ line → ∀ run l,
  collapse_newlines run (line ++ l)
  = line ++ collapse_newlines (if line is [] then run else 0) l.
Proof.
  induction line as [|c line IH]; intros Hnl run l; [done|].
  simpl. rewrite decide_False by (intros ->; apply Hnl; by left).
  rewrite IH by (intros ?; apply Hnl; by right).
  by destruct line.
Qed.

Lemma collapse_join lines :
  Forall clean_line lines → ∀ run,
  collapse_newlines run (join_lines lines) = join_lines lines.
Proof.
  induction lines as [|line lines IH]; [done|]. intros Hall run.
  inversion Hall as [|? ? (Hnl & Hne & _) Hlines]; subst.
  destruct lines as [|line' lines].
  - simpl. rewrite <- (app_nil_r line) at 1. rewrite collapse_line by done.
    simpl. by rewrite app_nil_r.
  - rewrite join_lines_cons, collapse_line by done.
    destruct line; [done|].
    change (collapse_newlines 0 (newline :: ?l)) with (newline :: collapse_newlines 1 l).
    by rewrite IH.
Qed.

Lemma join_begins line lines :
  line ≠ [] → begins_with_space line = false →
  begins_with_space (join_lines (line :: lines)) = false.
Proof.
  intros Hne Hb. destruct lines as [|line' lines]; [done|]. rewrite join_lines_cons.
  apply starts_white_line; [| |done|done].
  - intros c1 c2 H. by destruct (is_white2_newline _ _ H).
  - intros c1 c2 c3 H. by destruct (is_white3_newline _ _ _ H) as (_ & ? & ?).
Qed.

Lemma join_last lines line :
  last lines = Some line →
  join_lines lines = line ∨ ∃ before, join_lines lines = before ++ newline :: line.
Proof.
  intros Hline. induction lines as [|line' lines IH]; [done|].
  destruct lines as [|line'' lines]; [left; by simplify_eq/=|].
  right. rewrite join_lines_cons. rewrite last_cons in Hline.
  destruct (last (line'' :: lines)) eqn:E; [|by apply last_None in E].
  destruct (IH Hline) as [->|[before ->]]; [by exists line'|].
  exists (line' ++ newline :: before). by rewrite <- app_assoc.
Qed.

Lemma join_ends lines line :
  last lines = Some line → line ≠ [] → ends_with_space line = false →
  ends_with_space (join_lines lines) = false.
Proof.
  intros Hlast Hne He. destruct (join_last lines line Hlast) as [->|[before ->]]; [done|].
  unfold ends_with_space. rewrite reverse_app, reverse_cons, <- app_assoc. simpl.
  apply starts_white_line; [| | |done].
  - intros c1 c2 H. by destruct (is_white2_newline _ _ H).
  - intros c1 c2 c3 H. by destruct (is_white3_newline _ _ _ H) as (? & ? & _).
  - intros H. apply Hne. by rewrite <- (reverse_involutive line), H.
Qed.

Lemma trim_join lines : Forall clean_line lines → trim (join_lines lines) = join_lines lines.
Proof.
  intros Hall. destruct lines as [|line lines]; [done|].
  destruct (last (line :: lines)) as [line'|] eqn:Hlast;
    [|by apply last_None in Hlast].
  assert (Hin : line' ∈ line :: lines) by (by apply last_Some_elem_of).
  rewrite Forall_forall in Hall.
  destruct (Hall line') as (_ & Hne' & _ & He); [done|].
  destruct (Hall line) as (_ & Hne & Hb & _); [by left|].
  apply trim_unchanged; [by apply join_begins|by eapply join_ends].
Qed.

Lemma kept_lines_clean text : Forall clean_line (kept_lines text).
Proof.
  unfold kept_lines. apply Forall_forall. intros line [Hne Hin]%list_elem_of_filter.
  apply list_elem_of_fmap in Hin as (l & -> & Hin).
  pose proof (split_lines_no_newline (String.list_ascii_of_string text)) as Hall.
  rewrite Forall_forall in Hall. split.
  - intros H%trim_subseteq. by apply (Hall l).
  - destruct (trim_ends l). done.
Qed.

Lemma clean_text_kept text :
  clean_text text = String.string_of_list_ascii (join_lines (kept_lines text)).
Proof.
  unfold clean_text. fold (kept_lines text).
  by rewrite collapse_join, trim_join by apply kept_lines_clean.
Qed.

Lemma kept_lines_join lines : Forall clean_line lines →
  filter (λ line, line ≠ []) (map trim (split_lines (join_lines lines))) = lines.
Proof.
  intros Hall. destruct lines as [|line lines]; [done|].
  rewrite split_join; [|done|by eapply Forall_impl; [done|intros ? []]].
  induction Hall as [|l ls Hl _ IH]; [done|].
  pose proof Hl as (_ & Hne & Hb & He).
  simpl map. rewrite (trim_unchanged l) by done.
  rewrite filter_cons_True by done. by rewrite IH.
Qed.

(** [X24] What [htmlToText] returns after cheerio extracted the text: the
    lines of the text, each trimmed as [String.prototype.trim] does (the
    white space and line terminators of JavaScript, also those of two and
    three bytes such as the no-break space and the ideographic space), the
    empty ones dropped, joined by single line breaks.  Every kept line is
    not empty, has no line break inside and no white-space character at
    either end; the later [replace] of three or more line breaks and the
    final [trim] change nothing, and cleaning a cleaned text again gives the
    same text. *)
Theorem clean_text_normal_form text :
  clean_text text = String.string_of_list_ascii (join_lines (kept_lines text))
  ∧ Forall clean_line (kept_lines text)
  ∧ kept_lines (clean_text text) = kept_lines text
  ∧ clean_text (clean_text text) = clean_text text.
Proof.
  pose proof (kept_lines_clean text) as Hclean.
  assert (Hkept : kept_lines (clean_text text) = kept_lines text).
  { rewrite clean_text_kept. unfold kept_lines at 1.
    rewrite String.list_ascii_of_string_of_list_ascii. by apply kept_lines_join. }
  repeat split; [apply clean_text_kept|done|done|].
  by rewrite (clean_text_kept (clean_text text)), Hkept, <- clean_text_kept.
Qed.

End clean_up.

(** ** The embedding factories *)

(** [X25] [EmbeddingFactory.create] gives an OpenAI client built from
    [settings.openai] whether a local model is asked for or not: asking for
    one only adds the four warnings.  It throws exactly when no OpenAI key is
    configured, also when a local model was asked for. *)
Theorem EmbeddingFactory_create_local_is_openai st useLocalModel useLocal :
  let '(warnings, result) := EmbeddingFactory.create st useLocalModel useLocal in
  result = EmbeddingFactory.createOpenAI st None None
  ∧ warnings = (if default useLocalModel useLocal then EmbeddingFactory.local_warnings else [])
  ∧ (result = Err NotConfiguredError ↔ default_apiKey st = ""%string)
  ∧ (default_apiKey st ≠ ""%string →
     result = Ok (EmbeddingFactory.mkOpenAIEmbeddings
                    (default_apiKey st) (default_embeddingModel st))).
Proof.
  unfold EmbeddingFactory.create, EmbeddingFactory.createLocal.
  assert (Hopen :
    (EmbeddingFactory.createOpenAI st None None = Err NotConfiguredError
       ↔ default_apiKey st = ""%string)
    ∧ (default_apiKey st ≠ ""%string →
       EmbeddingFactory.createOpenAI st None None
       = Ok (EmbeddingFactory.mkOpenAIEmbeddings
               (default_apiKey st) (default_embeddingModel st)))).
  { unfold EmbeddingFactory.createOpenAI, or_string. case_decide; split; done. }
  destruct Hopen as [Herr Hok].
  by destruct (default useLocalModel useLocal).
Qed.

Lemma or_string_None b : or_string None b = b.
Proof. done. Qed.

(** [X26] The factory for Gemini and OpenAI builds a client exactly when the
    provider in use has its key configured: the provider asked for, without
    falling back to the other one; with no provider asked for, Gemini if its
    key is set, else OpenAI if its key is set.  A client it returns never
    holds an empty key, and when it throws nothing was printed. *)
Theorem ProviderEmbeddingFactory_create_needs_key st g provider :
  let '(printed, result) := ProviderEmbeddingFactory.create st g provider in
  let gemini_key := ProviderEmbeddingFactory.gemini_apiKey g in
  let openai_key := default_apiKey st in
  ((∃ e, result = Ok e) ↔
     match provider with
     | Some ProviderEmbeddingFactory.gemini => gemini_key ≠ ""%string
     | Some ProviderEmbeddingFactory.openai_provider => openai_key ≠ ""%string
     | None => gemini_key ≠ ""%string ∨ openai_key ≠ ""%string
     end)
  ∧ (∀ e, result = Ok e →
       ProviderEmbeddingFactory.key_of e ≠ ""%string
       ∧ length printed = 1
       ∧ (provider = None → gemini_key ≠ ""%string →
          e = ProviderEmbeddingFactory.GoogleGenerativeAIEmbeddings
                gemini_key (ProviderEmbeddingFactory.gemini_embeddingModel g)))
  ∧ ((¬ ∃ e, result = Ok e) → result = Err NotConfiguredError ∧ printed = []).
Proof.
  unfold ProviderEmbeddingFactory.create, ProviderEmbeddingFactory.detectProvider,
    ProviderEmbeddingFactory.createGemini, ProviderEmbeddingFactory.createOpenAI.
  rewrite !or_string_None.
  destruct provider as [[]|];
    repeat (match goal with |- context [decide ?P] => destruct (decide P) end);
    simpl; (split; [split|split]); intros;
    repeat match goal with
           | H : ∃ _, _ |- _ => destruct H
           | H : _ ∨ _ |- _ => destruct H
           | H : ¬ (∃ _, _) |- _ => exfalso; apply H; eexists; reflexivity
           end;
    simplify_eq/=; eauto; try done; repeat split; try done; intros; done.
Qed.

(** ** GraphAuthenticator *)

Section authenticator.
Import GraphAuthenticator.
Variables (az : AzureConfig) (m : Msal).

Lemma token_of_not_empty response token : token_of response = Some token → token ≠ ""%string.
Proof. destruct response as [r|]; [|done]. simpl. case_decide; naive_solver. Qed.

Lemma deviceCodeFlow_cases scopes env :
  (∃ token env', deviceCodeFlow m scopes env = (Returned token, env') ∧ token ≠ ""%string)
  ∨ (∃ message env',
       deviceCodeFlow m scopes env = (Threw (JsError ("认证失败: " +:+ message)), env')).
Proof.
  unfold deviceCodeFlow.
  destruct (acquireTokenByDeviceCode m scopes (files env)) as [[shown answer] files1].
  destruct answer as [response|e].
  - destruct (token_of response) as [token|] eqn:Htoken.
    + left. do 2 eexists. split; [done|]. by eapply token_of_not_empty.
    + right. by do 2 eexists.
  - right. by do 2 eexists.
Qed.

(** What [getAccessToken] does, case by case. *)
Lemma getAccessToken_cases a env :
  (∃ e files1, getAllAccounts m (files env) = (Threw e, files1)
     ∧ getAccessToken az m a env = (Threw e, set_files files1 env))
  ∨ (∃ token env', getAccessToken az m a env = (Returned token, env') ∧ token ≠ ""%string)
  ∨ (∃ message env',
       getAccessToken az m a env = (Threw (JsError ("认证失败: " +:+ message)), env')).
Proof.
  unfold getAccessToken.
  destruct (getAllAccounts m (files env)) as [[accounts|e] files1]; [|left; by do 2 eexists].
  right. destruct accounts as [|account rest]; [apply deviceCodeFlow_cases|].
  destruct (acquireTokenSilent m account (scopes az) files1) as [[response|e] files2];
    [|apply deviceCodeFlow_cases].
  destruct (token_of response) as [token|] eqn:Htoken; [|apply deviceCodeFlow_cases].
  left. do 2 eexists. split; [done|]. by eapply token_of_not_empty.
Qed.

(** [X27] The headers [getHeaders] returns always carry a token:
    [Authorization] is [Bearer] followed by a token that is not empty, the
    one [getAccessToken] returned, and the only other header is the content
    type. *)
Theorem getHeaders_carry_a_token a env headers env' :
  getHeaders az m a env = (Returned headers, env') →
  ∃ token,
    token ≠ ""%string
    ∧ getAccessToken az m a env = (Returned token, env')
    ∧ headers = [ ("Authorization", "Bearer " +:+ token);
                  ("Content-Type", "application/json") ]%string.
Proof.
  unfold getHeaders. intros H.
  destruct (getAccessToken_cases a env)
    as [(e & files1 & _ & Hget)|[(token & env1 & Hget & Hne)|(msg & env1 & Hget)]];
    rewrite Hget in H; simplify_eq. by exists token.
Qed.

(** [X28] Why [getAccessToken] can fail: because listing the cached accounts
    failed, with that error, or because the device code flow failed, and
    then with an [Error] whose message begins with the words for
    "authentication failed".  A failure of the silent request is never
    passed on. *)
Theorem getAccessToken_failures a env e env' :
  getAccessToken az m a env = (Threw e, env') →
  (∃ files1, getAllAccounts m (files env) = (Threw e, files1))
  ∨ (∃ message, e = JsError ("认证失败: " +:+ message)).
Proof.
  intros H.
  destruct (getAccessToken_cases a env)
    as [(e1 & files1 & Hacc & Hget)|[(token & env1 & Hget & Hne)|(msg & env1 & Hget)]];
    rewrite Hget in H; simplify_eq.
  - left. by exists files1.
  - right. by exists msg.
Qed.

(** [X29] [testConnection] never throws: it answers [true] exactly when a
    token was obtained and the request for [/me], sent with that token, was
    answered with an ok status; every failure on the way gives [false]. *)
Theorem testConnection_never_throws (fetch : Fetch) a env :
  ∃ ok env',
    testConnection az m fetch a env = (Returned ok, env')
    ∧ (ok = true ↔
       ∃ token,
         getAccessToken az m a env = (Returned token, env')
         ∧ fetch (graphEndpoint az +:+ "/me")%string
             [ ("Authorization", "Bearer " +:+ token);
               ("Content-Type", "application/json") ]%string = Returned true).
Proof.
  unfold testConnection, getHeaders.
  destruct (getAccessToken az m a env) as [[token|e] env1].
  - destruct (fetch _ _) as [ok|e] eqn:Hfetch.
    + exists ok, env1. split; [done|]. split.
      * intros ->. by exists token.
      * intros (token' & Heq & Hok). simplify_eq. rewrite Hfetch in Hok. by simplify_eq.
    + exists false, env1. split; [done|]. split; [done|].
      intros (token' & Heq & Hok). simplify_eq. by rewrite Hfetch in Hok.
  - exists false, env1. split; [done|]. split; [done|]. by intros (? & ? & ?).
Qed.

(** [X30] The cache plug-in is made before the constructor stores its
    [cacheFile] argument, so MSAL's cache is always written to the default
    file, while [clearCache] removes the file named by the argument: with an
    authenticator made for another cache file, a cache that was just saved
    is still on disk, unchanged, after [clearCache], whatever [clearCache]
    answers. *)
Theorem clearCache_misses_saved_cache clientId tenantId cacheFile a cacheContext env :
  cacheFile ≠ ""%string → cacheFile ≠ TOKEN_CACHE_FILE →
  new az clientId tenantId (Some cacheFile) = Returned a →
  cacheHasChanged cacheContext = true → write_error env = None →
  let saved := afterCacheAccess (cache_cachePlugin (msalClient a)) cacheContext env in
  files saved !! TOKEN_CACHE_FILE = Some (tokenCache cacheContext)
  ∧ files (clearCache a saved).2 !! TOKEN_CACHE_FILE = Some (tokenCache cacheContext).
Proof.
  intros Hne Hother Hnew Hchanged Hwrite. unfold new in Hnew.
  case_decide; [done|]. injection Hnew as <-. simpl.
  rewrite Hchanged, Hwrite. simpl. rewrite lookup_insert_eq. split; [done|].
  unfold clearCache, or_string. simpl. rewrite decide_False by done.
  rewrite lookup_insert_ne by done. rewrite Hwrite.
  destruct (files env !! cacheFile); simpl; [|by rewrite lookup_insert_eq].
  rewrite lookup_delete_ne by done. by rewrite lookup_insert_eq.
Qed.

End authenticator.

Lemma getHeaders_signed_in :
  ∃ token,
    token ≠ ""%string
    ∧ GraphAuthenticator.getAccessToken AuthScenario.azure AuthScenario.signed_in
        AuthScenario.authenticator AuthScenario.empty_env
      = (GraphAuthenticator.Returned token, AuthScenario.empty_env)
    ∧ [ ("Authorization", "Bearer eyJ0eXAi"); ("Content-Type", "application/json") ]%string
      = [ ("Authorization", "Bearer " +:+ token);
          ("Content-Type", "application/json") ]%string.
Proof.
  apply (getHeaders_carry_a_token AuthScenario.azure AuthScenario.signed_in
           AuthScenario.authenticator AuthScenario.empty_env).
  vm_compute. reflexivity.
Defined.

Lemma getAccessToken_login_expired :
  (∃ files1,
     GraphAuthenticator.getAllAccounts AuthScenario.login_expired
       (GraphAuthenticator.files AuthScenario.empty_env)
     = (GraphAuthenticator.Threw
          (GraphAuthenticator.JsError "认证失败: device_code_expired"), files1))
  ∨ (∃ message,
       GraphAuthenticator.JsError "认证失败: device_code_expired"
       = GraphAuthenticator.JsError ("认证失败: " +:+ message)).
Proof.
  eapply (getAccessToken_failures AuthScenario.azure AuthScenario.login_expired
            AuthScenario.authenticator AuthScenario.empty_env).
  reflexivity.
Defined.

Lemma clearCache_misses_saved_cache_example :
  let saved :=
    GraphAuthenticator.afterCacheAccess
      (GraphAuthenticator.cache_cachePlugin
         (GraphAuthenticator.msalClient AuthScenario.authenticator_with_cache_file))
      AuthScenario.changed_cache AuthScenario.empty_env in
  GraphAuthenticator.files saved !! GraphAuthenticator.TOKEN_CACHE_FILE
  = Some (GraphAuthenticator.tokenCache AuthScenario.changed_cache)
  ∧ GraphAuthenticator.files
      (GraphAuthenticator.clearCache AuthScenario.authenticator_with_cache_file saved).2
    !! GraphAuthenticator.TOKEN_CACHE_FILE
    = Some (GraphAuthenticator.tokenCache AuthScenario.changed_cache).
Proof.
  apply (clearCache_misses_saved_cache AuthScenario.azure None None
           "onenote_tokens.json" AuthScenario.authenticator_with_cache_file
           AuthScenario.changed_cache AuthScenario.empty_env);
    [done|done|reflexivity|reflexivity|reflexivity].
Defined.

